(** * Double-slit experiment simulator: a shallow embedding of
    [Talleres/Segundo Corte/ExperimentoDobleSlit/doble_rendija.py]

    The Python module computes with IEEE doubles through NumPy.  This
    development reads every Python [float] as a real number of the Standard
    Library ([R]), so that the formulas of the source are the formulas below,
    and keeps two things of the machine explicit:

    - exceptions and warnings: a method of the source returns in the monad
      [M], which carries the warnings emitted so far and either a value or
      the exception raised;
    - a division by zero: NumPy does not raise, it yields [inf] or [nan].
      An array element is therefore [option R], where [None] stands for such
      a non-finite value, and every later operation on it stays [None];
    - the rounding of binary64, where it decides an integer: the argument
      of [int(...)] in [_calcular_parametros_teoricos] is computed with
      every operation rounded to the nearest float;
    - the sign of a float zero, where [math.atan2] looks at it (module
      [libreria_complejos]). *)

From Stdlib Require Import Reals Lra Lia ZArith List Bool Sorted.
From Stdlib Require Import Zfloor.
From Stdlib Require String.
Import String.StringSyntax.
Import ListNotations.

Local Open Scope string_scope.
Local Open Scope R_scope.

(** ** Exceptions and warnings *)

(** The [ValueError]s of the module, one constructor per message. *)
Inductive excepcion : Type :=
| OndaNoPositiva (recibido : R)
    (* "La longitud de onda debe ser positiva. Recibido: ..." (Onda) *)
| LongitudOndaNoPositiva   (* "La longitud de onda debe ser positiva" *)
| AnchoRendijaNoPositivo   (* "El ancho de rendija debe ser positivo" *)
| SeparacionNoPositiva     (* "La separación debe ser positiva" *)
| DistanciaNoPositiva      (* "La distancia a la pantalla debe ser positiva" *)
| AnchoPantallaNoPositivo  (* "El ancho de la pantalla debe ser positivo" *)
| PocosPuntos              (* "Se requieren al menos 100 puntos ..." *)
| ArregloVacio             (* NumPy: reduction of an empty array *)
| FormasIncompatibles      (* NumPy: operands could not be broadcast *)
| DimensionesDistintas.    (* NumPy: arrays of different lengths stacked *)

(** The messages passed to [warnings.warn]: the two of the module, and the
    [RuntimeWarning]s that NumPy issues inside [np.corrcoef]. *)
Inductive aviso : Type :=
| FueraRangoVisible (nanometros : R)
    (* "Longitud de onda ... nm fuera del rango visible (400-700 nm)" *)
| Solapamiento
    (* "La separación es menor o igual al ancho de rendija. ..." *)
| ValorInvalido      (* NumPy: "invalid value encountered in ..." *)
| DivisionPorCero    (* NumPy: "divide by zero encountered in divide" *)
| GradosDeLibertad   (* NumPy: "Degrees of freedom <= 0 for slice" *)
| MediaVacia.        (* NumPy: "Mean of empty slice." *)

Inductive resultado (A : Type) : Type :=
| Ok (a : A)
| Raise (e : excepcion).

Arguments Ok {A} a.
Arguments Raise {A} e.

(** A computation: the warnings emitted, in order, and how it ended. *)
Definition M (A : Type) : Type := (list aviso * resultado A)%type.

Definition ret {A} (a : A) : M A := ([], Ok a).

Definition raise {A} (e : excepcion) : M A := ([], Raise e).

Definition warn (w : aviso) : M unit := ([w], Ok tt).

Definition bind {A B} (m : M A) (f : A -> M B) : M B :=
  match m with
  | (ws, Raise e) => (ws, Raise e)
  | (ws, Ok a) => let (ws', r) := f a in (ws ++ ws', r)
  end.

Notation "x <- m ;; k" := (bind m (fun x => k))
  (at level 61, m at next level, right associativity).
Notation "m ;;; k" := (bind m (fun _ => k))
  (at level 61, right associativity).

(** [if c: raise e] and [if c: warnings.warn(w)]. *)
Definition raise_if (c : bool) (e : excepcion) : M unit :=
  if c then raise e else ret tt.

Definition warn_if (c : bool) (w : aviso) : M unit :=
  if c then warn w else ret tt.

Definition emitidos {A} (m : M A) : list aviso := fst m.
Definition termina {A} (m : M A) : resultado A := snd m.

Definition falla {A} (m : M A) : Prop := exists e, termina m = Raise e.

(** ** Comparisons of floats, as booleans *)

Definition Rleb (x y : R) : bool := if Rle_dec x y then true else false.
Definition Rltb (x y : R) : bool := if Rlt_dec x y then true else false.

(** [int(x)] of a float: truncation towards zero. *)
Definition py_int (x : R) : Z := if Rle_dec 0 x then Zfloor x else Zceil x.

(** ** Binary64 rounding

    Reading floats as real numbers changes a result of the module in one
    place: [int(...)] in [_calcular_parametros_teoricos] is discontinuous,
    so that the rounding of its argument decides the integer.  That
    argument is therefore computed as the machine computes it: a literal,
    and the result of every multiplication and division, is rounded to the
    nearest number with a significand of 53 bits, ties to the even
    significand.  The range of the exponent is not bounded: overflow and
    subnormal numbers are not modelled. *)

(** The exponent [e] of the binade of [x]: [2 ^ e <= |x| < 2 ^ (e + 1)]. *)
Definition exponente (x : R) : Z := Zfloor (ln (Rabs x) / ln 2).

(** The unit in the last place of the floats of that binade. *)
Definition ulp (x : R) : R := powerRZ 2 (exponente x - 52).

(** The integer nearest to [q]; half-way between two integers, the even
    one. *)
Definition entero_mas_cercano (q : R) : Z :=
  let n := Zfloor q in
  if Rlt_dec (q - IZR n) (1 / 2) then n
  else if Rlt_dec (1 / 2) (q - IZR n) then (n + 1)%Z
  else if Z.even n then n else (n + 1)%Z.

(** The float nearest to the real number [x]. *)
Definition binario64 (x : R) : R :=
  if Req_dec_T x 0 then 0
  else IZR (entero_mas_cercano (x / ulp x)) * ulp x.

(** [x * y] and [x / y] on two floats. *)
Definition fmul (x y : R) : R := binario64 (x * y).
Definition fdiv (x y : R) : R := binario64 (x / y).

(** ** The NumPy operations the module uses *)

Module np.

(** A one-dimensional array of floats; [None] is a non-finite element. *)
Definition ndarray : Type := list (option R).

Definition array (l : list R) : ndarray := map Some l.

(** [x / y] on floats: non-finite when the divisor is zero. *)
Definition div (x y : R) : option R :=
  if Req_dec_T y 0 then None else Some (x / y).

Definition lift1 (f : R -> R) (x : option R) : option R :=
  match x with Some v => Some (f v) | None => None end.

Definition lift2 (f : R -> R -> R) (x y : option R) : option R :=
  match x, y with Some u, Some v => Some (f u v) | _, _ => None end.

Definition odiv (x y : option R) : option R :=
  match x, y with Some u, Some v => div u v | _, _ => None end.

(** A universal function applied element by element. *)
Definition ufunc (f : R -> R) (a : ndarray) : ndarray := map (lift1 f) a.

(** [a / c] and [c * a] for a scalar [c]. *)
Definition div_scalar (a : ndarray) (c : R) : ndarray :=
  map (fun x => odiv x (Some c)) a.

Definition mul_scalar (c : R) (a : ndarray) : ndarray := ufunc (Rmult c) a.

(** Element-wise binary operation on two arrays of the same length. *)
Fixpoint zip_with (f : option R -> option R -> option R)
         (a b : ndarray) : ndarray :=
  match a, b with
  | x :: a', y :: b' => f x y :: zip_with f a' b'
  | _, _ => []
  end.

(** One-dimensional broadcasting: equal lengths, or one operand of
    length one; anything else raises. *)
Definition broadcast (f : option R -> option R -> option R)
           (a b : ndarray) : M ndarray :=
  if Nat.eqb (length a) (length b) then ret (zip_with f a b)
  else match a, b with
       | [x], _ => ret (map (f x) b)
       | _, [y] => ret (map (fun x => f x y) a)
       | _, _ => raise FormasIncompatibles
       end.

(** [a ** 2]. *)
Definition sqr (a : ndarray) : ndarray := ufunc (fun v => v ^ 2) a.

(** [np.where(np.abs(a) < eps, c, a)]. *)
Definition where_abs_lt (eps c : R) (a : ndarray) : ndarray :=
  ufunc (fun v => if Rlt_dec (Rabs v) eps then c else v) a.

(** [np.arange(lo, hi)] on integers. *)
Definition arange (lo hi : Z) : list Z :=
  map (fun i => (lo + Z.of_nat i)%Z) (seq 0 (Z.to_nat (hi - lo))).

(** [np.linspace(start, stop, num)]: [num] samples [start + i * step]
    with [step = (stop - start) / (num - 1)]; the last one is [stop]. *)
Definition linspace (start stop : R) (num : nat) : list R :=
  map (fun i => start + INR i * ((stop - start) / (INR num - 1)))
      (seq 0 num).

(** [np.max] and [np.min] of finite floats. *)
Definition maximo (x : R) (l : list R) : R := fold_left Rmax l x.
Definition minimo (x : R) (l : list R) : R := fold_left Rmin l x.

Definition max_finito (l : list R) : M R :=
  match l with
  | [] => raise ArregloVacio
  | x :: l' => ret (maximo x l')
  end.

Definition min_finito (l : list R) : M R :=
  match l with
  | [] => raise ArregloVacio
  | x :: l' => ret (minimo x l')
  end.

(** [np.max] of an array: non-finite as soon as one element is. *)
Definition max (a : ndarray) : M (option R) :=
  match a with
  | [] => raise ArregloVacio
  | x :: a' => ret (fold_left (lift2 Rmax) a' x)
  end.

(** [np.mean]. *)
Definition mean (a : ndarray) : option R :=
  odiv (fold_left (lift2 Rplus) a (Some 0)) (Some (INR (length a))).

(** *** [np.corrcoef]

    [np.corrcoef(x, y)] stacks its two arguments as the rows of a matrix,
    which raises when their lengths differ, takes the covariance matrix
    [c] of the rows ([np.cov]: the rows minus their means, multiplied by
    their transpose, times [1 / (n - 1)] for rows of [n] elements),
    divides the rows and then the columns of [c] by the square roots of
    its diagonal, and clips the result to [-1, 1].  The matrix is kept as
    the list [c00; c01; c10; c11].

    A row of equal values has deviation 0, and the two divisions then
    divide zero by zero: NumPy yields [nan] and reports it with a
    [RuntimeWarning], which goes through [warnings.warn] like the warnings
    of the module and is recorded like them. *)

(** A row minus its mean. *)
Definition centrar (a : ndarray) : ndarray :=
  map (fun v => lift2 Rminus v (mean a)) a.

(** The product of a row by a column. *)
Definition dot (a b : ndarray) : option R :=
  fold_left (lift2 Rplus) (zip_with (lift2 Rmult) a b) (Some 0).

(** The floating-point flags of one division: a finite non-zero number
    over zero is a division by zero, zero over zero is invalid, and a
    non-finite operand goes through silently. *)
Definition division_por_cero (x y : option R) : bool :=
  match x, y with
  | Some u, Some v =>
      if Req_dec_T v 0 then (if Req_dec_T u 0 then false else true)
      else false
  | _, _ => false
  end.

Definition division_invalida (x y : option R) : bool :=
  match x, y with
  | Some u, Some v =>
      if Req_dec_T v 0 then (if Req_dec_T u 0 then true else false)
      else false
  | _, _ => false
  end.

Definition alguna (f : option R -> option R -> bool) (a b : ndarray)
    : bool :=
  existsb (fun p => f (fst p) (snd p)) (combine a b).

(** [a /= b] on arrays of one shape: NumPy warns once for each flag that
    some element raised, the division by zero first. *)
Definition dividir (a b : ndarray) : M ndarray :=
  warn_if (alguna division_por_cero a b) DivisionPorCero ;;;
  warn_if (alguna division_invalida a b) ValorInvalido ;;;
  ret (zip_with odiv a b).

Definition es_cero (x : option R) : bool :=
  match x with
  | Some u => if Req_dec_T u 0 then true else false
  | None => false
  end.

(** [np.clip(v, -1, 1)]. *)
Definition clip (v : R) : R := Rmin (Rmax v (-1)) 1.

(** [np.corrcoef(x, y)[0, 1]].  With fewer than two columns [np.cov]
    warns about the degrees of freedom and multiplies by [1 / 0.0], which
    leaves no finite entry; with no column at all the mean of the rows has
    already warned. *)
Definition corrcoef (x y : ndarray) : M (option R) :=
  raise_if (negb (length x =? length y)%nat) DimensionesDistintas ;;;
  let n := length x in
  warn_if (n =? 0)%nat MediaVacia ;;;
  warn_if (n =? 0)%nat ValorInvalido ;;;
  let X0 := centrar x in
  let X1 := centrar y in
  let c := [dot X0 X0; dot X0 X1; dot X1 X0; dot X1 X1] in
  c <- (if (n <=? 1)%nat then
          warn GradosDeLibertad ;;;
          warn DivisionPorCero ;;;
          warn_if (existsb es_cero c) ValorInvalido ;;;
          ret (map (fun _ => None) c)
        else
          ret (map (fun v => lift2 Rmult v (Some (1 / (INR n - 1)))) c)) ;;
  let stddev0 := lift1 sqrt (nth 0 c None) in
  let stddev1 := lift1 sqrt (nth 3 c None) in
  c <- dividir c [stddev0; stddev0; stddev1; stddev1] ;;
  c <- dividir c [stddev0; stddev1; stddev0; stddev1] ;;
  ret (lift1 clip (nth 1 c None)).

End np.

(** ** Class [Onda] *)

Record Onda : Type := mkOnda {
  longitud_onda : R;
  amplitud : R;
  k : R;            (* wave number *)
  frecuencia : R    (* in Hz *)
}.

(** [Onda.__init__(longitud_onda, amplitud=1.0)]. *)
Definition Onda_init (longitud_onda : R) (amplitud : option R) : M Onda :=
  raise_if (Rleb longitud_onda 0) (OndaNoPositiva longitud_onda) ;;;
  warn_if (negb (Rleb 100e-9 longitud_onda && Rleb longitud_onda 1000e-9))
          (FueraRangoVisible (longitud_onda * 1e9)) ;;;
  ret {| longitud_onda := longitud_onda;
         amplitud := match amplitud with Some a => a | None => 1.0 end;
         k := 2 * PI / longitud_onda;
         frecuencia := 3e8 / longitud_onda |}.

(** [Onda.fase(distancia)]. *)
Definition fase (o : Onda) (distancia : R) : R := k o * distancia.

(** ** Class [ExperimentoDobleRendija] *)

Record ExperimentoDobleRendija : Type := mkExperimento {
  onda : Onda;
  ancho_rendija : R;
  separacion : R;
  distancia_pantalla : R;
  separacion_angular : R;
  separacion_franjas : R;
  ancho_central_difraccion : R;
  num_franjas_visibles : Z
}.

(** The floats that [_calcular_parametros_teoricos] stores in
    [self.separacion_franjas] and [self.ancho_central_difraccion]:
    [(lambda * L) / d] and [(2 * lambda * L) / a], operation by operation,
    on the floats that the constructor received. *)
Definition separacion_franjas_binario64 (lambda d L : R) : R :=
  fdiv (fmul (binario64 lambda) (binario64 L)) (binario64 d).

Definition ancho_central_binario64 (lambda a L : R) : R :=
  fdiv (fmul (fmul 2 (binario64 lambda)) (binario64 L)) (binario64 a).

(** [_calcular_parametros_teoricos]: the four derived attributes, from the
    four attributes assigned just before it is called.  The three lengths
    are kept as the exact quotients, from which the stored floats differ by
    rounding only; the number of fringes is [int] of the quotient of the
    two stored floats, in binary64. *)
Definition _calcular_parametros_teoricos
    (o : Onda) (ancho_rendija separacion distancia_pantalla : R)
    : ExperimentoDobleRendija :=
  let separacion_angular := longitud_onda o / separacion in
  let separacion_franjas :=
    (longitud_onda o * distancia_pantalla) / separacion in
  let ancho_central_difraccion :=
    (2 * longitud_onda o * distancia_pantalla) / ancho_rendija in
  let num_franjas_visibles :=
    py_int (fdiv (ancho_central_binario64
                    (longitud_onda o) ancho_rendija distancia_pantalla)
                 (separacion_franjas_binario64
                    (longitud_onda o) separacion distancia_pantalla)) in
  mkExperimento o ancho_rendija separacion distancia_pantalla
                separacion_angular separacion_franjas
                ancho_central_difraccion num_franjas_visibles.

(** [ExperimentoDobleRendija.__init__]. *)
Definition Experimento_init
    (longitud_onda ancho_rendija separacion distancia_pantalla : R)
    : M ExperimentoDobleRendija :=
  raise_if (Rleb longitud_onda 0) LongitudOndaNoPositiva ;;;
  raise_if (Rleb ancho_rendija 0) AnchoRendijaNoPositivo ;;;
  raise_if (Rleb separacion 0) SeparacionNoPositiva ;;;
  raise_if (Rleb distancia_pantalla 0) DistanciaNoPositiva ;;;
  warn_if (Rleb separacion ancho_rendija) Solapamiento ;;;
  o <- Onda_init longitud_onda None ;;
  ret (_calcular_parametros_teoricos
         o ancho_rendija separacion distancia_pantalla).

(** The defaults of the constructor: a red laser, 50 um slits 200 um apart,
    a screen at 1 m. *)
Definition Experimento_por_defecto : M ExperimentoDobleRendija :=
  Experimento_init 632e-9 50e-6 200e-6 1.0.

(** [rendija_simple(y)]: the single-slit diffraction pattern, line by line. *)
Definition rendija_simple (e : ExperimentoDobleRendija) (y : list R)
    : np.ndarray :=
  let theta :=
    np.ufunc atan (np.div_scalar (np.array y) (distancia_pantalla e)) in
  let beta :=
    np.div_scalar (np.mul_scalar (PI * ancho_rendija e) (np.ufunc sin theta))
                  (longitud_onda (onda e)) in
  let beta_seguro := np.where_abs_lt 1e-12 1e-12 beta in
  np.sqr (np.zip_with np.odiv (np.ufunc sin beta_seguro) beta_seguro).

(** [doble_rendija(y)]: diffraction envelope times interference term. *)
Definition doble_rendija (e : ExperimentoDobleRendija) (y : list R)
    : np.ndarray :=
  let theta :=
    np.ufunc atan (np.div_scalar (np.array y) (distancia_pantalla e)) in
  let beta :=
    np.div_scalar (np.mul_scalar (PI * ancho_rendija e) (np.ufunc sin theta))
                  (longitud_onda (onda e)) in
  let beta_seguro := np.where_abs_lt 1e-12 1e-12 beta in
  let envolvente :=
    np.sqr (np.zip_with np.odiv (np.ufunc sin beta_seguro) beta_seguro) in
  let delta :=
    np.div_scalar (np.mul_scalar (PI * separacion e) (np.ufunc sin theta))
                  (longitud_onda (onda e)) in
  let interferencia := np.sqr (np.ufunc cos delta) in
  np.zip_with (np.lift2 Rmult) envolvente interferencia.

(** An optional argument, with the default of the signature. *)
Definition por_defecto {A} (arg : option A) (d : A) : A :=
  match arg with Some a => a | None => d end.

(** [simular(ancho=0.01, puntos=2000, doble=True)]. *)
Definition simular (e : ExperimentoDobleRendija)
    (ancho : option R) (puntos : option Z) (doble : option bool)
    : M (list R * np.ndarray) :=
  let ancho := por_defecto ancho 0.01 in
  let puntos := por_defecto puntos 2000%Z in
  let doble := por_defecto doble true in
  raise_if (Rleb ancho 0) AnchoPantallaNoPositivo ;;;
  raise_if (puntos <? 100)%Z PocosPuntos ;;;
  let y := np.linspace (- ancho / 2) (ancho / 2) (Z.to_nat puntos) in
  let intensidad :=
    if doble then doble_rendija e y else rendija_simple e y in
  maximo <- np.max intensidad ;;
  let intensidad_normalizada :=
    map (fun v => np.odiv v maximo) intensidad in
  ret (y, intensidad_normalizada).

Module ResultadosAnalisis.
(** The dataclass [ResultadosAnalisis]; the dict [parametros] keeps its
    keys in insertion order. *)
Record t : Type := mk {
  posiciones_maximos : list R;
  posiciones_minimos : list R;
  separacion_franjas : R;
  ancho_central : R;
  parametros : list (String.string * R)
}.
End ResultadosAnalisis.

(** [calcular_posiciones_franjas(n_max=10)]. *)
Definition calcular_posiciones_franjas (e : ExperimentoDobleRendija)
    (n_max : option Z) : M ResultadosAnalisis.t :=
  let n_max := por_defecto n_max 10%Z in
  let ordenes := np.arange (- n_max) (n_max + 1) in
  let posiciones_maximos :=
    map (fun n => IZR n * separacion_franjas e) ordenes in
  let ordenes_minimos :=
    map (fun n => IZR n + 0.5) (np.arange (- n_max) n_max) in
  let posiciones_minimos :=
    map (fun o => o * separacion_franjas e) ordenes_minimos in
  let parametros :=
    [ ("longitud_onda_nm", longitud_onda (onda e) * 1e9);
      ("ancho_rendija_um", ancho_rendija e * 1e6);
      ("separacion_um", separacion e * 1e6);
      ("distancia_pantalla_m", distancia_pantalla e);
      ("separacion_franjas_mm", separacion_franjas e * 1e3);
      ("ancho_central_mm", ancho_central_difraccion e * 1e3);
      ("num_franjas_visibles", IZR (num_franjas_visibles e)) ] in
  ret (ResultadosAnalisis.mk posiciones_maximos posiciones_minimos
         (separacion_franjas e) (ancho_central_difraccion e) parametros).

(** ** [comparar_experimento_teoria] *)

(** What the function computes: the theoretical curve ([y_teoria],
    [intensidad_teoria]) and the three statistics of the dictionary it
    returns.  The plots and the printed report are left out. *)
Record Comparacion : Type := mkComparacion {
  y_teoria : list R;
  intensidad_teoria : np.ndarray;
  mse : option R;
  correlacion : option R;
  residuos : np.ndarray
}.

Definition comparar_experimento_teoria
    (y_experimental intensidad_experimental : list R)
    (experimento : ExperimentoDobleRendija) : M Comparacion :=
  y_max <- np.max_finito y_experimental ;;
  y_min <- np.min_finito y_experimental ;;
  teoria <- simular experimento
              (Some (y_max - y_min))
              (Some (Z.of_nat (length y_experimental)))
              (Some true) ;;
  let (y_teoria, intensidad_teoria) := teoria in
  diferencia <- np.broadcast (np.lift2 Rminus)
                  (np.array intensidad_experimental) intensidad_teoria ;;
  let mse := np.mean (np.sqr diferencia) in
  correlacion <- np.corrcoef (np.array intensidad_experimental)
                   intensidad_teoria ;;
  residuos <- np.broadcast (np.lift2 Rminus)
                (np.array intensidad_experimental) intensidad_teoria ;;
  ret (mkComparacion y_teoria intensidad_teoria mse correlacion residuos).

(** ** Vocabulary of the statements *)

(** The unit roundoff of binary64, [2 ^ -53]: the largest relative error of
    one rounding. *)
Definition unidad_redondeo : R := / 9007199254740992.

(** The wave that [Onda(longitud_onda)] builds. *)
Definition onda_de (lambda amp : R) : Onda :=
  mkOnda lambda amp (2 * PI / lambda) (3e8 / lambda).

(** The warnings of a successful construction, in the order of emission. *)
Definition avisos_de (lambda a d : R) : list aviso :=
  (if Rleb d a then [Solapamiento] else []) ++
  (if Rleb 100e-9 lambda && Rleb lambda 1000e-9 then []
   else [FueraRangoVisible (lambda * 1e9)]).

(** An experiment that a call of the constructor returned. *)
Definition construido (e : ExperimentoDobleRendija) : Prop :=
  exists lambda a d L ws, Experimento_init lambda a d L = (ws, Ok e).

(** The experiment that [ExperimentoDobleRendija()] builds. *)
Definition experimento_rojo : ExperimentoDobleRendija :=
  _calcular_parametros_teoricos (onda_de 632e-9 1.0) 50e-6 200e-6 1.0.

(** A sequence of positions laid out symmetrically about zero. *)
Definition simetrica (l : list R) : Prop := map Ropp (rev l) = l.

(** A sequence in strictly ascending order. *)
Definition ascendente (l : list R) : Prop := StronglySorted Rlt l.

(** The quantities of [rendija_simple] and [doble_rendija] at one position
    [y] of the screen, with the divisions carried out in [R]. *)
Definition beta_en (e : ExperimentoDobleRendija) (y : R) : R :=
  PI * ancho_rendija e * sin (atan (y / distancia_pantalla e)) /
  longitud_onda (onda e).

Definition delta_en (e : ExperimentoDobleRendija) (y : R) : R :=
  PI * separacion e * sin (atan (y / distancia_pantalla e)) /
  longitud_onda (onda e).

Definition beta_seguro (beta : R) : R :=
  if Rlt_dec (Rabs beta) 1e-12 then 1e-12 else beta.

Definition envolvente_en (e : ExperimentoDobleRendija) (y : R) : R :=
  (sin (beta_seguro (beta_en e y)) / beta_seguro (beta_en e y)) ^ 2.

Definition interferencia_en (e : ExperimentoDobleRendija) (y : R) : R :=
  cos (delta_en e y) ^ 2.

(** A finite array element between 0 and 1. *)
Definition en_unidad (v : option R) : Prop :=
  exists x, v = Some x /\ 0 <= x <= 1.

(** A finite array element. *)
Definition finito (v : option R) : Prop := exists x, v = Some x.

(** The sample that [simular] normalises, at one position. *)
Definition campo_en (e : ExperimentoDobleRendija) (doble : bool) (y : R) : R :=
  if doble then envolvente_en e y * interferencia_en e y
  else envolvente_en e y.

(** An array whose largest sample is exactly 1. *)
Definition maximo_uno (a : np.ndarray) : Prop :=
  termina (np.max a) = Ok (Some 1).

(** The sampling of [simular] resolves the central lobe: the count is odd,
    so that one sample is the centre, or half a step from the centre stays
    inside the central diffraction lobe (and, for the double slit, inside
    the central interference fringe). *)
Definition resuelto (e : ExperimentoDobleRendija)
    (ancho : R) (puntos : Z) (doble : bool) : Prop :=
  Z.odd puntos = true \/
  (ancho_rendija e * ancho <
     2 * (IZR puntos - 1) *
     (distancia_pantalla e * longitud_onda (onda e)) /\
   (doble = true ->
    separacion e * ancho <
      (IZR puntos - 1) * (distancia_pantalla e * longitud_onda (onda e)))).

(** The array that [simular] computes before it normalises. *)
Definition intensidad_cruda (e : ExperimentoDobleRendija) (doble : bool)
    (y : list R) : np.ndarray :=
  if doble then doble_rendija e y else rendija_simple e y.

(** A measurement that scans the screen from the axis to 1 cm in 100 equal
    steps, with a flat measured intensity. *)
Definition y_medido : list R := np.linspace 0 0.01 100.
Definition intensidad_medida : list R := repeat 0.5 100.

(** ** The overlay of predicted maxima in [graficar_patron] *)

(** The loop [for pos in resultados.posiciones_maximos] of [graficar_patron]:
    [np.max(np.abs(y))] is evaluated at every turn, and a vertical line is
    drawn at [pos * 1000] (millimetres) when [abs(pos)] does not exceed it.
    The value is the list of the abscissas drawn, in the order of the
    calls of [plt.axvline]. *)
Fixpoint marcar_maximos (y : list R) (posiciones : list R) : M (list R) :=
  match posiciones with
  | [] => ret []
  | pos :: resto =>
      limite <- np.max_finito (map Rabs y) ;;
      lineas <- marcar_maximos y resto ;;
      ret (if Rleb (Rabs pos) limite then pos * 1000 :: lineas else lineas)
  end.

(** The block [if mostrar_predicciones and experimento: ...] of
    [graficar_patron]; an experiment object is always true, [None] is
    false. *)
Definition graficar_patron_predicciones (y : list R)
    (mostrar_predicciones : bool)
    (experimento : option ExperimentoDobleRendija) : M (list R) :=
  if mostrar_predicciones then
    match experimento with
    | Some e =>
        resultados <- calcular_posiciones_franjas e (Some 5%Z) ;;
        marcar_maximos y (ResultadosAnalisis.posiciones_maximos resultados)
    | None => ret []
    end
  else ret [].

(** ** Module [libreria_complejos] *)

Module Complejos.

(** A complex number is a pair (real part, imaginary part). *)
Definition complejo : Type := (R * R)%type.

Definition suma (c1 c2 : complejo) : complejo :=
  (fst c1 + fst c2, snd c1 + snd c2).

Definition producto (c1 c2 : complejo) : complejo :=
  let real := fst c1 * fst c2 - snd c1 * snd c2 in
  let imag := fst c1 * snd c2 + snd c1 * fst c2 in
  (real, imag).

Definition resta (c1 c2 : complejo) : complejo :=
  (fst c1 - fst c2, snd c1 - snd c2).

(** [division]: [None] is the [ValueError] "Division by zero is not
    allowed." *)
Definition division (c1 c2 : complejo) : option complejo :=
  let denom := fst c2 ^ 2 + snd c2 ^ 2 in
  if Req_dec_T denom 0 then None
  else
    let real := (fst c1 * fst c2 + snd c1 * snd c2) / denom in
    let imag := (snd c1 * fst c2 - fst c1 * snd c2) / denom in
    Some (real, imag).

Definition modulo (c : complejo) : R := sqrt (fst c ^ 2 + snd c ^ 2).

Definition conjugado (c : complejo) : complejo := (fst c, - snd c).

Definition polar_a_cartesiano (r theta : R) : complejo :=
  let real := r * cos theta in
  let imag := r * sin theta in
  (real, imag).

(** A float zero is [0.0] or [-0.0], and [math.atan2] tells the two apart,
    while the real number 0 carries no sign.  [math.atan2] therefore
    receives, with each argument, whether that argument, when it is zero,
    is the float [-0.0]; the flag of an argument that is not zero plays no
    role, and the flag of an [int] zero or of [0.0] is [false]. *)

(** [math.atan2(y, x)]: the angle of the point [(x, y)], in [[-PI, PI]].
    On the negative real axis the angle is [PI] for [y = 0.0] and [-PI] for
    [y = -0.0]; at the origin it is [0] for [x = 0.0] and [PI] or [-PI],
    after the sign of [y], for [x = -0.0]. *)
Definition atan2 (y x : R) (y_menos_cero x_menos_cero : bool) : R :=
  if Rlt_dec 0 x then atan (y / x)
  else if Rlt_dec x 0 then
    if Rlt_dec 0 y then atan (y / x) + PI
    else if Rlt_dec y 0 then atan (y / x) - PI
    else if y_menos_cero then - PI else PI
  else if Rlt_dec 0 y then PI / 2
  else if Rlt_dec y 0 then - (PI / 2)
  else if x_menos_cero then (if y_menos_cero then - PI else PI)
  else 0.

(** [cartesiano_a_polar(c)] and [fase(c)]; [menos_cero] tells, for the real
    and for the imaginary part of [c] in this order, whether a zero there
    is the float [-0.0]. *)
Definition cartesiano_a_polar (c : complejo) (menos_cero : bool * bool)
    : R * R :=
  let r := modulo c in
  let theta := atan2 (snd c) (fst c) (snd menos_cero) (fst menos_cero) in
  (r, theta).

Definition fase (c : complejo) (menos_cero : bool * bool) : R :=
  atan2 (snd c) (fst c) (snd menos_cero) (fst menos_cero).

End Complejos.

(** A sequence that reads the same from both ends. *)
Definition capicua {A : Type} (l : list A) : Prop := rev l = l.

(** * Properties *)

(** ** Comparisons and the monad *)

Lemma bind_Ok {A B} (a : A) (f : A -> M B) : bind ([], Ok a) f = f a.
Proof. unfold bind. destruct (f a). reflexivity. Qed.

Lemma bind_Raise {A B} (ws : list aviso) (ex : excepcion) (f : A -> M B) :
  bind (ws, Raise ex) f = (ws, Raise ex).
Proof. reflexivity. Qed.

Lemma Rleb_true (x y : R) : Rleb x y = true <-> x <= y.
Proof. unfold Rleb; destruct (Rle_dec x y); split; intros; (easy || lra). Qed.

Lemma Rleb_false (x y : R) : Rleb x y = false <-> y < x.
Proof. unfold Rleb; destruct (Rle_dec x y); split; intros; (easy || lra). Qed.

(** Settles the comparisons of reals that guard a branch, one at a time,
    keeping the branches that linear arithmetic cannot exclude. *)
Ltac caso_R :=
  match goal with
  | |- context [Rle_dec ?x ?y] => destruct (Rle_dec x y); try lra
  | |- context [Rlt_dec ?x ?y] => destruct (Rlt_dec x y); try lra
  | |- context [Req_dec_T ?x ?y] => destruct (Req_dec_T x y); try lra
  end.

Ltac desplegar_M :=
  unfold falla, termina, emitidos, raise_if, warn_if, bind, ret, raise, warn,
         Rleb, Rltb; simpl.

Lemma falla_Raise {A} (ws : list aviso) (e : excepcion) :
  falla (A := A) (ws, Raise e).
Proof. now exists e. Qed.

Lemma no_falla_Ok {A} (ws : list aviso) (a : A) : ~ falla (ws, Ok a).
Proof. intros [e He]; discriminate He. Qed.

Create HintDb fallos.

#[local] Hint Resolve falla_Raise no_falla_Ok : fallos.

(** ** Construction of a wave and of an experiment *)

Lemma Onda_init_positiva (lambda : R) (amp : option R) :
  0 < lambda ->
  termina (Onda_init lambda amp) = Ok (onda_de lambda (por_defecto amp 1.0)).
Proof.
  intros Hpos. unfold Onda_init. desplegar_M.
  caso_R. simpl. destruct (_ && _); reflexivity.
Qed.

Lemma Onda_init_avisos (lambda : R) (amp : option R) :
  0 < lambda ->
  emitidos (Onda_init lambda amp) =
  if Rleb 100e-9 lambda && Rleb lambda 1000e-9 then []
  else [FueraRangoVisible (lambda * 1e9)].
Proof.
  intros Hpos. unfold Onda_init. desplegar_M.
  caso_R. simpl. destruct (_ && _); reflexivity.
Qed.

Lemma Experimento_init_Ok (lambda a d L : R) :
  0 < lambda -> 0 < a -> 0 < d -> 0 < L ->
  Experimento_init lambda a d L =
  (avisos_de lambda a d,
   Ok (_calcular_parametros_teoricos (onda_de lambda 1.0) a d L)).
Proof.
  intros Hl Ha Hd HL. unfold Experimento_init, Onda_init, avisos_de.
  desplegar_M. repeat (caso_R; simpl).
  all: reflexivity.
Qed.

Lemma Experimento_init_Raise (lambda a d L : R) :
  lambda <= 0 \/ a <= 0 \/ d <= 0 \/ L <= 0 ->
  falla (Experimento_init lambda a d L).
Proof.
  intros H. unfold Experimento_init. desplegar_M.
  destruct (Rle_dec lambda 0); simpl; [eauto with fallos|].
  destruct (Rle_dec a 0); simpl; [eauto with fallos|].
  destruct (Rle_dec d 0); simpl; [eauto with fallos|].
  destruct (Rle_dec L 0); simpl; [eauto with fallos|].
  lra.
Qed.

(** Inversion of a successful construction. *)
Lemma Experimento_init_inv (lambda a d L : R) ws e :
  Experimento_init lambda a d L = (ws, Ok e) ->
  (0 < lambda /\ 0 < a /\ 0 < d /\ 0 < L) /\
  e = _calcular_parametros_teoricos (onda_de lambda 1.0) a d L.
Proof.
  intros H.
  destruct (Rle_dec lambda 0) as [Hl|Hl];
    [|destruct (Rle_dec a 0) as [Ha|Ha];
      [|destruct (Rle_dec d 0) as [Hd|Hd];
        [|destruct (Rle_dec L 0) as [HL|HL]]]].
  1-4: exfalso; apply (no_falla_Ok ws e); rewrite <- H;
       apply Experimento_init_Raise; tauto.
  rewrite Experimento_init_Ok in H by lra.
  split; [lra | congruence].
Qed.

Lemma construido_positivo (e : ExperimentoDobleRendija) :
  construido e ->
  0 < longitud_onda (onda e) /\ 0 < ancho_rendija e /\
  0 < separacion e /\ 0 < distancia_pantalla e /\
  separacion_franjas e =
    longitud_onda (onda e) * distancia_pantalla e / separacion e.
Proof.
  intros (lambda & a & d & L & ws & H).
  apply Experimento_init_inv in H. destruct H as [Hpos ->].
  simpl. repeat split; lra.
Qed.

Lemma py_int_no_negativo (x : R) : 0 <= x -> py_int x = Zfloor x.
Proof. intros Hx. unfold py_int. caso_R. reflexivity. Qed.

(** C10. For every wavelength greater than zero and every amplitude, zero
    and negative ones included, [Onda] is constructed without an exception
    and stores the amplitude it was given: the amplitude is never checked,
    and the warnings are those of the construction without an amplitude. *)
Theorem Onda_init_amplitud_sin_validar (lambda amp : R) :
  0 < lambda ->
  (exists o, termina (Onda_init lambda (Some amp)) = Ok o /\
             amplitud o = amp /\ longitud_onda o = lambda) /\
  emitidos (Onda_init lambda (Some amp)) = emitidos (Onda_init lambda None).
Proof.
  intros Hpos. split.
  - exists (onda_de lambda amp).
    rewrite Onda_init_positiva by assumption. auto.
  - now rewrite !Onda_init_avisos.
Qed.

Lemma Onda_init_amplitud_sin_validar_testigo :
  0 < 632e-9 /\
  exists o, termina (Onda_init 632e-9 (Some (-2))) = Ok o /\
            amplitud o = -2 /\ longitud_onda o = 632e-9.
Proof.
  split; [lra|].
  apply (proj1 (Onda_init_amplitud_sin_validar 632e-9 (-2) ltac:(lra))).
Defined.

(** C5. The constructor of the experiment raises [ValueError] exactly when
    one of the wavelength, the slit width, the separation and the screen
    distance is not positive; with positive arguments and a separation not
    above the slit width it warns and succeeds; a wavelength of 50 nm
    succeeds with the visible-range warning (the only warning when the
    other arguments are left at their defaults), and a wavelength of -1
    fails. *)
Theorem Experimento_init_validacion :
  (forall lambda a d L,
      falla (Experimento_init lambda a d L) <->
      (lambda <= 0 \/ a <= 0 \/ d <= 0 \/ L <= 0)) /\
  (forall lambda a d L,
      0 < lambda -> 0 < a -> 0 < d -> 0 < L -> d <= a ->
      In Solapamiento (emitidos (Experimento_init lambda a d L)) /\
      exists e, termina (Experimento_init lambda a d L) = Ok e) /\
  (forall a d L,
      0 < a -> 0 < d -> 0 < L ->
      In (FueraRangoVisible (50e-9 * 1e9))
         (emitidos (Experimento_init 50e-9 a d L)) /\
      exists e, termina (Experimento_init 50e-9 a d L) = Ok e) /\
  (exists e, Experimento_init 50e-9 50e-6 200e-6 1.0 =
             ([FueraRangoVisible (50e-9 * 1e9)], Ok e)) /\
  (forall a d L, falla (Experimento_init (-1) a d L)).
Proof.
  split; [|split; [|split; [|split]]].
  - intros lambda a d L. split; [|apply Experimento_init_Raise].
    intros Hf.
    destruct (Rle_dec lambda 0); [tauto|].
    destruct (Rle_dec a 0); [tauto|].
    destruct (Rle_dec d 0); [tauto|].
    destruct (Rle_dec L 0); [tauto|].
    rewrite Experimento_init_Ok in Hf by lra.
    now apply no_falla_Ok in Hf.
  - intros lambda a d L Hl Ha Hd HL Hda.
    rewrite Experimento_init_Ok by assumption. unfold emitidos, termina.
    simpl. split; [|eauto].
    unfold avisos_de. apply in_or_app. left.
    apply Rleb_true in Hda. rewrite Hda. now left.
  - intros a d L Ha Hd HL.
    rewrite Experimento_init_Ok by lra. unfold emitidos, termina.
    simpl. split; [|eauto].
    unfold avisos_de. apply in_or_app. right.
    unfold Rleb. repeat caso_R. now left.
  - eexists. rewrite Experimento_init_Ok by lra. f_equal.
    unfold avisos_de, Rleb. repeat caso_R. reflexivity.
  - intros a d L. apply Experimento_init_Raise. lra.
Qed.

Lemma Experimento_init_validacion_testigo :
  In Solapamiento (emitidos (Experimento_init 632e-9 200e-6 200e-6 1.0)) /\
  exists e, termina (Experimento_init 632e-9 200e-6 200e-6 1.0) = Ok e.
Proof.
  destruct Experimento_init_validacion as (_ & Haviso & _).
  apply (Haviso 632e-9 200e-6 200e-6 1.0); lra.
Defined.

(** ** Derived constants *)

Lemma cociente_no_negativo (lambda a d L : R) :
  0 < lambda -> 0 < a -> 0 < d -> 0 < L ->
  0 <= (2 * lambda * L / a) / (lambda * L / d).
Proof.
  intros Hl Ha Hd HL. apply Rlt_le.
  apply Rdiv_lt_0_compat; apply Rdiv_lt_0_compat; try assumption.
  - apply Rmult_lt_0_compat; lra.
  - apply Rmult_lt_0_compat; lra.
Qed.

(** ** Binary64 rounding *)

Lemma ln_potencia (k : Z) : ln (powerRZ 2 k) = IZR k * ln 2.
Proof. rewrite powerRZ_Rpower by lra. apply ln_Rpower. Qed.

Lemma exponente_eq (x : R) (k : Z) :
  powerRZ 2 k <= Rabs x < powerRZ 2 (k + 1) -> exponente x = k.
Proof.
  intros [Hlo Hhi]. unfold exponente. apply Zfloor_eq.
  pose proof ln_lt_2 as H2. assert (Hl2 : 0 < ln 2) by lra.
  pose proof (powerRZ_lt 2 k ltac:(lra)) as Hk.
  assert (Hx : 0 < Rabs x) by lra.
  assert (H1 : IZR k * ln 2 <= ln (Rabs x)).
  { rewrite <- ln_potencia. destruct Hlo as [Hlo|Hlo].
    - left. now apply ln_increasing.
    - right. now rewrite Hlo. }
  assert (H3 : ln (Rabs x) < (IZR k + 1) * ln 2).
  { rewrite <- plus_IZR, <- ln_potencia. now apply ln_increasing. }
  split.
  - apply Rmult_le_reg_r with (ln 2); [exact Hl2|].
    unfold Rdiv. rewrite Rmult_assoc, Rinv_l by lra. lra.
  - apply Rmult_lt_reg_r with (ln 2); [exact Hl2|].
    unfold Rdiv. rewrite Rmult_assoc, Rinv_l by lra. lra.
Qed.

Lemma entero_mas_cercano_eq (q : R) (m : Z) :
  Rabs (q - IZR m) < 1 / 2 -> entero_mas_cercano q = m.
Proof.
  intros H. apply Rabs_def2 in H. destruct H as [Hhi Hlo].
  unfold entero_mas_cercano.
  pose proof (Zfloor_bound q) as [Hn1 Hn2].
  set (n := Zfloor q) in *.
  assert (Hnm : (n = m \/ n = m - 1)%Z).
  { assert (IZR n < IZR (m + 1)) by (rewrite plus_IZR; lra).
    assert (IZR (m - 2) < IZR n) by (rewrite minus_IZR; lra).
    apply lt_IZR in H, H0. lia. }
  destruct Hnm as [->| ->].
  - destruct (Rlt_dec (q - IZR m) (1 / 2)); [reflexivity | lra].
  - rewrite minus_IZR.
    destruct (Rlt_dec (q - (IZR m - 1)) (1 / 2)); [lra|].
    destruct (Rlt_dec (1 / 2) (q - (IZR m - 1))); [lia | lra].
Qed.

(** Rounding, away from a tie: [x] lies in the binade of [2 ^ (e + 52)],
    whose unit in the last place is [u = 2 ^ e], and [m * u] is nearer to
    [x] than half a unit. *)
Lemma binario64_cercano (x u : R) (m e : Z) :
  u = powerRZ 2 e ->
  4503599627370496 * u <= Rabs x < 9007199254740992 * u ->
  Rabs (x - IZR m * u) < u / 2 ->
  binario64 x = IZR m * u.
Proof.
  intros Hu Hx Hm.
  assert (Hupos : 0 < u) by (rewrite Hu; apply powerRZ_lt; lra).
  assert (He : exponente x = (e + 52)%Z).
  { apply exponente_eq.
    replace (e + 52 + 1)%Z with (e + 53)%Z by lia.
    rewrite !powerRZ_add by lra. rewrite <- Hu.
    replace (powerRZ 2 52) with 4503599627370496 by (simpl; lra).
    replace (powerRZ 2 53) with 9007199254740992 by (simpl; lra).
    lra. }
  unfold binario64.
  destruct (Req_dec_T x 0) as [H0|H0].
  { rewrite H0, Rabs_R0 in Hx. lra. }
  unfold ulp. rewrite He. replace (e + 52 - 52)%Z with e by lia.
  rewrite <- Hu. do 2 f_equal. apply entero_mas_cercano_eq.
  replace (x / u - IZR m) with ((x - IZR m * u) / u) by (field; lra).
  unfold Rdiv at 1. rewrite Rabs_mult, (Rabs_right (/ u)).
  - apply Rmult_lt_reg_r with u; [exact Hupos|].
    rewrite Rmult_assoc, Rinv_l by lra. lra.
  - apply Rle_ge. left. now apply Rinv_0_lt_compat.
Qed.

Lemma binario64_no_negativo (x : R) : 0 <= x -> 0 <= binario64 x.
Proof.
  intros Hx. unfold binario64. destruct (Req_dec_T x 0); [lra|].
  assert (Hu : 0 < ulp x) by (apply powerRZ_lt; lra).
  apply Rmult_le_pos; [|lra].
  apply IZR_le. unfold entero_mas_cercano.
  assert (Hq : 0 <= x / ulp x).
  { apply Rmult_le_pos; [exact Hx|]. left. now apply Rinv_0_lt_compat. }
  assert (Hn : (0 <= Zfloor (x / ulp x))%Z) by (apply Zfloor_lub; exact Hq).
  destruct (Rlt_dec _ _); [exact Hn|].
  destruct (Rlt_dec _ _); [lia|].
  destruct (Z.even _); lia.
Qed.

Lemma exponente_cota (x : R) :
  x <> 0 ->
  powerRZ 2 (exponente x) <= Rabs x < powerRZ 2 (exponente x + 1).
Proof.
  intros Hx. assert (Hpos : 0 < Rabs x) by now apply Rabs_pos_lt.
  pose proof ln_lt_2 as H2. assert (Hl2 : 0 < ln 2) by lra.
  unfold exponente.
  pose proof (Zfloor_bound (ln (Rabs x) / ln 2)) as [Hlo Hhi].
  set (e := Zfloor (ln (Rabs x) / ln 2)) in *.
  assert (H1 : IZR e * ln 2 <= ln (Rabs x)).
  { apply Rmult_le_compat_r with (r := ln 2) in Hlo; [|lra].
    unfold Rdiv in Hlo. rewrite Rmult_assoc, Rinv_l in Hlo by lra. lra. }
  assert (H3 : ln (Rabs x) < IZR (e + 1) * ln 2).
  { apply Rmult_lt_compat_r with (r := ln 2) in Hhi; [|lra].
    unfold Rdiv in Hhi. rewrite Rmult_assoc, Rinv_l in Hhi by lra.
    rewrite plus_IZR. lra. }
  rewrite <- !ln_potencia in *.
  pose proof (powerRZ_lt 2 e ltac:(lra)) as He.
  pose proof (powerRZ_lt 2 (e + 1) ltac:(lra)) as He1.
  split.
  - destruct H1 as [H1|H1].
    + left. now apply ln_lt_inv.
    + right. now apply ln_inv.
  - now apply ln_lt_inv.
Qed.

Lemma entero_mas_cercano_error (q : R) :
  Rabs (q - IZR (entero_mas_cercano q)) <= 1 / 2.
Proof.
  unfold entero_mas_cercano.
  pose proof (Zfloor_bound q) as [Hn1 Hn2].
  set (n := Zfloor q) in *.
  destruct (Rlt_dec (q - IZR n) (1 / 2)).
  { apply Rabs_le. lra. }
  destruct (Rlt_dec (1 / 2) (q - IZR n)).
  { rewrite plus_IZR. apply Rabs_le. lra. }
  destruct (Z.even n); [|rewrite plus_IZR]; apply Rabs_le; lra.
Qed.

(** The relative error of one rounding is at most [2 ^ -53]. *)
Lemma binario64_error (x : R) :
  Rabs (binario64 x - x) <= Rabs x / 9007199254740992.
Proof.
  unfold binario64. destruct (Req_dec_T x 0) as [->|Hx].
  { rewrite Rminus_0_r, Rabs_R0. lra. }
  pose proof (exponente_cota x Hx) as [Hlo _].
  pose proof (entero_mas_cercano_error (x / ulp x)) as Hq.
  assert (Hu : 0 < ulp x) by (apply powerRZ_lt; lra).
  assert (Hulp : ulp x * 4503599627370496 = powerRZ 2 (exponente x)).
  { unfold ulp.
    replace 4503599627370496 with (powerRZ 2 52) by (simpl; lra).
    rewrite <- powerRZ_add by lra. f_equal. lia. }
  set (m := entero_mas_cercano (x / ulp x)) in *.
  replace (IZR m * ulp x - x) with (- ((x / ulp x - IZR m) * ulp x))
    by (field; lra).
  rewrite Rabs_Ropp, Rabs_mult, (Rabs_right (ulp x)) by lra.
  assert (Rabs (x / ulp x - IZR m) * ulp x <= 1 / 2 * ulp x)
    by (apply Rmult_le_compat_r; lra).
  lra.
Qed.

Lemma binario64_entre (x : R) :
  0 < x ->
  x * (1 - / 9007199254740992) <= binario64 x <=
  x * (1 + / 9007199254740992).
Proof.
  intros Hx. pose proof (binario64_error x) as H.
  rewrite (Rabs_right x) in H by lra.
  unfold Rabs in H. destruct (Rcase_abs (binario64 x - x)); lra.
Qed.

Lemma Rabs_cota (x a : R) : Rabs x <= a -> - a <= x <= a.
Proof. unfold Rabs. destruct (Rcase_abs x); lra. Qed.

Lemma redondeo_en_intervalo (x a b : R) :
  0 < a -> a <= x <= b ->
  0 < a * (1 - unidad_redondeo) /\
  a * (1 - unidad_redondeo) <= binario64 x <= b * (1 + unidad_redondeo).
Proof.
  intros Ha Hx. pose proof (binario64_entre x ltac:(lra)) as H.
  fold unidad_redondeo in H.
  assert (Hu : 0 < unidad_redondeo < 1) by (unfold unidad_redondeo; lra).
  split; [nra|]. split; nra.
Qed.

Lemma producto_en_intervalo (x y a b c d : R) :
  0 < a -> a <= x <= b -> 0 < c -> c <= y <= d ->
  0 < a * c /\ a * c <= x * y <= b * d.
Proof. intros Ha Hx Hc Hy. split; [nra|]. split; nra. Qed.

Lemma cociente_en_intervalo (x y a b c d : R) :
  0 < a -> a <= x <= b -> 0 < c -> c <= y <= d ->
  0 < a / d /\ a / d <= x / y <= b / c.
Proof.
  intros Ha Hx Hc Hy.
  assert (Hd : 0 < d) by lra. assert (Hy0 : 0 < y) by lra.
  assert (Hid : 0 < / d) by now apply Rinv_0_lt_compat.
  assert (Hiy : / d <= / y <= / c).
  { split; apply Rinv_le_contravar; lra. }
  unfold Rdiv. split; [nra|]. split; nra.
Qed.

Lemma separacion_franjas_binario64_cota (lambda d L : R) :
  0 < lambda -> 0 < d -> 0 < L ->
  Rabs (separacion_franjas_binario64 lambda d L - lambda * L / d) <=
  lambda * L / d / 1125899906842624.
Proof.
  intros Hl Hd HL. unfold separacion_franjas_binario64, fmul, fdiv.
  destruct (redondeo_en_intervalo lambda lambda lambda Hl ltac:(lra))
    as [Hl0 Hl1].
  destruct (redondeo_en_intervalo L L L HL ltac:(lra)) as [HL0 HL1].
  destruct (redondeo_en_intervalo d d d Hd ltac:(lra)) as [Hd0 Hd1].
  destruct (producto_en_intervalo _ _ _ _ _ _ Hl0 Hl1 HL0 HL1) as [Hp0 Hp1].
  destruct (redondeo_en_intervalo _ _ _ Hp0 Hp1) as [Hq0 Hq1].
  destruct (cociente_en_intervalo _ _ _ _ _ _ Hq0 Hq1 Hd0 Hd1) as [Hr0 Hr1].
  destruct (redondeo_en_intervalo _ _ _ Hr0 Hr1) as [_ [Hs0 Hs1]].
  set (v := binario64 _) in *. set (u := unidad_redondeo) in *.
  assert (Hu : 0 < u < 1) by (unfold u, unidad_redondeo; lra).
  set (X := lambda * L / d).
  assert (HX : 0 < X) by (unfold X; apply Rdiv_lt_0_compat; nra).
  replace (lambda * (1 - u) * (L * (1 - u)) * (1 - u) / (d * (1 + u)) *
           (1 - u)) with (X * ((1 - u) ^ 4 / (1 + u))) in Hs0
    by (unfold X; field; lra).
  replace (lambda * (1 + u) * (L * (1 + u)) * (1 + u) / (d * (1 - u)) *
           (1 + u)) with (X * ((1 + u) ^ 4 / (1 - u))) in Hs1
    by (unfold X; field; lra).
  assert (C0 : 1 - / 1125899906842624 <= (1 - u) ^ 4 / (1 + u)).
  { apply Rmult_le_reg_r with (1 + u); [lra|].
    unfold Rdiv. rewrite Rmult_assoc, Rinv_l by lra.
    unfold u, unidad_redondeo. lra. }
  assert (C1 : (1 + u) ^ 4 / (1 - u) <= 1 + / 1125899906842624).
  { apply Rmult_le_reg_r with (1 - u); [lra|].
    unfold Rdiv. rewrite Rmult_assoc, Rinv_l by lra.
    unfold u, unidad_redondeo. lra. }
  apply Rabs_le. split; nra.
Qed.

Lemma ancho_central_binario64_cota (lambda a L : R) :
  0 < lambda -> 0 < a -> 0 < L ->
  Rabs (ancho_central_binario64 lambda a L - 2 * lambda * L / a) <=
  2 * lambda * L / a / 1125899906842624.
Proof.
  intros Hl Ha HL. unfold ancho_central_binario64, fmul, fdiv.
  destruct (redondeo_en_intervalo lambda lambda lambda Hl ltac:(lra))
    as [Hl0 Hl1].
  destruct (redondeo_en_intervalo L L L HL ltac:(lra)) as [HL0 HL1].
  destruct (redondeo_en_intervalo a a a Ha ltac:(lra)) as [Ha0 Ha1].
  destruct (producto_en_intervalo 2 _ 2 2 _ _ ltac:(lra) ltac:(lra) Hl0 Hl1)
    as [Hd0 Hd1].
  destruct (redondeo_en_intervalo _ _ _ Hd0 Hd1) as [He0 He1].
  destruct (producto_en_intervalo _ _ _ _ _ _ He0 He1 HL0 HL1) as [Hp0 Hp1].
  destruct (redondeo_en_intervalo _ _ _ Hp0 Hp1) as [Hq0 Hq1].
  destruct (cociente_en_intervalo _ _ _ _ _ _ Hq0 Hq1 Ha0 Ha1) as [Hr0 Hr1].
  destruct (redondeo_en_intervalo _ _ _ Hr0 Hr1) as [_ [Hs0 Hs1]].
  set (v := binario64 _) in *. set (u := unidad_redondeo) in *.
  assert (Hu : 0 < u < 1) by (unfold u, unidad_redondeo; lra).
  set (X := 2 * lambda * L / a).
  assert (HX : 0 < X) by (unfold X; apply Rdiv_lt_0_compat; nra).
  replace (2 * (lambda * (1 - u)) * (1 - u) * (L * (1 - u)) * (1 - u) /
           (a * (1 + u)) * (1 - u))
    with (X * ((1 - u) ^ 5 / (1 + u))) in Hs0
    by (unfold X; field; lra).
  replace (2 * (lambda * (1 + u)) * (1 + u) * (L * (1 + u)) * (1 + u) /
           (a * (1 - u)) * (1 + u))
    with (X * ((1 + u) ^ 5 / (1 - u))) in Hs1
    by (unfold X; field; lra).
  assert (C0 : 1 - / 1125899906842624 <= (1 - u) ^ 5 / (1 + u)).
  { apply Rmult_le_reg_r with (1 + u); [lra|].
    unfold Rdiv. rewrite Rmult_assoc, Rinv_l by lra.
    unfold u, unidad_redondeo. lra. }
  assert (C1 : (1 + u) ^ 5 / (1 - u) <= 1 + / 1125899906842624).
  { apply Rmult_le_reg_r with (1 - u); [lra|].
    unfold Rdiv. rewrite Rmult_assoc, Rinv_l by lra.
    unfold u, unidad_redondeo. lra. }
  apply Rabs_le. split; nra.
Qed.

(** The quotient whose integer part is the number of visible fringes is
    [2 d / a] up to a relative error of [2 ^ -48]. *)
Lemma cociente_binario64_cota (lambda a d L : R) :
  0 < lambda -> 0 < a -> 0 < d -> 0 < L ->
  Rabs (fdiv (ancho_central_binario64 lambda a L)
             (separacion_franjas_binario64 lambda d L) - 2 * d / a) <=
  2 * d / a / 281474976710656.
Proof.
  intros Hl Ha Hd HL.
  pose proof (ancho_central_binario64_cota lambda a L Hl Ha HL) as Hac.
  pose proof (separacion_franjas_binario64_cota lambda d L Hl Hd HL) as Hsf.
  set (ac := ancho_central_binario64 lambda a L) in *.
  set (sf := separacion_franjas_binario64 lambda d L) in *.
  set (Y := 2 * lambda * L / a) in *. set (X := lambda * L / d) in *.
  assert (HY : 0 < Y) by (unfold Y; apply Rdiv_lt_0_compat; nra).
  assert (HX : 0 < X) by (unfold X; apply Rdiv_lt_0_compat; nra).
  apply Rabs_cota in Hac, Hsf.
  set (h := / 1125899906842624) in *.
  assert (Hh : 0 < h < 1) by (unfold h; lra).
  assert (Hac' : Y * (1 - h) <= ac <= Y * (1 + h)) by (unfold h; lra).
  assert (Hsf' : X * (1 - h) <= sf <= X * (1 + h)) by (unfold h; lra).
  assert (HY0 : 0 < Y * (1 - h)) by nra.
  assert (HX0 : 0 < X * (1 - h)) by nra.
  destruct (cociente_en_intervalo _ _ _ _ _ _ HY0 Hac' HX0 Hsf')
    as [Hr0 Hr1].
  unfold fdiv.
  destruct (redondeo_en_intervalo _ _ _ Hr0 Hr1) as [_ [Hs0 Hs1]].
  set (v := binario64 _) in *. set (u := unidad_redondeo) in *.
  assert (Hu : 0 < u < 1) by (unfold u, unidad_redondeo; lra).
  assert (HQ : Y / X = 2 * d / a) by (unfold Y, X; field; lra).
  assert (HQ0 : 0 < Y / X) by now apply Rdiv_lt_0_compat.
  replace (Y * (1 - h) / (X * (1 + h)) * (1 - u))
    with (Y / X * ((1 - h) * (1 - u) / (1 + h))) in Hs0 by (field; lra).
  replace (Y * (1 + h) / (X * (1 - h)) * (1 + u))
    with (Y / X * ((1 + h) * (1 + u) / (1 - h))) in Hs1 by (field; lra).
  assert (C0 : 1 - / 281474976710656 <= (1 - h) * (1 - u) / (1 + h)).
  { apply Rmult_le_reg_r with (1 + h); [lra|].
    unfold Rdiv. rewrite Rmult_assoc, Rinv_l by lra.
    unfold u, unidad_redondeo, h. lra. }
  assert (C1 : (1 + h) * (1 + u) / (1 - h) <= 1 + / 281474976710656).
  { apply Rmult_le_reg_r with (1 - h); [lra|].
    unfold Rdiv. rewrite Rmult_assoc, Rinv_l by lra.
    unfold u, unidad_redondeo, h. lra. }
  rewrite <- HQ. apply Rabs_le. split; nra.
Qed.

(** *** Worked roundings

    One rounding, given the significand [m] and the unit in the last place
    [u = 2 ^ e] of the result. *)
Ltac paso_binario64 m e u :=
  apply (binario64_cercano _ u m e);
  [ simpl; lra
  | rewrite Rabs_right by lra; lra
  | apply Rabs_def1; lra ].

(** The literals of the examples, as floats. *)
Lemma literal_632e_9 :
  binario64 632e-9 = 5969071234347232 * / 9444732965739290427392.
Proof.
  paso_binario64 5969071234347232%Z (-73)%Z
    (/ 9444732965739290427392).
Qed.

Lemma literal_100e_6 :
  binario64 100e-6 = 7378697629483821 * / 73786976294838206464.
Proof.
  paso_binario64 7378697629483821%Z (-66)%Z
    (/ 73786976294838206464).
Qed.

Lemma literal_400e_6 :
  binario64 400e-6 = 7378697629483821 * / 18446744073709551616.
Proof.
  paso_binario64 7378697629483821%Z (-64)%Z
    (/ 18446744073709551616).
Qed.

Lemma literal_1_5 :
  binario64 1.5 = 6755399441055744 * / 4503599627370496.
Proof.
  paso_binario64 6755399441055744%Z (-52)%Z
    (/ 4503599627370496).
Qed.

Lemma literal_50e_6 :
  binario64 50e-6 = 7378697629483821 * / 147573952589676412928.
Proof.
  paso_binario64 7378697629483821%Z (-67)%Z
    (/ 147573952589676412928).
Qed.

Lemma literal_200e_6 :
  binario64 200e-6 = 7378697629483821 * / 36893488147419103232.
Proof.
  paso_binario64 7378697629483821%Z (-65)%Z
    (/ 36893488147419103232).
Qed.

Lemma literal_1_0 :
  binario64 1.0 = 4503599627370496 * / 4503599627370496.
Proof.
  paso_binario64 4503599627370496%Z (-52)%Z
    (/ 4503599627370496).
Qed.

Lemma literal_250e_6 :
  binario64 250e-6 = 4611686018427388 * / 18446744073709551616.
Proof.
  paso_binario64 4611686018427388%Z (-64)%Z
    (/ 18446744073709551616).
Qed.

Lemma literal_500e_9 :
  binario64 500e-9 = 4722366482869645 * / 9444732965739290427392.
Proof.
  paso_binario64 4722366482869645%Z (-73)%Z
    (/ 9444732965739290427392).
Qed.

Lemma literal_300e_6 :
  binario64 300e-6 = 5534023222112865 * / 18446744073709551616.
Proof.
  paso_binario64 5534023222112865%Z (-64)%Z
    (/ 18446744073709551616).
Qed.

Lemma cociente_632_100_400 :
  fdiv (ancho_central_binario64 632e-9 100e-6 1.5)
       (separacion_franjas_binario64 632e-9 400e-6 1.5) =
  4503599627370496 * / 562949953421312.
Proof.
  unfold ancho_central_binario64, separacion_franjas_binario64, fmul, fdiv.
  rewrite literal_632e_9, literal_100e_6, literal_400e_6, literal_1_5.
  assert (H : binario64
            (2 * (5969071234347232 * / 9444732965739290427392))
          = 5969071234347232 * / 4722366482869645213696)
    by paso_binario64 5969071234347232%Z (-72)%Z
         (/ 4722366482869645213696).
  rewrite H. clear H.
  assert (H : binario64
            (5969071234347232 * / 4722366482869645213696 *
             (6755399441055744 * / 4503599627370496))
          = 8953606851520848 * / 4722366482869645213696)
    by paso_binario64 8953606851520848%Z (-72)%Z
         (/ 4722366482869645213696).
  rewrite H. clear H.
  assert (H : binario64
            (8953606851520848 * / 4722366482869645213696 /
             (7378697629483821 * / 73786976294838206464))
          = 5464847931836455 * / 288230376151711744)
    by paso_binario64 5464847931836455%Z (-58)%Z
         (/ 288230376151711744).
  rewrite H. clear H.
  assert (H : binario64
            (5969071234347232 * / 9444732965739290427392 *
             (6755399441055744 * / 4503599627370496))
          = 8953606851520848 * / 9444732965739290427392)
    by paso_binario64 8953606851520848%Z (-73)%Z
         (/ 9444732965739290427392).
  rewrite H. clear H.
  assert (H : binario64
            (8953606851520848 * / 9444732965739290427392 /
             (7378697629483821 * / 18446744073709551616))
          = 5464847931836455 * / 2305843009213693952)
    by paso_binario64 5464847931836455%Z (-61)%Z
         (/ 2305843009213693952).
  rewrite H. clear H.
  paso_binario64 4503599627370496%Z (-49)%Z
    (/ 562949953421312).
Qed.

Example cociente_632_50_200 :
  fdiv (ancho_central_binario64 632e-9 50e-6 1.0)
       (separacion_franjas_binario64 632e-9 200e-6 1.0) =
  4503599627370496 * / 562949953421312.
Proof.
  unfold ancho_central_binario64, separacion_franjas_binario64, fmul, fdiv.
  rewrite literal_632e_9, literal_50e_6, literal_200e_6, literal_1_0.
  assert (H : binario64
            (2 * (5969071234347232 * / 9444732965739290427392))
          = 5969071234347232 * / 4722366482869645213696)
    by paso_binario64 5969071234347232%Z (-72)%Z
         (/ 4722366482869645213696).
  rewrite H. clear H.
  assert (H : binario64
            (5969071234347232 * / 4722366482869645213696 *
             (4503599627370496 * / 4503599627370496))
          = 5969071234347232 * / 4722366482869645213696)
    by paso_binario64 5969071234347232%Z (-72)%Z
         (/ 4722366482869645213696).
  rewrite H. clear H.
  assert (H : binario64
            (5969071234347232 * / 4722366482869645213696 /
             (7378697629483821 * / 147573952589676412928))
          = 7286463909115273 * / 288230376151711744)
    by paso_binario64 7286463909115273%Z (-58)%Z
         (/ 288230376151711744).
  rewrite H. clear H.
  assert (H : binario64
            (5969071234347232 * / 9444732965739290427392 *
             (4503599627370496 * / 4503599627370496))
          = 5969071234347232 * / 9444732965739290427392)
    by paso_binario64 5969071234347232%Z (-73)%Z
         (/ 9444732965739290427392).
  rewrite H. clear H.
  assert (H : binario64
            (5969071234347232 * / 9444732965739290427392 /
             (7378697629483821 * / 36893488147419103232))
          = 7286463909115273 * / 2305843009213693952)
    by paso_binario64 7286463909115273%Z (-61)%Z
         (/ 2305843009213693952).
  rewrite H. clear H.
  paso_binario64 4503599627370496%Z (-49)%Z
    (/ 562949953421312).
Qed.

Lemma cociente_632_50_250 :
  fdiv (ancho_central_binario64 632e-9 50e-6 1.0)
       (separacion_franjas_binario64 632e-9 250e-6 1.0) =
  5629499534213119 * / 562949953421312.
Proof.
  unfold ancho_central_binario64, separacion_franjas_binario64, fmul, fdiv.
  rewrite literal_632e_9, literal_50e_6, literal_250e_6, literal_1_0.
  assert (H : binario64
            (2 * (5969071234347232 * / 9444732965739290427392))
          = 5969071234347232 * / 4722366482869645213696)
    by paso_binario64 5969071234347232%Z (-72)%Z
         (/ 4722366482869645213696).
  rewrite H. clear H.
  assert (H : binario64
            (5969071234347232 * / 4722366482869645213696 *
             (4503599627370496 * / 4503599627370496))
          = 5969071234347232 * / 4722366482869645213696)
    by paso_binario64 5969071234347232%Z (-72)%Z
         (/ 4722366482869645213696).
  rewrite H. clear H.
  assert (H : binario64
            (5969071234347232 * / 4722366482869645213696 /
             (7378697629483821 * / 147573952589676412928))
          = 7286463909115273 * / 288230376151711744)
    by paso_binario64 7286463909115273%Z (-58)%Z
         (/ 288230376151711744).
  rewrite H. clear H.
  assert (H : binario64
            (5969071234347232 * / 9444732965739290427392 *
             (4503599627370496 * / 4503599627370496))
          = 5969071234347232 * / 9444732965739290427392)
    by paso_binario64 5969071234347232%Z (-73)%Z
         (/ 9444732965739290427392).
  rewrite H. clear H.
  assert (H : binario64
            (5969071234347232 * / 9444732965739290427392 /
             (4611686018427388 * / 18446744073709551616))
          = 5829171127292219 * / 2305843009213693952)
    by paso_binario64 5829171127292219%Z (-61)%Z
         (/ 2305843009213693952).
  rewrite H. clear H.
  paso_binario64 5629499534213119%Z (-49)%Z
    (/ 562949953421312).
Qed.

Lemma cociente_500_100_300 :
  fdiv (ancho_central_binario64 500e-9 100e-6 1.0)
       (separacion_franjas_binario64 500e-9 300e-6 1.0) =
  6755399441055743 * / 1125899906842624.
Proof.
  unfold ancho_central_binario64, separacion_franjas_binario64, fmul, fdiv.
  rewrite literal_500e_9, literal_100e_6, literal_300e_6, literal_1_0.
  assert (H : binario64
            (2 * (4722366482869645 * / 9444732965739290427392))
          = 4722366482869645 * / 4722366482869645213696)
    by paso_binario64 4722366482869645%Z (-72)%Z
         (/ 4722366482869645213696).
  rewrite H. clear H.
  assert (H : binario64
            (4722366482869645 * / 4722366482869645213696 *
             (4503599627370496 * / 4503599627370496))
          = 4722366482869645 * / 4722366482869645213696)
    by paso_binario64 4722366482869645%Z (-72)%Z
         (/ 4722366482869645213696).
  rewrite H. clear H.
  assert (H : binario64
            (4722366482869645 * / 4722366482869645213696 /
             (7378697629483821 * / 73786976294838206464))
          = 5764607523034234 * / 576460752303423488)
    by paso_binario64 5764607523034234%Z (-59)%Z
         (/ 576460752303423488).
  rewrite H. clear H.
  assert (H : binario64
            (4722366482869645 * / 9444732965739290427392 *
             (4503599627370496 * / 4503599627370496))
          = 4722366482869645 * / 9444732965739290427392)
    by paso_binario64 4722366482869645%Z (-73)%Z
         (/ 9444732965739290427392).
  rewrite H. clear H.
  assert (H : binario64
            (4722366482869645 * / 9444732965739290427392 /
             (5534023222112865 * / 18446744073709551616))
          = 7686143364045647 * / 4611686018427387904)
    by paso_binario64 7686143364045647%Z (-62)%Z
         (/ 4611686018427387904).
  rewrite H. clear H.
  paso_binario64 6755399441055743%Z (-50)%Z
    (/ 1125899906842624).
Qed.

(** C2. After a successful construction with wavelength [lambda], slit
    width [a], separation [d] and screen distance [L], the angular fringe
    spacing is [lambda / d], the linear fringe spacing [lambda * L / d] and
    the width of the central maximum [2 * lambda * L / a]; the number of
    visible fringes is the floor of the quotient of the last two as the
    machine takes it, on the floats stored for them, which are within a
    relative [2 ^ -50] of the exact values, the quotient being within a
    relative [2 ^ -48] of the exact quotient.  For (632e-9, 100e-6, 400e-6,
    1.5) these are 2.37e-3 m, 1.896e-2 m and 8. *)
Theorem parametros_teoricos_de_construccion :
  (forall lambda a d L ws e,
      Experimento_init lambda a d L = (ws, Ok e) ->
      separacion_angular e = lambda / d /\
      separacion_franjas e = lambda * L / d /\
      ancho_central_difraccion e = 2 * lambda * L / a /\
      num_franjas_visibles e =
        Zfloor (fdiv (ancho_central_binario64 lambda a L)
                     (separacion_franjas_binario64 lambda d L)) /\
      Rabs (separacion_franjas_binario64 lambda d L - separacion_franjas e)
        <= separacion_franjas e / 2 ^ 50 /\
      Rabs (ancho_central_binario64 lambda a L - ancho_central_difraccion e)
        <= ancho_central_difraccion e / 2 ^ 50 /\
      Rabs (fdiv (ancho_central_binario64 lambda a L)
                 (separacion_franjas_binario64 lambda d L) -
            ancho_central_difraccion e / separacion_franjas e)
        <= ancho_central_difraccion e / separacion_franjas e / 2 ^ 48) /\
  (exists ws e,
      Experimento_init 632e-9 100e-6 400e-6 1.5 = (ws, Ok e) /\
      separacion_franjas e = 2.37e-3 /\
      ancho_central_difraccion e = 1.896e-2 /\
      num_franjas_visibles e = 8%Z).
Proof.
  split.
  - intros lambda a d L ws e H.
    apply Experimento_init_inv in H. destruct H as [(Hl & Ha & Hd & HL) ->].
    unfold _calcular_parametros_teoricos, onda_de.
    cbn [separacion_angular separacion_franjas ancho_central_difraccion
         num_franjas_visibles longitud_onda].
    replace (2 ^ 50) with 1125899906842624 by lra.
    replace (2 ^ 48) with 281474976710656 by lra.
    split; [reflexivity|]. split; [reflexivity|]. split; [reflexivity|].
    split; [|split; [|split]].
    + apply py_int_no_negativo, binario64_no_negativo.
      apply Rmult_le_pos; [apply binario64_no_negativo|].
      * apply Rmult_le_pos; [|left; apply Rinv_0_lt_compat].
        -- apply binario64_no_negativo, Rmult_le_pos;
             apply binario64_no_negativo; try lra.
           apply Rmult_le_pos; [lra | apply binario64_no_negativo; lra].
        -- pose proof (binario64_entre a Ha) as Hb. nra.
      * left. apply Rinv_0_lt_compat.
        pose proof (separacion_franjas_binario64_cota lambda d L Hl Hd HL)
          as Hsf. apply Rabs_cota in Hsf.
        assert (0 < lambda * L / d) by (apply Rdiv_lt_0_compat; nra).
        lra.
    + now apply separacion_franjas_binario64_cota.
    + now apply ancho_central_binario64_cota.
    + replace (2 * lambda * L / a / (lambda * L / d)) with (2 * d / a)
        by (field; lra).
      now apply cociente_binario64_cota.
  - do 2 eexists. rewrite Experimento_init_Ok by lra.
    split; [reflexivity|].
    unfold _calcular_parametros_teoricos, onda_de.
    cbn [separacion_franjas ancho_central_difraccion
         num_franjas_visibles longitud_onda].
    split; [lra|]. split; [lra|].
    rewrite cociente_632_100_400. unfold py_int. caso_R.
    apply Zfloor_eq. lra.
Qed.

Lemma parametros_teoricos_de_construccion_testigo :
  exists ws e,
    Experimento_init 632e-9 50e-6 200e-6 1.0 = (ws, Ok e) /\
    separacion_franjas e = 632e-9 * 1.0 / 200e-6 /\
    num_franjas_visibles e =
      Zfloor (fdiv (ancho_central_binario64 632e-9 50e-6 1.0)
                   (separacion_franjas_binario64 632e-9 200e-6 1.0)).
Proof.
  destruct parametros_teoricos_de_construccion as [Hgen _].
  do 2 eexists. split.
  - apply Experimento_init_Ok; lra.
  - destruct (Hgen 632e-9 50e-6 200e-6 1.0 _ _
                (Experimento_init_Ok 632e-9 50e-6 200e-6 1.0
                   ltac:(lra) ltac:(lra) ltac:(lra) ltac:(lra)))
      as (_ & Hsf & _ & Hn & _).
    split; [exact Hsf | exact Hn].
Defined.

(** Where the exact quotient [2 d / a] is an integer, rounding decides the
    count: with slits of 50 um that are 250 um apart the machine's quotient
    falls just below 10, and the attribute is 9; with slits of 100 um that
    are 300 um apart, at 500 nm, it is 5. *)
Example conteo_por_redondeo :
  num_franjas_visibles
    (_calcular_parametros_teoricos (onda_de 632e-9 1.0) 50e-6 250e-6 1.0) =
    9%Z /\
  Zfloor (2 * 250e-6 / 50e-6) = 10%Z /\
  num_franjas_visibles
    (_calcular_parametros_teoricos (onda_de 500e-9 1.0) 100e-6 300e-6 1.0) =
    5%Z /\
  Zfloor (2 * 300e-6 / 100e-6) = 6%Z /\
  num_franjas_visibles experimento_rojo = 8%Z.
Proof.
  unfold experimento_rojo, _calcular_parametros_teoricos, onda_de.
  cbn [num_franjas_visibles longitud_onda].
  rewrite cociente_632_50_250, cociente_500_100_300, cociente_632_50_200.
  unfold py_int.
  repeat split; repeat caso_R; apply Zfloor_eq; lra.
Qed.

(** ** Integer ranges *)

Section Rangos.

Lemma length_arange (lo hi : Z) :
  length (np.arange lo hi) = Z.to_nat (hi - lo).
Proof. unfold np.arange. now rewrite length_map, length_seq. Qed.

Lemma nth_arange (lo hi : Z) (i : nat) (d : Z) :
  (i < Z.to_nat (hi - lo))%nat ->
  nth i (np.arange lo hi) d = (lo + Z.of_nat i)%Z.
Proof.
  intros Hi. unfold np.arange.
  rewrite (nth_indep _ d (lo + Z.of_nat 0)%Z)
    by now rewrite length_map, length_seq.
  rewrite (map_nth (fun j => (lo + Z.of_nat j)%Z)).
  now rewrite seq_nth.
Qed.

Lemma arange_vacio (lo hi : Z) : (hi <= lo)%Z -> np.arange lo hi = [].
Proof.
  intros H. unfold np.arange.
  replace (Z.to_nat (hi - lo)) with 0%nat by lia. reflexivity.
Qed.

Lemma rev_seq_0 (n : nat) :
  rev (seq 0 n) = map (fun i => (n - 1 - i)%nat) (seq 0 n).
Proof.
  induction n as [|n IH]; [reflexivity|].
  rewrite seq_S at 1. rewrite rev_app_distr. simpl rev. simpl app.
  rewrite IH. cbn [seq map]. f_equal; [lia|].
  rewrite <- seq_shift, map_map.
  apply map_ext. intros i. lia.
Qed.

Lemma rev_arange (lo hi : Z) :
  rev (np.arange lo hi) =
  map (fun m => (lo + hi - 1 - m)%Z) (np.arange lo hi).
Proof.
  unfold np.arange. rewrite <- map_rev, rev_seq_0, !map_map.
  apply map_ext_in. intros i Hi. apply in_seq in Hi. lia.
Qed.

Lemma StronglySorted_map {A B} (RA : A -> A -> Prop) (RB : B -> B -> Prop)
      (f : A -> B) (l : list A) :
  (forall x y, RA x y -> RB (f x) (f y)) ->
  StronglySorted RA l -> StronglySorted RB (map f l).
Proof.
  intros Hf Hl. induction Hl as [|x l Hl IH Hx]; simpl; constructor.
  - exact IH.
  - rewrite Forall_forall in *. intros y Hy.
    apply in_map_iff in Hy. destruct Hy as (z & <- & Hz). auto.
Qed.

Lemma StronglySorted_seq (start len : nat) :
  StronglySorted lt (seq start len).
Proof.
  revert start. induction len as [|len IH]; intros start; simpl;
    constructor; [apply IH|].
  rewrite Forall_forall. intros j Hj. apply in_seq in Hj. lia.
Qed.

Lemma StronglySorted_arange (lo hi : Z) :
  StronglySorted Z.lt (np.arange lo hi).
Proof.
  unfold np.arange.
  apply (StronglySorted_map lt); [intros; lia | apply StronglySorted_seq].
Qed.

End Rangos.

(** ** Fringe positions *)

Lemma Experimento_por_defecto_Ok :
  Experimento_por_defecto = ([], Ok experimento_rojo).
Proof.
  unfold Experimento_por_defecto. rewrite Experimento_init_Ok by lra.
  f_equal. unfold avisos_de, Rleb. repeat caso_R. reflexivity.
Qed.

Lemma construido_experimento_rojo : construido experimento_rojo.
Proof.
  exists 632e-9, 50e-6, 200e-6, 1.0, []. exact Experimento_por_defecto_Ok.
Qed.

Lemma construido_franjas_positivas (e : ExperimentoDobleRendija) :
  construido e -> 0 < separacion_franjas e.
Proof.
  intros H. apply construido_positivo in H.
  destruct H as (Hl & _ & Hd & HL & ->).
  apply Rdiv_lt_0_compat; [apply Rmult_lt_0_compat|]; assumption.
Qed.

Lemma nth_map_arange (f : Z -> R) (lo hi : Z) (i : nat) :
  (i < Z.to_nat (hi - lo))%nat ->
  nth i (map f (np.arange lo hi)) 0 = f (lo + Z.of_nat i)%Z.
Proof.
  intros Hi.
  rewrite (nth_indep _ 0 (f 0%Z)) by now rewrite length_map, length_arange.
  rewrite map_nth. now rewrite nth_arange.
Qed.

Lemma ascendente_map_arange (f : Z -> R) (lo hi : Z) :
  (forall m p, (m < p)%Z -> f m < f p) ->
  ascendente (map f (np.arange lo hi)).
Proof.
  intros Hf. apply (StronglySorted_map Z.lt); [exact Hf|].
  apply StronglySorted_arange.
Qed.

Lemma simetrica_map_arange (f : Z -> R) (lo hi : Z) :
  (forall m, - f (lo + hi - 1 - m)%Z = f m) ->
  simetrica (map f (np.arange lo hi)).
Proof.
  intros Hf. unfold simetrica.
  rewrite <- map_rev, rev_arange, !map_map. apply map_ext. exact Hf.
Qed.

(** C3. For a constructed experiment and [n_max >= 1],
    [calcular_posiciones_franjas] returns [2 * n_max + 1] maxima, the i-th
    at [(-n_max + i) * separacion_franjas], and [2 * n_max] minima, the i-th
    at [(-n_max + i + 0.5) * separacion_franjas]; both sequences are in
    ascending order and symmetric about zero. *)
Theorem posiciones_franjas_ordenadas
    (e : ExperimentoDobleRendija) (n_max : Z) :
  construido e -> (1 <= n_max)%Z ->
  exists r,
    calcular_posiciones_franjas e (Some n_max) = ([], Ok r) /\
    length (ResultadosAnalisis.posiciones_maximos r) =
      Z.to_nat (2 * n_max + 1) /\
    (forall i, (i < Z.to_nat (2 * n_max + 1))%nat ->
       nth i (ResultadosAnalisis.posiciones_maximos r) 0 =
       IZR (- n_max + Z.of_nat i) * separacion_franjas e) /\
    length (ResultadosAnalisis.posiciones_minimos r) = Z.to_nat (2 * n_max) /\
    (forall i, (i < Z.to_nat (2 * n_max))%nat ->
       nth i (ResultadosAnalisis.posiciones_minimos r) 0 =
       (IZR (- n_max + Z.of_nat i) + 0.5) * separacion_franjas e) /\
    ascendente (ResultadosAnalisis.posiciones_maximos r) /\
    ascendente (ResultadosAnalisis.posiciones_minimos r) /\
    simetrica (ResultadosAnalisis.posiciones_maximos r) /\
    simetrica (ResultadosAnalisis.posiciones_minimos r).
Proof.
  intros He Hn. pose proof (construido_franjas_positivas e He) as Hsf.
  eexists. split; [reflexivity|]. cbn [por_defecto].
  cbn [ResultadosAnalisis.posiciones_maximos
       ResultadosAnalisis.posiciones_minimos].
  rewrite !map_map, !length_map, !length_arange.
  replace (n_max + 1 - - n_max)%Z with (2 * n_max + 1)%Z by lia.
  replace (n_max - - n_max)%Z with (2 * n_max)%Z by lia.
  split; [reflexivity|]. split.
  { intros i Hi. rewrite nth_map_arange; [reflexivity|].
    replace (n_max + 1 - - n_max)%Z with (2 * n_max + 1)%Z by lia. exact Hi. }
  split; [reflexivity|]. split.
  { intros i Hi. rewrite nth_map_arange; [reflexivity|].
    replace (n_max - - n_max)%Z with (2 * n_max)%Z by lia. exact Hi. }
  split; [|split; [|split]].
  - apply ascendente_map_arange. intros m p Hmp.
    apply IZR_lt in Hmp. nra.
  - apply ascendente_map_arange. intros m p Hmp.
    apply IZR_lt in Hmp. nra.
  - apply simetrica_map_arange. intros m.
    replace (- n_max + (n_max + 1) - 1 - m)%Z with (- m)%Z by lia.
    rewrite opp_IZR. ring.
  - apply simetrica_map_arange. intros m.
    replace (- n_max + n_max - 1 - m)%Z with (- m - 1)%Z by lia.
    rewrite minus_IZR, opp_IZR. lra.
Qed.

Lemma posiciones_franjas_ordenadas_testigo :
  exists r,
    calcular_posiciones_franjas experimento_rojo (Some 5%Z) = ([], Ok r) /\
    length (ResultadosAnalisis.posiciones_maximos r) = 11%nat /\
    length (ResultadosAnalisis.posiciones_minimos r) = 10%nat /\
    simetrica (ResultadosAnalisis.posiciones_maximos r) /\
    simetrica (ResultadosAnalisis.posiciones_minimos r).
Proof.
  destruct (posiciones_franjas_ordenadas experimento_rojo 5
              construido_experimento_rojo ltac:(lia))
    as (r & Hr & Hmax & _ & Hmin & _ & _ & _ & Hsmax & Hsmin).
  exists r. repeat split; assumption.
Defined.

(** Counterexample to C6 as stated: with [n_max = 0], which is below 1, the
    call on the default experiment does not fail; it returns the single
    maximum at zero and no minimum. *)
Lemma posiciones_franjas_orden_cero_no_falla :
  construido experimento_rojo /\ (0 < 1)%Z /\
  ~ falla (calcular_posiciones_franjas experimento_rojo (Some 0%Z)) /\
  exists r,
    calcular_posiciones_franjas experimento_rojo (Some 0%Z) = ([], Ok r) /\
    ResultadosAnalisis.posiciones_maximos r =
      [0 * separacion_franjas experimento_rojo] /\
    ResultadosAnalisis.posiciones_minimos r = [].
Proof.
  split; [exact construido_experimento_rojo|]. split; [lia|]. split.
  - apply no_falla_Ok.
  - eexists. split; [reflexivity|]. split; reflexivity.
Qed.

(** C6, amended. [calcular_posiciones_franjas] uses [n_max = 10] when the
    argument is omitted and never raises: it does not validate [n_max].
    Below 1 it returns normally, with the single maximum at zero and no
    minimum for [n_max = 0], and with no maximum and no minimum for a
    negative [n_max]. *)
Theorem posiciones_franjas_sin_validar (e : ExperimentoDobleRendija) :
  calcular_posiciones_franjas e None =
    calcular_posiciones_franjas e (Some 10%Z) /\
  (forall n_max, ~ falla (calcular_posiciones_franjas e n_max)) /\
  (forall n_max, (n_max < 1)%Z ->
     exists r,
       calcular_posiciones_franjas e (Some n_max) = ([], Ok r) /\
       ResultadosAnalisis.posiciones_maximos r =
         (if (n_max =? 0)%Z then [0] else []) /\
       ResultadosAnalisis.posiciones_minimos r = []).
Proof.
  split; [reflexivity|]. split.
  - intros n_max. apply no_falla_Ok.
  - intros n_max Hn. eexists. split; [reflexivity|].
    cbn [por_defecto ResultadosAnalisis.posiciones_maximos
         ResultadosAnalisis.posiciones_minimos].
    rewrite (arange_vacio (- n_max) n_max) by lia. split; [|reflexivity].
    destruct (Z.eqb_spec n_max 0) as [->|Hne].
    + simpl. f_equal. lra.
    + rewrite arange_vacio by lia. reflexivity.
Qed.

Lemma posiciones_franjas_sin_validar_testigo :
  (0 < 1)%Z /\
  exists r,
    calcular_posiciones_franjas experimento_rojo (Some 0%Z) = ([], Ok r) /\
    ResultadosAnalisis.posiciones_maximos r = [0] /\
    ResultadosAnalisis.posiciones_minimos r = [].
Proof.
  split; [lia|].
  destruct (posiciones_franjas_sin_validar experimento_rojo)
    as (_ & _ & Hbajo).
  exact (Hbajo 0%Z ltac:(lia)).
Defined.

(** ** The intensity fields, position by position *)

Section Campos.

Variable e : ExperimentoDobleRendija.
Hypothesis He : construido e.

Lemma div_finita (x y : R) : y <> 0 -> np.div x y = Some (x / y).
Proof. intros Hy. unfold np.div. caso_R. reflexivity. Qed.

Lemma zip_with_map {A} (f : option R -> option R -> option R)
      (g h : A -> option R) (l : list A) :
  np.zip_with f (map g l) (map h l) = map (fun x => f (g x) (h x)) l.
Proof. induction l as [|x l IH]; simpl; [|rewrite IH]; reflexivity. Qed.

Lemma beta_seguro_no_nulo (beta : R) : beta_seguro beta <> 0.
Proof.
  unfold beta_seguro. caso_R.
  intros H0. rewrite H0, Rabs_R0 in *. lra.
Qed.

Lemma beta_seguro_sustituye (beta : R) :
  Rabs beta < 1e-12 -> beta_seguro beta = 1e-12.
Proof. intros H. unfold beta_seguro. caso_R; reflexivity. Qed.

Lemma beta_seguro_conserva (beta : R) :
  1e-12 <= Rabs beta -> beta_seguro beta = beta.
Proof. intros H. unfold beta_seguro. caso_R; reflexivity. Qed.

Lemma rendija_simple_por_punto (y : list R) :
  rendija_simple e y = map (fun yi => Some (envolvente_en e yi)) y.
Proof.
  destruct (construido_positivo e He) as (Hl & _ & _ & HL & _).
  unfold rendija_simple, np.sqr, np.where_abs_lt, np.div_scalar,
    np.mul_scalar, np.ufunc, np.array.
  rewrite !map_map, zip_with_map, map_map. apply map_ext. intros yi.
  cbn [np.odiv np.lift1]. rewrite div_finita by lra.
  cbn [np.odiv np.lift1]. rewrite div_finita by lra.
  cbn [np.odiv np.lift1]. fold (beta_en e yi).
  fold (beta_seguro (beta_en e yi)).
  rewrite div_finita by apply beta_seguro_no_nulo. reflexivity.
Qed.

Lemma doble_rendija_por_punto (y : list R) :
  doble_rendija e y =
  map (fun yi => Some (envolvente_en e yi * interferencia_en e yi)) y.
Proof.
  destruct (construido_positivo e He) as (Hl & _ & _ & HL & _).
  unfold doble_rendija, np.sqr, np.where_abs_lt, np.div_scalar,
    np.mul_scalar, np.ufunc, np.array.
  rewrite !map_map, zip_with_map, !map_map, zip_with_map.
  apply map_ext. intros yi.
  cbn [np.odiv np.lift1]. rewrite div_finita by lra.
  cbn [np.odiv np.lift1]. rewrite !div_finita by lra.
  cbn [np.odiv np.lift1 np.lift2]. fold (beta_en e yi) (delta_en e yi).
  fold (beta_seguro (beta_en e yi)).
  rewrite div_finita by apply beta_seguro_no_nulo. reflexivity.
Qed.

End Campos.

(** ** Bounds on the two factors *)

Lemma abs_sin_menor (x : R) : x <> 0 -> Rabs (sin x) < Rabs x.
Proof.
  assert (Hpos : forall z, 0 < z -> Rabs (sin z) < z).
  { intros z Hz. apply Rabs_def1; [now apply sin_lt_x|].
    destruct (Rlt_dec z PI) as [Hlt|Hge].
    - pose proof (sin_gt_0 z Hz Hlt). lra.
    - pose proof (SIN_bound z). pose proof PI2_1. lra. }
  intros Hx. destruct (Rlt_dec 0 x) as [Hgt|Hle].
  - rewrite (Rabs_right x) by lra. now apply Hpos.
  - rewrite (Rabs_left x) by lra.
    replace (sin x) with (- sin (- x)) by (rewrite sin_neg; ring).
    rewrite Rabs_Ropp. apply Hpos. lra.
Qed.

Lemma sinc2_cota (b : R) : b <> 0 -> 0 <= (sin b / b) ^ 2 < 1.
Proof.
  intros Hb. pose proof (abs_sin_menor b Hb) as Hlt.
  pose proof (Rabs_pos_lt b Hb) as Hbpos.
  assert (Hq : Rabs (sin b / b) < 1).
  { unfold Rdiv. rewrite Rabs_mult, Rabs_inv.
    apply (Rmult_lt_reg_r (Rabs b)); [assumption|].
    rewrite Rmult_assoc, Rinv_l by lra. lra. }
  apply Rabs_def2 in Hq. split; [apply pow2_ge_0 | nra].
Qed.

Lemma envolvente_en_cota (e : ExperimentoDobleRendija) (y : R) :
  0 <= envolvente_en e y < 1.
Proof. apply sinc2_cota, beta_seguro_no_nulo. Qed.

Lemma interferencia_en_cota (e : ExperimentoDobleRendija) (y : R) :
  0 <= interferencia_en e y <= 1.
Proof.
  unfold interferencia_en. pose proof (COS_bound (delta_en e y)).
  split; [apply pow2_ge_0 | nra].
Qed.

Lemma producto_bajo_envolvente (e : ExperimentoDobleRendija) (y : R) :
  0 <= envolvente_en e y * interferencia_en e y <= envolvente_en e y.
Proof.
  pose proof (envolvente_en_cota e y). pose proof (interferencia_en_cota e y).
  nra.
Qed.

(** C7. For a constructed experiment and every position sequence [y], the
    two fields have one sample per position, and at every position [yi] the
    sample of [doble_rendija] is the sample of [rendija_simple] there, which
    is the diffraction envelope, multiplied by the square of the cosine of
    [delta = PI * separacion * sin (atan (yi / L)) / lambda]; that factor
    lies between 0 and 1, hence the double-slit sample never exceeds the
    single-slit one. *)
Theorem doble_bajo_envolvente (e : ExperimentoDobleRendija) (y : list R) :
  construido e ->
  length (doble_rendija e y) = length y /\
  length (rendija_simple e y) = length y /\
  forall i yi, nth_error y i = Some yi ->
    exists d s,
      nth_error (doble_rendija e y) i = Some (Some d) /\
      nth_error (rendija_simple e y) i = Some (Some s) /\
      s = envolvente_en e yi /\
      d = s * cos (PI * separacion e *
                   sin (atan (yi / distancia_pantalla e)) /
                   longitud_onda (onda e)) ^ 2 /\
      0 <= cos (PI * separacion e *
                sin (atan (yi / distancia_pantalla e)) /
                longitud_onda (onda e)) ^ 2 <= 1 /\
      d <= s.
Proof.
  intros He.
  rewrite doble_rendija_por_punto, rendija_simple_por_punto by assumption.
  rewrite !length_map. repeat split.
  intros i yi Hi.
  exists (envolvente_en e yi * interferencia_en e yi), (envolvente_en e yi).
  rewrite !nth_error_map, Hi. cbn [option_map].
  repeat split; try apply (interferencia_en_cota e yi).
  apply producto_bajo_envolvente.
Qed.

Lemma doble_bajo_envolvente_testigo :
  length (doble_rendija experimento_rojo [-0.001; 0; 0.001]) = 3%nat /\
  exists d s,
    nth_error (doble_rendija experimento_rojo [-0.001; 0; 0.001]) 2 =
      Some (Some d) /\
    nth_error (rendija_simple experimento_rojo [-0.001; 0; 0.001]) 2 =
      Some (Some s) /\
    d = s * cos (PI * separacion experimento_rojo *
                 sin (atan (0.001 / distancia_pantalla experimento_rojo)) /
                 longitud_onda (onda experimento_rojo)) ^ 2 /\
    d <= s.
Proof.
  destruct (doble_bajo_envolvente experimento_rojo [-0.001; 0; 0.001]
              construido_experimento_rojo) as (Hd & _ & H).
  split; [exact Hd|].
  destruct (H 2%nat 0.001 eq_refl) as (d & s & H1 & H2 & _ & H3 & _ & H4).
  exists d, s. repeat split; assumption.
Defined.

(** ** The guard against the singular point *)

Lemma Forall_map_Some {A} (P : option R -> Prop) (f : A -> R) (l : list A) :
  (forall x, P (Some (f x))) -> Forall P (map (fun x => Some (f x)) l).
Proof. intros H. apply Forall_forall. intros v Hv.
  apply in_map_iff in Hv. destruct Hv as (x & <- & _). apply H. Qed.

Lemma beta_en_centro (e : ExperimentoDobleRendija) : beta_en e 0 = 0.
Proof.
  unfold beta_en. unfold Rdiv at 2. rewrite Rmult_0_l, atan_0, sin_0.
  unfold Rdiv. ring.
Qed.

(** C4. For a constructed experiment and every position sequence, the
    envelope is computed on [beta_seguro], which is 1e-12 wherever
    [|beta| < 1e-12] and is never zero; so the division has a non-zero
    divisor at every sample and every element of [rendija_simple] and of
    [doble_rendija] is finite, at the centre of the screen too. *)
Theorem guarda_de_singularidad (e : ExperimentoDobleRendija) (y : list R) :
  construido e ->
  (forall beta, Rabs beta < 1e-12 -> beta_seguro beta = 1e-12) /\
  (forall beta, beta_seguro beta <> 0) /\
  rendija_simple e y =
    map (fun yi => np.lift1 (fun q => q ^ 2)
                     (np.div (sin (beta_seguro (beta_en e yi)))
                             (beta_seguro (beta_en e yi)))) y /\
  Forall finito (rendija_simple e y) /\
  Forall finito (doble_rendija e y) /\
  rendija_simple e [0] = [Some ((sin 1e-12 / 1e-12) ^ 2)] /\
  doble_rendija e [0] = [Some ((sin 1e-12 / 1e-12) ^ 2 * cos 0 ^ 2)].
Proof.
  intros He. split; [exact beta_seguro_sustituye|].
  split; [exact beta_seguro_no_nulo|].
  rewrite !doble_rendija_por_punto, !rendija_simple_por_punto by assumption.
  split; [|split; [|split; [|split]]].
  - apply map_ext. intros yi.
    rewrite div_finita by apply beta_seguro_no_nulo. reflexivity.
  - apply Forall_map_Some. intros yi. now eexists.
  - apply (Forall_map_Some finito
             (fun yi => envolvente_en e yi * interferencia_en e yi)).
    intros yi. now eexists.
  - simpl. unfold envolvente_en. rewrite beta_en_centro.
    rewrite beta_seguro_sustituye by (rewrite Rabs_R0; lra). reflexivity.
  - simpl. unfold envolvente_en, interferencia_en. rewrite beta_en_centro.
    rewrite beta_seguro_sustituye by (rewrite Rabs_R0; lra).
    replace (delta_en e 0) with 0; [reflexivity|].
    unfold delta_en. unfold Rdiv at 2. rewrite Rmult_0_l, atan_0, sin_0.
    unfold Rdiv. ring.
Qed.

Lemma guarda_de_singularidad_testigo :
  Forall finito (rendija_simple experimento_rojo [-0.001; 0; 0.001]) /\
  Forall finito (doble_rendija experimento_rojo [-0.001; 0; 0.001]).
Proof.
  destruct (guarda_de_singularidad experimento_rojo [-0.001; 0; 0.001]
              construido_experimento_rojo)
    as (_ & _ & _ & Hsimple & Hdoble & _).
  split; assumption.
Defined.

(** Without the substitution the sample at the centre would be non-finite:
    there [beta] is zero and the quotient [sin beta / beta] divides by it. *)
Remark centro_sin_guarda (e : ExperimentoDobleRendija) :
  np.div (sin (beta_en e 0)) (beta_en e 0) = None.
Proof.
  rewrite beta_en_centro. unfold np.div.
  destruct (Req_dec_T 0 0) as [_|Hne]; [reflexivity | now elim Hne].
Qed.

(** ** Maximum of an array *)

Section Maximo.

Lemma maximo_cota_inicial (l : list R) (x : R) : x <= np.maximo x l.
Proof.
  unfold np.maximo. revert x.
  induction l as [|z l IH]; intros x; simpl; [lra|].
  apply Rle_trans with (Rmax x z); [apply Rmax_l | apply IH].
Qed.

Lemma maximo_cota (l : list R) (x v : R) :
  In v (x :: l) -> v <= np.maximo x l.
Proof.
  revert x. induction l as [|z l IH]; intros x Hin.
  - destruct Hin as [<-|[]]. apply maximo_cota_inicial.
  - change (np.maximo x (z :: l)) with (np.maximo (Rmax x z) l).
    destruct Hin as [<-|[<-|Hin]].
    + apply Rle_trans with (Rmax x z);
        [apply Rmax_l | apply maximo_cota_inicial].
    + apply Rle_trans with (Rmax x z);
        [apply Rmax_r | apply maximo_cota_inicial].
    + apply IH. now right.
Qed.

Lemma maximo_alcanzado (l : list R) (x : R) : In (np.maximo x l) (x :: l).
Proof.
  revert x. induction l as [|z l IH]; intros x; [now left|].
  change (np.maximo x (z :: l)) with (np.maximo (Rmax x z) l).
  destruct (IH (Rmax x z)) as [H|H]; [|right; now right].
  rewrite <- H. apply Rmax_case; [now left | right; now left].
Qed.

Lemma maximo_unico (l : list R) (x m : R) :
  In m (x :: l) -> (forall v, In v (x :: l) -> v <= m) ->
  np.maximo x l = m.
Proof.
  intros Hin Hcota. apply Rle_antisym.
  - apply Hcota, maximo_alcanzado.
  - now apply maximo_cota.
Qed.

Lemma fold_max_finito (l : list R) (x : R) :
  fold_left (np.lift2 Rmax) (map Some l) (Some x) = Some (np.maximo x l).
Proof.
  unfold np.maximo. revert x.
  induction l as [|z l IH]; intros x; simpl; [reflexivity | apply IH].
Qed.

Lemma max_finito_array (l : list R) (x : R) :
  np.max (np.array (x :: l)) = ([], Ok (Some (np.maximo x l))).
Proof. unfold np.max, np.array, ret. simpl. now rewrite fold_max_finito. Qed.

End Maximo.

(** ** Uniform sampling *)

Section Muestreo.

Variables start stop : R.

Lemma length_linspace (num : nat) :
  length (np.linspace start stop num) = num.
Proof. unfold np.linspace. now rewrite length_map, length_seq. Qed.

Lemma nth_linspace (num i : nat) :
  (i < num)%nat ->
  nth i (np.linspace start stop num) 0 =
  start + INR i * ((stop - start) / (INR num - 1)).
Proof.
  intros Hi. unfold np.linspace.
  set (f := fun j => start + INR j * ((stop - start) / (INR num - 1))).
  rewrite (nth_indep _ 0 (f 0%nat)) by now rewrite length_map, length_seq.
  rewrite (map_nth f). now rewrite seq_nth.
Qed.

Lemma linspace_primero (num : nat) :
  (1 <= num)%nat -> nth 0 (np.linspace start stop num) 0 = start.
Proof. intros H. rewrite nth_linspace by lia. simpl. lra. Qed.

Lemma linspace_ultimo (num : nat) :
  (2 <= num)%nat -> nth (num - 1) (np.linspace start stop num) 0 = stop.
Proof.
  intros H. rewrite nth_linspace by lia.
  rewrite minus_INR by lia. simpl (INR 1).
  assert (INR num - 1 <> 0).
  { apply le_INR in H. simpl in H. lra. }
  field. assumption.
Qed.

Lemma linspace_paso (num i : nat) :
  (S i < num)%nat ->
  nth (S i) (np.linspace start stop num) 0 -
  nth i (np.linspace start stop num) 0 = (stop - start) / (INR num - 1).
Proof.
  intros H. rewrite !nth_linspace by lia. rewrite S_INR. lra.
Qed.

End Muestreo.

(** ** The sampling helper *)

Section Simulacion.

Variable e : ExperimentoDobleRendija.
Hypothesis He : construido e.

Lemma campo_en_cota (doble : bool) (y : R) : 0 <= campo_en e doble y <= 1.
Proof.
  unfold campo_en. pose proof (envolvente_en_cota e y).
  pose proof (producto_bajo_envolvente e y). destruct doble; lra.
Qed.

Lemma crudo_por_punto (doble : bool) (y : list R) :
  (if doble then doble_rendija e y else rendija_simple e y) =
  np.array (map (campo_en e doble) y).
Proof.
  unfold np.array. rewrite map_map. destruct doble.
  - now apply doble_rendija_por_punto.
  - now apply rendija_simple_por_punto.
Qed.

Lemma simular_Raise (ancho : R) (puntos : Z) (doble : bool) :
  ancho <= 0 \/ (puntos < 100)%Z ->
  falla (simular e (Some ancho) (Some puntos) (Some doble)).
Proof.
  intros H. unfold simular. cbn [por_defecto]. desplegar_M.
  destruct (Rle_dec ancho 0); simpl; [eauto with fallos|].
  destruct (Z.ltb_spec puntos 100); simpl; [eauto with fallos|].
  destruct H; [lra | lia].
Qed.

Lemma simular_Ok (ancho : R) (puntos : Z) (doble : bool) :
  0 < ancho -> (100 <= puntos)%Z ->
  exists x l,
    map (campo_en e doble)
        (np.linspace (- ancho / 2) (ancho / 2) (Z.to_nat puntos)) = x :: l /\
    simular e (Some ancho) (Some puntos) (Some doble) =
    ([], Ok (np.linspace (- ancho / 2) (ancho / 2) (Z.to_nat puntos),
             map (fun v => np.odiv v (Some (np.maximo x l)))
                 (np.array (x :: l)))).
Proof.
  intros Ha Hp. unfold simular. cbn [por_defecto].
  rewrite crudo_por_punto.
  destruct (map (campo_en e doble) _) as [|x l] eqn:Hy.
  { apply (f_equal (@length R)) in Hy.
    rewrite length_map, length_linspace in Hy. simpl in Hy. lia. }
  exists x, l. split; [reflexivity|].
  rewrite max_finito_array. desplegar_M.
  destruct (Rle_dec ancho 0); [lra|]. simpl.
  destruct (Z.ltb_spec puntos 100); [lia|]. reflexivity.
Qed.

Lemma normalizar_finito (m : R) (l : list R) :
  m <> 0 ->
  map (fun v => np.odiv v (Some m)) (np.array l) =
  np.array (map (fun v => v / m) l).
Proof.
  intros Hm. unfold np.array. rewrite !map_map. apply map_ext.
  intros v. simpl. now apply div_finita.
Qed.

Lemma normalizado_en_unidad (x : R) (l : list R) :
  (forall v, In v (x :: l) -> 0 <= v) -> np.maximo x l <> 0 ->
  Forall en_unidad
    (map (fun v => np.odiv v (Some (np.maximo x l))) (np.array (x :: l))) /\
  maximo_uno
    (map (fun v => np.odiv v (Some (np.maximo x l))) (np.array (x :: l))).
Proof.
  intros Hpos Hm. set (m := np.maximo x l) in *.
  assert (Hin : In m (x :: l)) by apply maximo_alcanzado.
  assert (Hmpos : 0 < m) by (specialize (Hpos m Hin); lra).
  assert (Hcota : forall v, In v (x :: l) -> 0 <= v / m <= 1).
  { intros v Hv. pose proof (maximo_cota l x v Hv). fold m in H.
    specialize (Hpos v Hv). split.
    - apply Rmult_le_pos; [lra | apply Rlt_le, Rinv_0_lt_compat; lra].
    - apply (Rmult_le_reg_r m); [lra|]. unfold Rdiv.
      rewrite Rmult_assoc, Rinv_l by lra. lra. }
  rewrite normalizar_finito by assumption. split.
  - unfold np.array. rewrite map_map. apply Forall_forall. intros o Ho.
    apply in_map_iff in Ho. destruct Ho as (v & <- & Hv).
    exists (v / m). split; [reflexivity | now apply Hcota].
  - unfold maximo_uno. cbn [map]. rewrite max_finito_array.
    unfold termina. simpl. do 2 f_equal. apply maximo_unico.
    + change (In 1 (map (fun v => v / m) (x :: l))).
      apply in_map_iff. exists m. split; [now field | assumption].
    + intros w Hw. change (In w (map (fun v => v / m) (x :: l))) in Hw.
      apply in_map_iff in Hw. destruct Hw as (v & <- & Hv).
      now apply Hcota.
Qed.

End Simulacion.

(** ** A sample inside the central lobe is not dark *)

Lemma seno_arcotangente_cota (t : R) : 0 <= t -> 0 <= sin (atan t) <= t.
Proof.
  intros Ht. rewrite sin_atan.
  assert (Hq : 1 <= sqrt (1 + t²)).
  { rewrite <- sqrt_1 at 1. apply sqrt_le_1_alt.
    pose proof (Rle_0_sqr t). lra. }
  assert (Hi : 0 < / sqrt (1 + t²) <= 1).
  { split; [apply Rinv_0_lt_compat; lra|].
    rewrite <- Rinv_1 at 2. apply Rinv_le_contravar; lra. }
  unfold Rdiv. split; nra.
Qed.

Lemma fase_cota (c lambda L y r : R) :
  0 < c -> 0 < lambda -> 0 < L -> 0 <= y -> c * y < r * (L * lambda) ->
  0 <= PI * c * sin (atan (y / L)) / lambda < r * PI.
Proof.
  intros Hc Hl HL Hy Hres.
  assert (Ht : 0 <= y / L).
  { apply Rmult_le_pos; [exact Hy | apply Rlt_le, Rinv_0_lt_compat, HL]. }
  destruct (seno_arcotangente_cota _ Ht) as [Hs0 Hs1].
  set (s := sin (atan (y / L))) in *.
  pose proof PI_RGT_0 as Hpi.
  assert (Hcs : c * s < r * lambda).
  { apply Rle_lt_trans with (c * (y / L)); [nra|].
    apply (Rmult_lt_reg_r L); [exact HL|].
    replace (c * (y / L) * L) with (c * y) by (field; lra). lra. }
  assert (Hq : 0 <= c * s / lambda < r).
  { split.
    - apply Rmult_le_pos; [nra | apply Rlt_le, Rinv_0_lt_compat, Hl].
    - apply (Rmult_lt_reg_r lambda); [exact Hl|].
      replace (c * s / lambda * lambda) with (c * s) by (field; lra). lra. }
  replace (PI * c * s / lambda) with (PI * (c * s / lambda))
    by (field; lra).
  split; nra.
Qed.

Lemma campo_positivo (e : ExperimentoDobleRendija) (doble : bool) (y : R) :
  construido e -> 0 <= y ->
  ancho_rendija e * y < distancia_pantalla e * longitud_onda (onda e) ->
  (doble = true ->
   2 * (separacion e * y) <
   distancia_pantalla e * longitud_onda (onda e)) ->
  0 < campo_en e doble y.
Proof.
  intros He Hy Ha Hd.
  destruct (construido_positivo e He) as (Hl & Hap & Hdp & HL & _).
  pose proof PI_RGT_0 as Hpi. pose proof PI2_1 as Hpi2.
  assert (Henv : 0 < envolvente_en e y).
  { unfold envolvente_en.
    destruct (fase_cota (ancho_rendija e) _ _ y 1 Hap Hl HL Hy) as [Hb0 Hb1];
      [lra|]. fold (beta_en e y) in Hb0, Hb1.
    assert (Hbs : 0 < beta_seguro (beta_en e y) < PI).
    { unfold beta_seguro. destruct (Rlt_dec _ _) as [Hlt|Hge]; [lra|].
      rewrite Rabs_right in Hge by lra. lra. }
    pose proof (sin_gt_0 _ (proj1 Hbs) (proj2 Hbs)) as Hsin.
    assert (0 < sin (beta_seguro (beta_en e y)) / beta_seguro (beta_en e y))
      by (apply Rdiv_lt_0_compat; lra).
    nra. }
  unfold campo_en. destruct doble; [|exact Henv].
  apply Rmult_lt_0_compat; [exact Henv|]. unfold interferencia_en.
  destruct (fase_cota (separacion e) _ _ y (1 / 2) Hdp Hl HL Hy) as [Hd0 Hd1];
    [specialize (Hd eq_refl); lra|]. fold (delta_en e y) in Hd0, Hd1.
  assert (0 < cos (delta_en e y)) by (apply cos_gt_0; lra).
  nra.
Qed.

(** The sample of [np.linspace(-ancho/2, ancho/2, puntos)] next to the
    centre: the centre itself for an odd count, half a step to its right
    for an even one. *)
Lemma linspace_muestra_central (ancho : R) (puntos : Z) :
  0 < ancho -> (100 <= puntos)%Z ->
  exists y,
    In y (np.linspace (- ancho / 2) (ancho / 2) (Z.to_nat puntos)) /\
    y = if Z.odd puntos then 0 else ancho / (2 * (IZR puntos - 1)).
Proof.
  intros Ha Hp. set (n := Z.to_nat puntos).
  set (q := Z.div2 puntos).
  pose proof (Z.div2_odd puntos) as Hq. fold q in Hq.
  assert (Hi : (Z.to_nat q < n)%nat).
  { unfold n. destruct (Z.odd puntos); simpl Z.b2z in Hq; lia. }
  exists (nth (Z.to_nat q) (np.linspace (- ancho / 2) (ancho / 2) n) 0).
  split.
  { apply nth_In. now rewrite length_linspace. }
  rewrite nth_linspace by assumption.
  assert (Hn : INR n = IZR puntos).
  { unfold n. rewrite INR_IZR_INZ, Z2Nat.id by lia. reflexivity. }
  assert (Hiq : INR (Z.to_nat q) = IZR q).
  { rewrite INR_IZR_INZ, Z2Nat.id; [reflexivity|].
    destruct (Z.odd puntos); simpl Z.b2z in Hq; lia. }
  rewrite Hn, Hiq.
  assert (HX : 99 <= IZR puntos - 1).
  { apply IZR_le in Hp. lra. }
  apply (f_equal IZR) in Hq. rewrite plus_IZR, mult_IZR in Hq.
  destruct (Z.odd puntos); simpl Z.b2z in Hq.
  - replace (IZR q) with ((IZR puntos - 1) / 2) by lra. field. lra.
  - replace (IZR q) with ((IZR puntos - 1 + 1) / 2) by lra. field. lra.
Qed.

Lemma maximo_crudo_positivo (e : ExperimentoDobleRendija)
      (ancho : R) (puntos : Z) (doble : bool) (x : R) (l : list R) :
  construido e -> 0 < ancho -> (100 <= puntos)%Z ->
  resuelto e ancho puntos doble ->
  map (campo_en e doble)
      (np.linspace (- ancho / 2) (ancho / 2) (Z.to_nat puntos)) = x :: l ->
  0 < np.maximo x l.
Proof.
  intros He Ha Hp Hres Hy.
  destruct (linspace_muestra_central ancho puntos Ha Hp) as (y & Hin & Hval).
  destruct (construido_positivo e He) as (Hl & Hap & Hdp & HL & _).
  assert (HX : 99 <= IZR puntos - 1) by (apply IZR_le in Hp; lra).
  assert (HLl : 0 < distancia_pantalla e * longitud_onda (onda e))
    by (apply Rmult_lt_0_compat; assumption).
  apply Rlt_le_trans with (campo_en e doble y).
  - destruct (Z.odd puntos) eqn:Hodd.
    + subst y. apply campo_positivo; try assumption; intros; lra.
    + destruct Hres as [Himp|[Hra Hrd]]; [congruence|].
      assert (Hy0 : 0 < y).
      { subst y. apply Rdiv_lt_0_compat; lra. }
      assert (Hy2 : y * (2 * (IZR puntos - 1)) = ancho)
        by (subst y; field; lra).
      apply campo_positivo; try assumption; [lra | | intros Hdoble].
      * apply (Rmult_lt_reg_r (2 * (IZR puntos - 1))); [lra|].
        rewrite Rmult_assoc, Hy2. lra.
      * specialize (Hrd Hdoble).
        apply (Rmult_lt_reg_r (IZR puntos - 1)); [lra|].
        replace (2 * (separacion e * y) * (IZR puntos - 1))
          with (separacion e * (y * (2 * (IZR puntos - 1)))) by ring.
        rewrite Hy2. lra.
  - apply maximo_cota. rewrite <- Hy. now apply in_map.
Qed.

(** ** The contracts of the fields and of [simular] *)

(** Counterexample to C1 as stated: on the default experiment the single
    sample of [rendija_simple] at 1 mm from the axis is below 1, so the
    returned sequence is not normalised by its own maximum. *)
Lemma rendija_simple_no_normalizada :
  construido experimento_rojo /\ [0.001] <> [] /\
  ~ maximo_uno (rendija_simple experimento_rojo [0.001]).
Proof.
  split; [exact construido_experimento_rojo|]. split; [discriminate|].
  rewrite rendija_simple_por_punto by exact construido_experimento_rojo.
  unfold maximo_uno, termina. simpl. intros H.
  injection H as H.
  pose proof (envolvente_en_cota experimento_rojo 0.001). lra.
Qed.

(** C1, amended. For a constructed experiment and every position sequence
    [y], [rendija_simple] and [doble_rendija] return a sequence of the
    length of [y] whose values are finite and lie between 0 and 1; the
    sequences are not divided by their maximum, and for a non-empty [y]
    their largest sample is between 0 and 1. *)
Theorem campos_acotados (e : ExperimentoDobleRendija) (y : list R) :
  construido e ->
  length (rendija_simple e y) = length y /\
  Forall en_unidad (rendija_simple e y) /\
  length (doble_rendija e y) = length y /\
  Forall en_unidad (doble_rendija e y) /\
  (y <> [] ->
   exists m m',
     np.max (rendija_simple e y) = ([], Ok (Some m)) /\
     np.max (doble_rendija e y) = ([], Ok (Some m')) /\
     0 <= m <= 1 /\ 0 <= m' <= 1).
Proof.
  intros He.
  pose proof (crudo_por_punto e He false y) as Hs.
  pose proof (crudo_por_punto e He true y) as Hd.
  cbn iota in Hs, Hd. rewrite Hs, Hd. unfold np.array.
  rewrite !length_map. split; [reflexivity|]. split.
  { rewrite map_map. apply Forall_map_Some. intros yi.
    eexists. split; [reflexivity | apply campo_en_cota]. }
  split; [reflexivity|]. split.
  { rewrite map_map. apply Forall_map_Some. intros yi.
    eexists. split; [reflexivity | apply campo_en_cota]. }
  intros Hne. destruct y as [|y0 y]; [contradiction|]. cbn [map].
  exists (np.maximo (campo_en e false y0) (map (campo_en e false) y)),
    (np.maximo (campo_en e true y0) (map (campo_en e true) y)).
  split; [apply max_finito_array|]. split; [apply max_finito_array|].
  split.
  - pose proof (maximo_alcanzado (map (campo_en e false) y)
                  (campo_en e false y0)) as Hin.
    change (In (np.maximo (campo_en e false y0) (map (campo_en e false) y))
               (map (campo_en e false) (y0 :: y))) in Hin.
    apply in_map_iff in Hin. destruct Hin as (yi & <- & _).
    apply campo_en_cota.
  - pose proof (maximo_alcanzado (map (campo_en e true) y)
                  (campo_en e true y0)) as Hin.
    change (In (np.maximo (campo_en e true y0) (map (campo_en e true) y))
               (map (campo_en e true) (y0 :: y))) in Hin.
    apply in_map_iff in Hin. destruct Hin as (yi & <- & _).
    apply campo_en_cota.
Qed.

Lemma campos_acotados_testigo :
  Forall en_unidad (rendija_simple experimento_rojo [0.001]) /\
  Forall en_unidad (doble_rendija experimento_rojo [0.001]).
Proof.
  destruct (campos_acotados experimento_rojo [0.001]
              construido_experimento_rojo)
    as (_ & Hsimple & _ & Hdoble & _).
  split; assumption.
Defined.

Remark simular_por_defecto (e : ExperimentoDobleRendija) :
  simular e None None None =
  simular e (Some 0.01) (Some 2000%Z) (Some true).
Proof. reflexivity. Qed.

(** X22. [simular] raises [ValueError] when [ancho <= 0] or [puntos < 100].
    Otherwise, on a constructed experiment, it returns [puntos] positions
    from [-ancho/2] to [ancho/2] in equal steps, and the intensities of
    [doble_rendija] or [rendija_simple] (as [doble] says) at these
    positions divided by their maximum [m]; when [m] is not zero, which is
    the case as soon as the sampling resolves the central lobe, the
    returned intensities lie between 0 and 1 and their maximum is 1. *)
Theorem simular_contrato (e : ExperimentoDobleRendija)
    (ancho : R) (puntos : Z) (doble : bool) :
  (ancho <= 0 \/ (puntos < 100)%Z ->
   falla (simular e (Some ancho) (Some puntos) (Some doble))) /\
  (construido e -> 0 < ancho -> (100 <= puntos)%Z ->
   exists y intensidad m,
     simular e (Some ancho) (Some puntos) (Some doble) =
       ([], Ok (y, intensidad)) /\
     length y = Z.to_nat puntos /\
     nth 0 y 0 = - ancho / 2 /\
     nth (Z.to_nat puntos - 1) y 0 = ancho / 2 /\
     (forall i, (S i < Z.to_nat puntos)%nat ->
        nth (S i) y 0 - nth i y 0 = ancho / (IZR puntos - 1)) /\
     np.max (intensidad_cruda e doble y) = ([], Ok (Some m)) /\
     intensidad =
       map (fun v => np.odiv v (Some m)) (intensidad_cruda e doble y) /\
     length intensidad = Z.to_nat puntos /\
     (resuelto e ancho puntos doble -> m <> 0) /\
     (m <> 0 -> Forall en_unidad intensidad /\ maximo_uno intensidad)).
Proof.
  split; [apply simular_Raise|]. intros He Ha Hp.
  destruct (simular_Ok e He ancho puntos doble Ha Hp) as (x & l & Hy & Hsim).
  set (y := np.linspace (- ancho / 2) (ancho / 2) (Z.to_nat puntos)) in *.
  assert (Hn : INR (Z.to_nat puntos) = IZR puntos).
  { rewrite INR_IZR_INZ, Z2Nat.id by lia. reflexivity. }
  assert (HX : 99 <= IZR puntos - 1) by (apply IZR_le in Hp; lra).
  exists y, (map (fun v => np.odiv v (Some (np.maximo x l)))
                 (np.array (x :: l))), (np.maximo x l).
  unfold intensidad_cruda. rewrite (crudo_por_punto e He doble y), Hy.
  split; [exact Hsim|].
  split; [apply length_linspace|].
  split; [apply linspace_primero; lia|].
  split; [apply linspace_ultimo; lia|].
  split.
  { intros i Hi. unfold y. rewrite linspace_paso by exact Hi.
    rewrite Hn. field. lra. }
  split; [apply max_finito_array|].
  split; [reflexivity|].
  split.
  { unfold np.array. rewrite !length_map, <- Hy, length_map.
    apply length_linspace. }
  split.
  - intros Hres.
    pose proof (maximo_crudo_positivo e ancho puntos doble x l
                  He Ha Hp Hres Hy). lra.
  - apply normalizado_en_unidad. intros v Hv. rewrite <- Hy in Hv.
    apply in_map_iff in Hv. destruct Hv as (yi & <- & _).
    apply campo_en_cota.
Qed.

Lemma simular_contrato_testigo :
  exists y intensidad,
    simular experimento_rojo (Some 0.01) (Some 2000%Z) (Some true) =
      ([], Ok (y, intensidad)) /\
    length y = 2000%nat /\ length intensidad = 2000%nat /\
    Forall en_unidad intensidad /\ maximo_uno intensidad.
Proof.
  destruct (simular_contrato experimento_rojo 0.01 2000 true) as [_ Hok].
  destruct (Hok construido_experimento_rojo ltac:(lra) ltac:(lia))
    as (y & intensidad & m & Hsim & Hly & _ & _ & _ & _ & _ & Hli
        & Hres & Hnorm).
  assert (Hm : m <> 0).
  { apply Hres. right. simpl. split; [lra | intros _; lra]. }
  destruct (Hnorm Hm) as [Hunidad Hmax].
  exists y, intensidad. repeat split; assumption.
Defined.

(** ** Comparison with a measurement *)

Section Minimo.

Lemma minimo_cota_inicial (l : list R) (x : R) : np.minimo x l <= x.
Proof.
  unfold np.minimo. revert x.
  induction l as [|z l IH]; intros x; simpl; [lra|].
  apply Rle_trans with (Rmin x z); [apply IH | apply Rmin_l].
Qed.

Lemma minimo_cota (l : list R) (x v : R) :
  In v (x :: l) -> np.minimo x l <= v.
Proof.
  revert x. induction l as [|z l IH]; intros x Hin.
  - destruct Hin as [<-|[]]. apply minimo_cota_inicial.
  - change (np.minimo x (z :: l)) with (np.minimo (Rmin x z) l).
    destruct Hin as [<-|[<-|Hin]].
    + apply Rle_trans with (Rmin x z);
        [apply minimo_cota_inicial | apply Rmin_l].
    + apply Rle_trans with (Rmin x z);
        [apply minimo_cota_inicial | apply Rmin_r].
    + apply IH. now right.
Qed.

Lemma minimo_primero (l : list R) (x : R) :
  (forall v, In v l -> x <= v) -> np.minimo x l = x.
Proof.
  unfold np.minimo. revert x.
  induction l as [|z l IH]; intros x Hcota; simpl; [reflexivity|].
  rewrite Rmin_left by (apply Hcota; now left).
  apply IH. intros v Hv. apply Hcota. now right.
Qed.

End Minimo.

Lemma linspace_entre (start stop : R) (num : nat) (v : R) :
  start <= stop -> (2 <= num)%nat ->
  In v (np.linspace start stop num) -> start <= v <= stop.
Proof.
  intros Hle Hnum Hin. unfold np.linspace in Hin.
  apply in_map_iff in Hin. destruct Hin as (i & <- & Hi).
  apply in_seq in Hi.
  assert (Hn : 1 <= INR num - 1).
  { apply le_INR in Hnum. simpl in Hnum. lra. }
  assert (Hi0 : 0 <= INR i) by apply pos_INR.
  assert (Hi1 : INR i <= INR num - 1).
  { assert (H : (i <= num - 1)%nat) by lia.
    apply le_INR in H. rewrite minus_INR in H by lia. simpl in H. lra. }
  assert (Hpaso : 0 <= (stop - start) / (INR num - 1)).
  { apply Rmult_le_pos; [lra | apply Rlt_le, Rinv_0_lt_compat; lra]. }
  assert (Htot : (INR num - 1) * ((stop - start) / (INR num - 1)) =
                 stop - start) by (field; lra).
  split; nra.
Qed.

Lemma extremos_linspace (start stop : R) (num : nat) :
  start <= stop -> (2 <= num)%nat ->
  np.max_finito (np.linspace start stop num) = ([], Ok stop) /\
  np.min_finito (np.linspace start stop num) = ([], Ok start).
Proof.
  intros Hle Hnum.
  pose proof (linspace_primero start stop num ltac:(lia)) as Hini.
  pose proof (linspace_ultimo start stop num Hnum) as Hfin.
  assert (Hlast : In stop (np.linspace start stop num)).
  { rewrite <- Hfin at 1. apply nth_In. rewrite length_linspace. lia. }
  pose proof (linspace_entre start stop num) as Hentre.
  destruct (np.linspace start stop num) as [|x l] eqn:Hy;
    [contradiction|].
  simpl in Hini. subst x. unfold np.max_finito, np.min_finito, ret.
  split; do 2 f_equal.
  - apply maximo_unico; [exact Hlast|].
    intros v Hv. now apply Hentre.
  - apply minimo_primero. intros v Hv.
    apply Hentre; [assumption .. | now right].
Qed.

(** The positions that [simular] returns depend on its arguments only. *)
Lemma simular_posiciones (e : ExperimentoDobleRendija)
      (ancho : R) (puntos : Z) (doble : bool) ws y intensidad :
  simular e (Some ancho) (Some puntos) (Some doble) =
    (ws, Ok (y, intensidad)) ->
  y = np.linspace (- ancho / 2) (ancho / 2) (Z.to_nat puntos).
Proof.
  unfold simular. cbn [por_defecto]. desplegar_M.
  destruct (Rle_dec ancho 0); simpl; [discriminate|].
  destruct (puntos <? 100)%Z; simpl; [discriminate|].
  destruct (np.max _) as [ws' [m|ex]]; simpl; [|discriminate].
  intros H. now injection H as _ <- _.
Qed.

(** ** [np.corrcoef] *)

Lemma zip_with_mismo (f : option R -> option R -> option R)
      (a : np.ndarray) :
  np.zip_with f a a = map (fun v => f v v) a.
Proof. induction a as [|v a IH]; [reflexivity|]. simpl. now rewrite IH. Qed.

Lemma suma_desde_no_finito (a : np.ndarray) :
  fold_left (np.lift2 Rplus) a None = None.
Proof. induction a as [|o a IH]; [reflexivity | exact IH]. Qed.

Lemma suma_productos_propios (a : np.ndarray) (acc s : R) :
  fold_left (np.lift2 Rplus) (map (fun v => np.lift2 Rmult v v) a)
            (Some acc) = Some s ->
  acc <= s /\ (s = acc -> Forall (fun v => v = Some 0) a).
Proof.
  revert acc. induction a as [|o a IH]; intros acc H.
  - simpl in H. injection H as <-. split; [lra | constructor].
  - destruct o as [v|]; cbn in H; [|now rewrite suma_desde_no_finito in H].
    apply IH in H. destruct H as [Hle Hall].
    assert (Hsq : 0 <= v * v) by nra.
    split; [lra|]. intros Hs. assert (Hv : v * v = 0) by lra.
    assert (v = 0) by nra. subst v. constructor; [reflexivity|].
    apply Hall. lra.
Qed.

Lemma dot_propio (a : np.ndarray) (s : R) :
  np.dot a a = Some s ->
  0 <= s /\ (s = 0 -> Forall (fun v => v = Some 0) a).
Proof.
  unfold np.dot. rewrite zip_with_mismo. apply suma_productos_propios.
Qed.

Lemma suma_con_ceros (a b : np.ndarray) (acc : option R) :
  Forall (fun v => v = Some 0) a ->
  (fold_left (np.lift2 Rplus) (np.zip_with (np.lift2 Rmult) a b) acc = None \/
   fold_left (np.lift2 Rplus) (np.zip_with (np.lift2 Rmult) a b) acc = acc) /\
  (fold_left (np.lift2 Rplus) (np.zip_with (np.lift2 Rmult) b a) acc = None \/
   fold_left (np.lift2 Rplus) (np.zip_with (np.lift2 Rmult) b a) acc = acc).
Proof.
  intros Ha. revert b acc. induction Ha as [|v a Hv Ha IH]; intros b acc.
  - destruct b; simpl; auto.
  - subst v. destruct b as [|w b]; [simpl; auto|].
    destruct acc as [s|]; [|simpl; rewrite !suma_desde_no_finito; auto].
    destruct w as [w|]; simpl; [|rewrite !suma_desde_no_finito; auto].
    replace (s + 0 * w) with s by ring. replace (s + w * 0) with s by ring.
    apply IH.
Qed.

Lemma dot_con_ceros (a b : np.ndarray) :
  Forall (fun v => v = Some 0) a ->
  (np.dot a b = None \/ np.dot a b = Some 0) /\
  (np.dot b a = None \/ np.dot b a = Some 0).
Proof. intros Ha. apply (suma_con_ceros a b (Some 0) Ha). Qed.

Lemma dividir_avisos (a b : np.ndarray) :
  np.dividir a b =
  ((if np.alguna np.division_por_cero a b then [DivisionPorCero] else []) ++
   (if np.alguna np.division_invalida a b then [ValorInvalido] else []),
   Ok (np.zip_with np.odiv a b)).
Proof.
  unfold np.dividir, warn_if.
  destruct (np.alguna np.division_por_cero a b),
    (np.alguna np.division_invalida a b); reflexivity.
Qed.

Lemma sin_division_por_cero (c s : option R) :
  (s = Some 0 -> c = None \/ c = Some 0) ->
  np.division_por_cero c s = false.
Proof.
  intros H. destruct c as [u|], s as [v|]; try reflexivity. simpl.
  destruct (Req_dec_T v 0) as [->|]; [|reflexivity].
  destruct (Req_dec_T u 0); [reflexivity|].
  destruct (H eq_refl) as [H0|H0]; congruence.
Qed.

Lemma sin_division_por_cero_despues (c si sj : option R) :
  (sj = Some 0 -> si = Some 0 \/ c = None \/ c = Some 0) ->
  np.division_por_cero (np.odiv c si) sj = false.
Proof.
  intros H. apply sin_division_por_cero. intros Hj.
  destruct c as [u|], si as [v|]; simpl; auto. unfold np.div.
  destruct (Req_dec_T v 0) as [->|Hv]; [now left|]. right.
  destruct (H Hj) as [H0|[H0|H0]]; try congruence.
  injection H0 as ->. f_equal. unfold Rdiv. ring.
Qed.

Lemma desviacion_nula (X : np.ndarray) (k : R) :
  0 < k ->
  np.lift1 sqrt (np.lift2 Rmult (np.dot X X) (Some k)) = Some 0 ->
  Forall (fun v => v = Some 0) X.
Proof.
  intros Hk H. destruct (np.dot X X) as [d|] eqn:Hd; [|discriminate H].
  destruct (dot_propio X d Hd) as [Hpos Hall]. apply Hall.
  simpl in H. injection H as H. apply sqrt_eq_0 in H; nra.
Qed.

Lemma covarianza_nula (a b : np.ndarray) (k : R) :
  Forall (fun v => v = Some 0) a ->
  (np.lift2 Rmult (np.dot a b) (Some k) = None \/
   np.lift2 Rmult (np.dot a b) (Some k) = Some 0) /\
  (np.lift2 Rmult (np.dot b a) (Some k) = None \/
   np.lift2 Rmult (np.dot b a) (Some k) = Some 0).
Proof.
  intros Ha. destruct (dot_con_ceros a b Ha) as [[H1|H1] [H2|H2]];
    rewrite H1, H2; simpl; rewrite ?Rmult_0_l; auto.
Qed.

Lemma corrcoef_distintas (x y : np.ndarray) :
  length x <> length y ->
  np.corrcoef x y = ([], Raise DimensionesDistintas).
Proof.
  intros H. unfold np.corrcoef.
  apply Nat.eqb_neq in H. rewrite H. reflexivity.
Qed.

Lemma un_aviso (b : bool) :
  Forall (fun w => w = ValorInvalido) (if b then [ValorInvalido] else []).
Proof. destruct b; repeat constructor. Qed.

Lemma corrcoef_Ok (x y : np.ndarray) :
  length x = length y -> (2 <= length x)%nat ->
  exists ws r,
    np.corrcoef x y = (ws, Ok r) /\ Forall (fun w => w = ValorInvalido) ws.
Proof.
  intros Hlen Hn. unfold np.corrcoef.
  replace (length x =? length y)%nat with true
    by (symmetry; now apply Nat.eqb_eq).
  replace (length x =? 0)%nat with false
    by (symmetry; apply Nat.eqb_neq; lia).
  replace (length x <=? 1)%nat with false
    by (symmetry; apply Nat.leb_gt; lia).
  cbn [negb raise_if warn_if]. unfold ret. rewrite !bind_Ok.
  cbn [map nth]. rewrite !dividir_avisos.
  assert (Hk : 0 < 1 / (INR (length x) - 1)).
  { apply Rdiv_lt_0_compat; [lra|].
    assert (2 <= INR (length x)) by (apply (le_INR 2); exact Hn). lra. }
  set (k := 1 / (INR (length x) - 1)) in *.
  set (X0 := np.centrar x). set (X1 := np.centrar y).
  set (c00 := np.lift2 Rmult (np.dot X0 X0) (Some k)).
  set (c01 := np.lift2 Rmult (np.dot X0 X1) (Some k)).
  set (c10 := np.lift2 Rmult (np.dot X1 X0) (Some k)).
  set (c11 := np.lift2 Rmult (np.dot X1 X1) (Some k)).
  set (s0 := np.lift1 sqrt c00). set (s1 := np.lift1 sqrt c11).
  assert (H0 : s0 = Some 0 ->
               (c01 = None \/ c01 = Some 0) /\ (c10 = None \/ c10 = Some 0)).
  { intros H. apply (covarianza_nula X0 X1 k).
    now apply (desviacion_nula X0 k Hk). }
  assert (H1 : s1 = Some 0 ->
               (c01 = None \/ c01 = Some 0) /\ (c10 = None \/ c10 = Some 0)).
  { intros H.
    destruct (covarianza_nula X1 X0 k (desviacion_nula X1 k Hk H)).
    now split. }
  assert (H00 : s0 = Some 0 -> c00 = None \/ c00 = Some 0).
  { intros H. apply (covarianza_nula X0 X0 k).
    now apply (desviacion_nula X0 k Hk). }
  assert (H11 : s1 = Some 0 -> c11 = None \/ c11 = Some 0).
  { intros H. apply (covarianza_nula X1 X1 k).
    now apply (desviacion_nula X1 k Hk). }
  unfold bind at 1. rewrite dividir_avisos. unfold bind.
  cbn [np.zip_with nth].
  assert (F1 : np.alguna np.division_por_cero
                 [c00; c01; c10; c11] [s0; s0; s1; s1] = false).
  { cbn [np.alguna combine existsb fst snd].
    rewrite !sin_division_por_cero; [reflexivity | tauto ..]. }
  assert (F2 : np.alguna np.division_por_cero
                 [np.odiv c00 s0; np.odiv c01 s0; np.odiv c10 s1;
                  np.odiv c11 s1] [s0; s1; s0; s1] = false).
  { cbn [np.alguna combine existsb fst snd].
    rewrite !sin_division_por_cero_despues; [reflexivity | tauto ..]. }
  rewrite F1, F2. cbn [app].
  eexists _, _. split; [reflexivity|].
  rewrite app_nil_r. apply Forall_app. split; apply un_aviso.
Qed.

Lemma suma_finita (l : list R) (acc : R) :
  fold_left (np.lift2 Rplus) (np.array l) (Some acc) =
  Some (fold_left Rplus l acc).
Proof.
  revert acc. induction l as [|v l IH]; intros acc; [reflexivity|].
  simpl. apply IH.
Qed.

Lemma centrar_finito (l : list R) :
  l <> [] ->
  exists m, np.centrar (np.array l) = np.array (map (fun v => v - m) l).
Proof.
  intros Hl. unfold np.centrar, np.mean. rewrite suma_finita.
  cbn [np.odiv]. unfold np.div.
  destruct (Req_dec_T (INR (length (np.array l))) 0) as [H0|_].
  - unfold np.array in H0. rewrite length_map in H0.
    destruct l as [|v l]; [contradiction|].
    pose proof (pos_INR (length l)).
    change (length (v :: l)) with (S (length l)) in H0.
    rewrite S_INR in H0. lra.
  - eexists. unfold np.array. rewrite !map_map. reflexivity.
Qed.

Lemma dot_finito (a b : list R) :
  exists s, np.dot (np.array a) (np.array b) = Some s.
Proof.
  unfold np.dot. generalize 0 as acc. revert b.
  induction a as [|u a IH]; intros b acc; [simpl; eauto|].
  destruct b as [|v b]; [simpl; eauto|]. simpl. apply IH.
Qed.

Lemma clip_uno : np.clip 1 = 1.
Proof.
  unfold np.clip. rewrite Rmax_left by lra. now rewrite Rmin_left by lra.
Qed.

(** The correlation of a finite array with itself is 1, unless the array
    is constant: then the deviation is 0, NumPy warns once and the result
    is not finite. *)
Lemma corrcoef_propia (l : list R) :
  (2 <= length l)%nat ->
  np.corrcoef (np.array l) (np.array l) = ([], Ok (Some 1)) \/
  np.corrcoef (np.array l) (np.array l) = ([ValorInvalido], Ok None).
Proof.
  intros Hn.
  assert (Hl : length (np.array l) = length l)
    by (unfold np.array; apply length_map).
  unfold np.corrcoef. rewrite Nat.eqb_refl, Hl.
  replace (length l =? 0)%nat with false
    by (symmetry; apply Nat.eqb_neq; lia).
  replace (length l <=? 1)%nat with false
    by (symmetry; apply Nat.leb_gt; lia).
  cbn [negb raise_if warn_if]. unfold ret. rewrite !bind_Ok.
  cbn [map nth]. rewrite !dividir_avisos.
  unfold bind at 1. rewrite dividir_avisos. unfold bind.
  cbn [np.zip_with nth].
  assert (Hk : 0 < 1 / (INR (length l) - 1)).
  { apply Rdiv_lt_0_compat; [lra|].
    assert (2 <= INR (length l)) by (apply (le_INR 2); exact Hn). lra. }
  set (k := 1 / (INR (length l) - 1)) in *.
  destruct (centrar_finito l) as [m ->];
    [destruct l; [simpl in Hn; lia | discriminate]|].
  destruct (dot_finito (map (fun v => v - m) l) (map (fun v => v - m) l))
    as [s Hs].
  destruct (dot_propio _ _ Hs) as [Hpos _]. rewrite Hs.
  cbn [np.lift2 np.lift1 np.alguna combine existsb fst snd].
  assert (Hv : 0 <= s * k) by nra.
  destruct (Req_dec_T (s * k) 0) as [H0|H0].
  - right. rewrite H0, sqrt_0. simpl. unfold np.div.
    destruct (Req_dec_T 0 0) as [_|H]; [|contradiction].
    rewrite dividir_avisos. reflexivity.
  - left. assert (Hr : 0 < sqrt (s * k)) by (apply sqrt_lt_R0; lra).
    simpl. unfold np.div.
    destruct (Req_dec_T (sqrt (s * k)) 0) as [H|_]; [lra|].
    simpl. unfold np.div.
    destruct (Req_dec_T (sqrt (s * k)) 0) as [H|_]; [lra|].
    simpl. do 3 f_equal.
    replace (s * k / sqrt (s * k) / sqrt (s * k)) with 1.
    + apply clip_uno.
    + rewrite <- (sqrt_sqrt (s * k)) at 1 by lra. field. lra.
Qed.

(** ** [comparar_experimento_teoria] *)

Lemma comparar_posiciones (y intensidad : list R)
      (e : ExperimentoDobleRendija) ws c :
  comparar_experimento_teoria y intensidad e = (ws, Ok c) ->
  exists y_max y_min,
    np.max_finito y = ([], Ok y_max) /\
    np.min_finito y = ([], Ok y_min) /\
    y_teoria c =
      np.linspace (- (y_max - y_min) / 2) ((y_max - y_min) / 2) (length y).
Proof.
  intros H. destruct y as [|x l]; [discriminate H|].
  remember (x :: l) as y eqn:Ey.
  assert (Hmax : np.max_finito y = ([], Ok (np.maximo x l)))
    by (subst y; reflexivity).
  assert (Hmin : np.min_finito y = ([], Ok (np.minimo x l)))
    by (subst y; reflexivity).
  exists (np.maximo x l), (np.minimo x l).
  split; [exact Hmax|]. split; [exact Hmin|].
  unfold comparar_experimento_teoria in H. rewrite Hmax, Hmin in H.
  unfold bind at 1 2 3 in H. cbn [app] in H.
  destruct (simular _ _ _ _) as [ws1 [[yt it]|ex]] eqn:Hsim;
    [|discriminate H].
  apply simular_posiciones in Hsim. rewrite Nat2Z.id in Hsim.
  revert H. desplegar_M.
  destruct (np.broadcast _ _ _) as [ws2 [dif|ex]]; simpl; [|discriminate].
  destruct (np.corrcoef _ _) as [ws3 [r|ex]]; simpl; [|discriminate].
  intros H. injection H as _ <-. exact Hsim.
Qed.

Lemma comparar_Ok (y intensidad : list R) (e : ExperimentoDobleRendija)
      (y_max y_min : R) :
  construido e -> (100 <= length y)%nat -> length intensidad = length y ->
  np.max_finito y = ([], Ok y_max) -> np.min_finito y = ([], Ok y_min) ->
  y_min < y_max ->
  exists ws c,
    comparar_experimento_teoria y intensidad e = (ws, Ok c) /\
    Forall (fun w => w = ValorInvalido) ws.
Proof.
  intros He Hlen HI Hmax Hmin Hlt. unfold comparar_experimento_teoria.
  rewrite Hmax, Hmin, !bind_Ok.
  destruct (simular_Ok e He (y_max - y_min) (Z.of_nat (length y)) true)
    as (x & l & Hy & Hsim); [lra | lia |].
  rewrite Hsim, bind_Ok. cbv beta iota.
  set (it := map (fun v => np.odiv v (Some (np.maximo x l)))
                 (np.array (x :: l))).
  assert (Hit : length (np.array intensidad) = length it).
  { unfold it, np.array.
    rewrite !length_map, <- Hy, length_map, length_linspace, Nat2Z.id.
    exact HI. }
  assert (Hbc : forall f,
             np.broadcast f (np.array intensidad) it =
             ([], Ok (np.zip_with f (np.array intensidad) it))).
  { intros f. unfold np.broadcast.
    replace (Nat.eqb _ _) with true; [reflexivity|].
    symmetry. now apply Nat.eqb_eq. }
  rewrite !Hbc, bind_Ok.
  destruct (corrcoef_Ok (np.array intensidad) it Hit) as (ws & r & Hr & Hws).
  { unfold np.array. rewrite length_map. lia. }
  rewrite Hr. unfold bind, ret. cbn [app].
  eexists _, _. split; [reflexivity|]. now rewrite app_nil_r.
Qed.

(** C9, failing input. For a measurement taken at 100 positions from 0 to
    1 cm, [comparar_experimento_teoria] returns normally (the only warnings
    it can emit are NumPy's "invalid value" of [np.corrcoef], the measured
    intensity being flat), but the theory is evaluated at the positions
    [np.linspace(-0.005, 0.005, 100)], which start at -5 mm, and not at the
    measured positions, which start at 0. *)
Theorem comparar_no_reutiliza_posiciones :
  exists ws c,
    comparar_experimento_teoria y_medido intensidad_medida experimento_rojo =
      (ws, Ok c) /\
    Forall (fun w => w = ValorInvalido) ws /\
    y_teoria c = np.linspace (-0.005) 0.005 100 /\
    nth 0 (y_teoria c) 0 = -0.005 /\
    nth 0 y_medido 0 = 0 /\
    y_teoria c <> y_medido.
Proof.
  destruct (extremos_linspace 0 0.01 100 ltac:(lra) ltac:(lia))
    as [Hmax Hmin]. fold y_medido in Hmax, Hmin.
  assert (Hlen : length y_medido = 100%nat) by apply length_linspace.
  assert (HI : length intensidad_medida = length y_medido).
  { rewrite Hlen. apply repeat_length. }
  destruct (comparar_Ok y_medido intensidad_medida experimento_rojo
              0.01 0 construido_experimento_rojo ltac:(lia) HI Hmax Hmin
              ltac:(lra))
    as (ws & c & Hc & Hws).
  exists ws, c. split; [exact Hc|]. split; [exact Hws|].
  destruct (comparar_posiciones _ _ _ _ _ Hc) as (mx & mn & Hmx & Hmn & Hyt).
  rewrite Hmax in Hmx. rewrite Hmin in Hmn.
  injection Hmx as <-. injection Hmn as <-. rewrite Hlen in Hyt.
  replace (- (0.01 - 0) / 2) with (-0.005) in Hyt by lra.
  replace ((0.01 - 0) / 2) with 0.005 in Hyt by lra.
  assert (H0t : nth 0 (y_teoria c) 0 = -0.005).
  { rewrite Hyt. apply linspace_primero. lia. }
  assert (H0m : nth 0 y_medido 0 = 0).
  { apply linspace_primero. lia. }
  repeat split; try assumption.
  intros Heq. rewrite Heq, H0m in H0t. lra.
Qed.

(** ** Worked examples *)

Example arange_maximos : np.arange (-2) 3 = [-2; -1; 0; 1; 2]%Z.
Proof. reflexivity. Qed.

Example arange_minimos : np.arange (-2) 2 = [-2; -1; 0; 1]%Z.
Proof. reflexivity. Qed.

Example linspace_cinco : np.linspace (-1) 1 5 = [-1; -0.5; 0; 0.5; 1].
Proof. unfold np.linspace. simpl. repeat (f_equal; try lra). Qed.

Example py_int_trunca : py_int 7.9 = 7%Z /\ py_int (-7.9) = (-7)%Z.
Proof.
  unfold py_int. split; caso_R.
  - apply Zfloor_eq. simpl. lra.
  - apply Zceil_eq. simpl. lra.
Qed.

Example Onda_roja :
  Onda_init 632e-9 None = ([], Ok (onda_de 632e-9 1.0)).
Proof.
  unfold Onda_init. desplegar_M. repeat (caso_R; simpl). reflexivity.
Qed.

Example Onda_ultravioleta :
  Onda_init 50e-9 None =
  ([FueraRangoVisible (50e-9 * 1e9)], Ok (onda_de 50e-9 1.0)).
Proof.
  unfold Onda_init. desplegar_M. repeat (caso_R; simpl). reflexivity.
Qed.

Example Onda_negativa :
  Onda_init (-1) (Some 1.0) = ([], Raise (OndaNoPositiva (-1))).
Proof.
  unfold Onda_init. desplegar_M. repeat (caso_R; simpl). reflexivity.
Qed.

Example franjas_de_orden_uno (e : ExperimentoDobleRendija) :
  exists r,
    calcular_posiciones_franjas e (Some 1%Z) = ([], Ok r) /\
    ResultadosAnalisis.posiciones_maximos r =
      [-1 * separacion_franjas e; 0 * separacion_franjas e;
       1 * separacion_franjas e] /\
    ResultadosAnalisis.posiciones_minimos r =
      [(-1 + 0.5) * separacion_franjas e; (0 + 0.5) * separacion_franjas e].
Proof. eexists. repeat split. Qed.

Example simular_pocos_puntos (e : ExperimentoDobleRendija) :
  simular e (Some 0.01) (Some 99%Z) None = ([], Raise PocosPuntos).
Proof.
  unfold simular. cbn [por_defecto]. unfold raise_if, Rleb. caso_R.
  reflexivity.
Qed.

Example simular_ancho_nulo (e : ExperimentoDobleRendija) :
  simular e (Some 0) None None = ([], Raise AnchoPantallaNoPositivo).
Proof.
  unfold simular. cbn [por_defecto]. unfold raise_if, Rleb. caso_R.
  reflexivity.
Qed.

(** * Further properties of the module *)

(** ** Waves *)

(** X1. [Onda] raises exactly when the wavelength is not positive, with
    the received value in the exception and no warning before it; when it
    succeeds it is silent exactly for wavelengths from 100 nm to 1000 nm,
    and otherwise emits the single range warning with the wavelength in
    nanometres. *)
Theorem Onda_init_caracterizacion (lambda : R) (amp : option R) :
  (lambda <= 0 ->
   Onda_init lambda amp = ([], Raise (OndaNoPositiva lambda))) /\
  (falla (Onda_init lambda amp) <-> lambda <= 0) /\
  (0 < lambda ->
   (emitidos (Onda_init lambda amp) = [] <->
    100e-9 <= lambda <= 1000e-9)) /\
  (0 < lambda -> ~ (100e-9 <= lambda <= 1000e-9) ->
   emitidos (Onda_init lambda amp) = [FueraRangoVisible (lambda * 1e9)]).
Proof.
  assert (Hmal : lambda <= 0 ->
            Onda_init lambda amp = ([], Raise (OndaNoPositiva lambda))).
  { intros Hle. unfold Onda_init. desplegar_M. caso_R. reflexivity. }
  split; [exact Hmal|]. split.
  { split.
    - intros Hf. destruct (Rle_dec lambda 0) as [Hle|Hgt]; [exact Hle|].
      exfalso. destruct Hf as [ex Hex].
      rewrite Onda_init_positiva in Hex by lra. discriminate Hex.
    - intros Hle. rewrite (Hmal Hle). apply falla_Raise. }
  split.
  - intros Hpos. rewrite Onda_init_avisos by assumption. unfold Rleb.
    split.
    + intros H.
      destruct (Rle_dec 100e-9 lambda); destruct (Rle_dec lambda 1000e-9);
        simpl in H; try discriminate H; lra.
    + intros [H1 H2]. repeat caso_R. reflexivity.
  - intros Hpos Hfuera. rewrite Onda_init_avisos by assumption.
    unfold Rleb. repeat caso_R; simpl; try reflexivity.
Qed.

Lemma Onda_init_caracterizacion_testigo :
  emitidos (Onda_init 800e-9 None) = [] /\
  emitidos (Onda_init 50e-9 None) = [FueraRangoVisible (50e-9 * 1e9)].
Proof.
  split.
  - apply (proj1 (proj2 (proj2 (Onda_init_caracterizacion 800e-9 None)))
             ltac:(lra)). lra.
  - apply (proj2 (proj2 (proj2 (Onda_init_caracterizacion 50e-9 None))));
      lra.
Defined.

(** X2. For a constructed wave the wave number times the wavelength is
    2 PI and the frequency times the wavelength is 3e8; the phase is
    additive in the distance, it is 2 PI after one wavelength, and it
    advances by [n] turns after [n] wavelengths. *)
Theorem Onda_relaciones (lambda : R) (amp : option R) :
  0 < lambda ->
  exists o,
    termina (Onda_init lambda amp) = Ok o /\
    k o * longitud_onda o = 2 * PI /\
    frecuencia o * longitud_onda o = 3e8 /\
    fase o (longitud_onda o) = 2 * PI /\
    (forall d1 d2, fase o (d1 + d2) = fase o d1 + fase o d2) /\
    (forall (n : Z) d,
        fase o (d + IZR n * longitud_onda o) = fase o d + IZR n * (2 * PI)).
Proof.
  intros Hpos. eexists. split; [now apply Onda_init_positiva|].
  unfold fase. simpl.
  assert (Hk : 2 * PI / lambda * lambda = 2 * PI) by (field; lra).
  repeat split.
  - exact Hk.
  - field; lra.
  - exact Hk.
  - intros d1 d2. ring.
  - intros n d. rewrite Rmult_plus_distr_l.
    replace (2 * PI / lambda * (IZR n * lambda))
      with (IZR n * (2 * PI / lambda * lambda)) by ring.
    now rewrite Hk.
Qed.

Lemma Onda_relaciones_testigo :
  exists o,
    termina (Onda_init 632e-9 None) = Ok o /\
    fase o (longitud_onda o) = 2 * PI.
Proof.
  destruct (Onda_relaciones 632e-9 None ltac:(lra))
    as (o & Ho & _ & _ & Hfase & _).
  exists o. split; assumption.
Defined.

(** ** Construction of the experiment *)

(** X3. A failing construction emits no warning, reports the first
    non-positive argument in the order wavelength, slit width, separation,
    screen distance, and never surfaces the [ValueError] of [Onda]: the
    wavelength is already checked when the wave is built. *)
Theorem Experimento_init_prioridad (lambda a d L : R) :
  (falla (Experimento_init lambda a d L) ->
   emitidos (Experimento_init lambda a d L) = []) /\
  (lambda <= 0 ->
   termina (Experimento_init lambda a d L) = Raise LongitudOndaNoPositiva) /\
  (0 < lambda -> a <= 0 ->
   termina (Experimento_init lambda a d L) = Raise AnchoRendijaNoPositivo) /\
  (0 < lambda -> 0 < a -> d <= 0 ->
   termina (Experimento_init lambda a d L) = Raise SeparacionNoPositiva) /\
  (0 < lambda -> 0 < a -> 0 < d -> L <= 0 ->
   termina (Experimento_init lambda a d L) = Raise DistanciaNoPositiva) /\
  (forall recibido,
      termina (Experimento_init lambda a d L) <>
      Raise (OndaNoPositiva recibido)).
Proof.
  destruct (Rle_dec lambda 0) as [Hl|Hl];
    [|destruct (Rle_dec a 0) as [Ha|Ha];
      [|destruct (Rle_dec d 0) as [Hd|Hd];
        [|destruct (Rle_dec L 0) as [HL|HL]]]].
  5: { rewrite Experimento_init_Ok by lra. unfold falla, termina. simpl.
       repeat split; try (intros; lra); try discriminate.
       intros [ex Hex]. discriminate Hex. }
  all: unfold Experimento_init; desplegar_M; repeat (caso_R; simpl).
  all: repeat split; try reflexivity; try (intros; lra); discriminate.
Qed.

Lemma Experimento_init_prioridad_testigo :
  termina (Experimento_init 632e-9 (-1) (-1) 0) =
  Raise AnchoRendijaNoPositivo.
Proof.
  apply (proj1 (proj2 (proj2
           (Experimento_init_prioridad 632e-9 (-1) (-1) 0)))); lra.
Defined.

(** X4. A successful construction is silent exactly when the separation
    exceeds the slit width and the wavelength lies between 100 nm and
    1000 nm; when both checks fire, the overlap warning comes before the
    range warning. *)
Theorem Experimento_init_silencioso (lambda a d L : R) :
  0 < lambda -> 0 < a -> 0 < d -> 0 < L ->
  (emitidos (Experimento_init lambda a d L) = [] <->
   a < d /\ 100e-9 <= lambda <= 1000e-9) /\
  (d <= a -> ~ (100e-9 <= lambda <= 1000e-9) ->
   emitidos (Experimento_init lambda a d L) =
   [Solapamiento; FueraRangoVisible (lambda * 1e9)]).
Proof.
  intros Hl Ha Hd HL. rewrite Experimento_init_Ok by assumption.
  unfold emitidos, avisos_de, Rleb. simpl. split.
  - split.
    + intros H.
      destruct (Rle_dec d a); destruct (Rle_dec 100e-9 lambda);
        destruct (Rle_dec lambda 1000e-9); simpl in H;
        try discriminate H; lra.
    + intros [H1 H2]. repeat caso_R. reflexivity.
  - intros Hda Hfuera. repeat caso_R; simpl; reflexivity.
Qed.

Lemma Experimento_init_silencioso_testigo :
  emitidos (Experimento_init 50e-9 200e-6 100e-6 1.0) =
  [Solapamiento; FueraRangoVisible (50e-9 * 1e9)].
Proof.
  apply (proj2 (Experimento_init_silencioso 50e-9 200e-6 100e-6 1.0
                  ltac:(lra) ltac:(lra) ltac:(lra) ltac:(lra))); lra.
Defined.

(** ** Symmetry of the intensity fields *)

Lemma beta_en_impar (e : ExperimentoDobleRendija) (y : R) :
  beta_en e (- y) = - beta_en e y.
Proof.
  unfold beta_en.
  replace (- y / distancia_pantalla e) with (- (y / distancia_pantalla e))
    by (unfold Rdiv; ring).
  rewrite atan_opp, sin_neg. unfold Rdiv. ring.
Qed.

Lemma delta_en_impar (e : ExperimentoDobleRendija) (y : R) :
  delta_en e (- y) = - delta_en e y.
Proof.
  unfold delta_en.
  replace (- y / distancia_pantalla e) with (- (y / distancia_pantalla e))
    by (unfold Rdiv; ring).
  rewrite atan_opp, sin_neg. unfold Rdiv. ring.
Qed.

Lemma envolvente_en_par (e : ExperimentoDobleRendija) (y : R) :
  envolvente_en e (- y) = envolvente_en e y.
Proof.
  unfold envolvente_en. rewrite beta_en_impar.
  set (b := beta_en e y). unfold beta_seguro. rewrite Rabs_Ropp.
  destruct (Rlt_dec (Rabs b) 1e-12) as [Hlt|Hge]; [reflexivity|].
  assert (Hb : b <> 0).
  { intros H0. rewrite H0, Rabs_R0 in Hge. lra. }
  rewrite sin_neg. f_equal. field. exact Hb.
Qed.

Lemma interferencia_en_par (e : ExperimentoDobleRendija) (y : R) :
  interferencia_en e (- y) = interferencia_en e y.
Proof. unfold interferencia_en. now rewrite delta_en_impar, cos_neg. Qed.

Lemma campo_en_par (e : ExperimentoDobleRendija) (doble : bool) (y : R) :
  campo_en e doble (- y) = campo_en e doble y.
Proof.
  unfold campo_en.
  destruct doble; now rewrite envolvente_en_par, ?interferencia_en_par.
Qed.

(** X5. Both intensity fields are even: on a constructed experiment the
    intensities at the mirrored positions [-y] are the intensities at
    [y], sample by sample. *)
Theorem campos_pares (e : ExperimentoDobleRendija) (y : list R) :
  construido e ->
  rendija_simple e (map Ropp y) = rendija_simple e y /\
  doble_rendija e (map Ropp y) = doble_rendija e y.
Proof.
  intros He.
  rewrite !rendija_simple_por_punto, !doble_rendija_por_punto by assumption.
  rewrite !map_map. split; apply map_ext; intros yi.
  - now rewrite envolvente_en_par.
  - now rewrite envolvente_en_par, interferencia_en_par.
Qed.

Lemma campos_pares_testigo :
  rendija_simple experimento_rojo (map Ropp [0.001; 0.002]) =
  rendija_simple experimento_rojo [0.001; 0.002].
Proof.
  apply (proj1 (campos_pares experimento_rojo [0.001; 0.002]
                  construido_experimento_rojo)).
Defined.

(** ** More on the sampling helper *)

Lemma length_campos (e : ExperimentoDobleRendija) (doble : bool)
      (y : list R) :
  length (intensidad_cruda e doble y) = length y.
Proof.
  unfold intensidad_cruda, doble_rendija, rendija_simple, np.sqr,
    np.where_abs_lt, np.div_scalar, np.mul_scalar, np.ufunc, np.array.
  destruct doble.
  - rewrite !map_map, zip_with_map, !map_map, zip_with_map.
    now rewrite length_map.
  - rewrite !map_map, zip_with_map, !map_map. now rewrite length_map.
Qed.

Lemma simular_cuerpo (e : ExperimentoDobleRendija)
      (ancho : R) (puntos : Z) (doble : bool) :
  simular e (Some ancho) (Some puntos) (Some doble) =
  (raise_if (Rleb ancho 0) AnchoPantallaNoPositivo ;;;
   raise_if (puntos <? 100)%Z PocosPuntos ;;;
   maximo <- np.max (intensidad_cruda e doble
                       (np.linspace (- ancho / 2) (ancho / 2)
                                    (Z.to_nat puntos))) ;;
   ret (np.linspace (- ancho / 2) (ancho / 2) (Z.to_nat puntos),
        map (fun v => np.odiv v maximo)
            (intensidad_cruda e doble
               (np.linspace (- ancho / 2) (ancho / 2) (Z.to_nat puntos))))).
Proof. reflexivity. Qed.

Lemma max_no_vacio (a : np.ndarray) :
  a <> [] -> exists m, np.max a = ([], Ok m).
Proof. destruct a as [|x a]; [contradiction|]. intros _. now eexists. Qed.

Lemma simular_inv (e : ExperimentoDobleRendija)
      (ancho : R) (puntos : Z) (doble : bool) ws y intensidad :
  simular e (Some ancho) (Some puntos) (Some doble) =
    (ws, Ok (y, intensidad)) ->
  ws = [] /\ 0 < ancho /\ (100 <= puntos)%Z /\
  y = np.linspace (- ancho / 2) (ancho / 2) (Z.to_nat puntos) /\
  exists m, intensidad =
            map (fun v => np.odiv v m) (intensidad_cruda e doble y).
Proof.
  rewrite simular_cuerpo. desplegar_M.
  destruct (Rle_dec ancho 0); simpl; [discriminate|].
  destruct (Z.ltb_spec puntos 100); simpl; [discriminate|].
  destruct (np.max _) as [ws' [m|ex]] eqn:Hmax; simpl; [|discriminate].
  intros Heq. injection Heq as Hws <- <-.
  destruct (intensidad_cruda _ _ _) as [|x a] eqn:Hc; [discriminate Hmax|].
  simpl in Hmax. injection Hmax as <- _. simpl in Hws.
  repeat split; try lra; try lia; try (now subst ws).
  exists m. reflexivity.
Qed.

Lemma ascendente_linspace (start stop : R) (num : nat) :
  start < stop -> (2 <= num)%nat -> ascendente (np.linspace start stop num).
Proof.
  intros Hlt Hnum. unfold np.linspace.
  assert (Hn : 1 <= INR num - 1).
  { apply le_INR in Hnum. simpl in Hnum. lra. }
  assert (Hpaso : 0 < (stop - start) / (INR num - 1))
    by (apply Rdiv_lt_0_compat; lra).
  apply (StronglySorted_map lt); [|apply StronglySorted_seq].
  intros i j Hij. apply lt_INR in Hij. nra.
Qed.

Lemma simetrica_linspace (start stop : R) (num : nat) :
  start = - stop -> (2 <= num)%nat ->
  simetrica (np.linspace start stop num).
Proof.
  intros -> Hnum. unfold simetrica, np.linspace.
  rewrite <- map_rev, rev_seq_0, !map_map.
  apply map_ext_in. intros i Hi. apply in_seq in Hi.
  assert (Hn : 1 <= INR num - 1).
  { apply le_INR in Hnum. simpl in Hnum. lra. }
  replace (INR (num - 1 - i)) with (INR num - 1 - INR i).
  - field. lra.
  - rewrite !minus_INR by lia. simpl. ring.
Qed.

Lemma simetrica_rev (l : list R) : simetrica l -> rev l = map Ropp l.
Proof.
  unfold simetrica. intros H. rewrite <- H at 2. rewrite map_map.
  rewrite <- (map_id (rev l)) at 1. apply map_ext. intros x. ring.
Qed.

(** X6. The positions that [simular] returns are in strictly ascending
    order and symmetric about zero, and they depend on [ancho] and [puntos]
    only: two successful calls with the same [ancho] and [puntos], on any
    two experiments and in either mode, return the same positions, and as
    many intensities as positions. *)
Theorem simular_posiciones_comunes
    (e e' : ExperimentoDobleRendija) (ancho : R) (puntos : Z)
    (doble doble' : bool) ws ws' y y' intensidad intensidad' :
  simular e (Some ancho) (Some puntos) (Some doble) =
    (ws, Ok (y, intensidad)) ->
  simular e' (Some ancho) (Some puntos) (Some doble') =
    (ws', Ok (y', intensidad')) ->
  y' = y /\ ascendente y /\ simetrica y /\
  length intensidad = length y /\ length intensidad' = length y.
Proof.
  intros H H'.
  apply simular_inv in H. destruct H as (_ & Ha & Hp & Hy & m & HI).
  apply simular_inv in H'. destruct H' as (_ & _ & _ & Hy' & m' & HI').
  assert (Hnum : (2 <= Z.to_nat puntos)%nat) by lia.
  split; [congruence|]. split.
  { subst y. apply ascendente_linspace; [lra | exact Hnum]. }
  split.
  { subst y. apply simetrica_linspace; [lra | exact Hnum]. }
  split.
  - rewrite HI. now rewrite length_map, length_campos.
  - rewrite HI'. rewrite length_map, length_campos. congruence.
Qed.

Lemma simular_posiciones_comunes_testigo :
  exists y intensidad intensidad',
    simular experimento_rojo (Some 0.01) (Some 2000%Z) (Some true) =
      ([], Ok (y, intensidad)) /\
    simular experimento_rojo (Some 0.01) (Some 2000%Z) (Some false) =
      ([], Ok (y, intensidad')) /\
    ascendente y /\ simetrica y.
Proof.
  destruct (simular_Ok experimento_rojo construido_experimento_rojo
              0.01 2000 true ltac:(lra) ltac:(lia)) as (x & l & _ & Hd).
  destruct (simular_Ok experimento_rojo construido_experimento_rojo
              0.01 2000 false ltac:(lra) ltac:(lia)) as (x' & l' & _ & Hs).
  destruct (simular_posiciones_comunes _ _ _ _ _ _ _ _ _ _ _ _ Hd Hs)
    as (_ & Hasc & Hsim & _).
  do 3 eexists. repeat split; eassumption.
Defined.

(** X7. On a constructed experiment the intensity profile that [simular]
    returns reads the same from both ends: the sample at a position
    equals the sample at the mirrored position. *)
Theorem simular_perfil_capicua (e : ExperimentoDobleRendija)
    (ancho : R) (puntos : Z) (doble : bool) ws y intensidad :
  construido e ->
  simular e (Some ancho) (Some puntos) (Some doble) =
    (ws, Ok (y, intensidad)) ->
  capicua intensidad.
Proof.
  intros He H.
  apply simular_inv in H. destruct H as (_ & Ha & Hp & Hy & m & HI).
  assert (Hsim : simetrica y).
  { subst y. apply simetrica_linspace; [lra | lia]. }
  unfold capicua. rewrite HI. unfold intensidad_cruda.
  rewrite (crudo_por_punto e He doble y). unfold np.array.
  rewrite !map_map, <- map_rev, (simetrica_rev y Hsim), map_map.
  apply map_ext. intros yi. now rewrite campo_en_par.
Qed.

Lemma simular_perfil_capicua_testigo :
  exists y intensidad,
    simular experimento_rojo (Some 0.01) (Some 2000%Z) (Some true) =
      ([], Ok (y, intensidad)) /\
    capicua intensidad.
Proof.
  destruct (simular_Ok experimento_rojo construido_experimento_rojo
              0.01 2000 true ltac:(lra) ltac:(lia)) as (x & l & _ & Hd).
  do 2 eexists. split; [exact Hd|].
  exact (simular_perfil_capicua _ _ _ _ _ _ _
           construido_experimento_rojo Hd).
Defined.

(** X8. [simular] never warns and raises nothing but its two own errors:
    the width is checked first, then the number of points, and with a
    positive width and at least 100 points the call returns, on any
    experiment object. *)
Theorem simular_errores (e : ExperimentoDobleRendija)
    (ancho : R) (puntos : Z) (doble : bool) :
  emitidos (simular e (Some ancho) (Some puntos) (Some doble)) = [] /\
  (ancho <= 0 ->
   termina (simular e (Some ancho) (Some puntos) (Some doble)) =
   Raise AnchoPantallaNoPositivo) /\
  (0 < ancho -> (puntos < 100)%Z ->
   termina (simular e (Some ancho) (Some puntos) (Some doble)) =
   Raise PocosPuntos) /\
  (0 < ancho -> (100 <= puntos)%Z ->
   exists y intensidad,
     termina (simular e (Some ancho) (Some puntos) (Some doble)) =
     Ok (y, intensidad)).
Proof.
  rewrite simular_cuerpo. desplegar_M.
  destruct (Rle_dec ancho 0) as [Ha|Ha]; simpl.
  { repeat split; try reflexivity; intros; lra. }
  destruct (Z.ltb_spec puntos 100) as [Hp|Hp]; simpl.
  { repeat split; try reflexivity; intros; (lra || lia). }
  destruct (max_no_vacio
              (intensidad_cruda e doble
                 (np.linspace (- ancho / 2) (ancho / 2) (Z.to_nat puntos))))
    as [m Hm].
  { intros Hnil. apply (f_equal (@length _)) in Hnil.
    rewrite length_campos, length_linspace in Hnil. simpl in Hnil. lia. }
  rewrite Hm. simpl.
  repeat split; try (intros; (lra || lia)). intros _ _. eauto.
Qed.

Lemma simular_errores_testigo :
  termina (simular experimento_rojo (Some (-1)) (Some 5%Z) (Some true)) =
  Raise AnchoPantallaNoPositivo.
Proof.
  apply (proj1 (proj2 (simular_errores experimento_rojo (-1) 5 true))).
  lra.
Defined.

(** ** More on the fringe positions *)

(** X9. For [n_max >= 0] the maxima are indexed from the centre as the
    callers do it: with [len] the number of maxima, [len // 2] is [n_max],
    the maximum at index [i] has order [i - len // 2], so that the one at
    index [len // 2] is the central maximum at 0; consecutive maxima are
    one fringe spacing apart, and there is one minimum between each pair
    of consecutive maxima, exactly midway. *)
Theorem posiciones_franjas_intercaladas
    (e : ExperimentoDobleRendija) (n_max : Z) :
  (0 <= n_max)%Z ->
  exists r,
    calcular_posiciones_franjas e (Some n_max) = ([], Ok r) /\
    let maximos := ResultadosAnalisis.posiciones_maximos r in
    let minimos := ResultadosAnalisis.posiciones_minimos r in
    Z.of_nat (length maximos / 2) = n_max /\
    (forall i, (i < length maximos)%nat ->
       nth i maximos 0 =
       IZR (Z.of_nat i - Z.of_nat (length maximos / 2)) *
       separacion_franjas e) /\
    nth (length maximos / 2) maximos 0 = 0 /\
    (forall i, (S i < length maximos)%nat ->
       nth (S i) maximos 0 - nth i maximos 0 = separacion_franjas e) /\
    (length minimos + 1 = length maximos)%nat /\
    (forall i, (i < length minimos)%nat ->
       nth i minimos 0 = (nth i maximos 0 + nth (S i) maximos 0) / 2).
Proof.
  intros Hn. eexists. split; [reflexivity|].
  cbn [por_defecto ResultadosAnalisis.posiciones_maximos
       ResultadosAnalisis.posiciones_minimos].
  cbv zeta. rewrite !map_map, !length_map, !length_arange.
  replace (n_max + 1 - - n_max)%Z with (2 * n_max + 1)%Z by lia.
  replace (n_max - - n_max)%Z with (2 * n_max)%Z by lia.
  assert (Hmitad : (Z.to_nat (2 * n_max + 1) / 2)%nat = Z.to_nat n_max).
  { symmetry. apply (Nat.div_unique _ 2 _ 1); lia. }
  rewrite Hmitad, Z2Nat.id by lia.
  assert (Hnth : forall i, (i < Z.to_nat (2 * n_max + 1))%nat ->
            nth i (map (fun n => IZR n * separacion_franjas e)
                       (np.arange (- n_max) (n_max + 1))) 0 =
            IZR (Z.of_nat i - n_max) * separacion_franjas e).
  { intros i Hi. rewrite nth_map_arange.
    - do 2 f_equal. lia.
    - replace (n_max + 1 - - n_max)%Z with (2 * n_max + 1)%Z by lia.
      exact Hi. }
  split; [reflexivity|]. split; [exact Hnth|]. split.
  { rewrite Hnth by lia. rewrite Z2Nat.id, Z.sub_diag by lia. ring. }
  split.
  { intros i Hi. rewrite !Hnth by lia.
    rewrite Nat2Z.inj_succ. unfold Z.succ.
    rewrite !minus_IZR, plus_IZR. ring. }
  split; [lia|].
  intros i Hi. rewrite !Hnth by lia. rewrite nth_map_arange.
  - rewrite Nat2Z.inj_succ. unfold Z.succ.
    rewrite !minus_IZR, !plus_IZR, opp_IZR.
    replace 0.5 with (1 / 2) by lra. field.
  - replace (n_max - - n_max)%Z with (2 * n_max)%Z by lia. exact Hi.
Qed.

Lemma posiciones_franjas_intercaladas_testigo :
  exists r,
    calcular_posiciones_franjas experimento_rojo None = ([], Ok r) /\
    nth 10 (ResultadosAnalisis.posiciones_maximos r) 0 = 0.
Proof.
  destruct (posiciones_franjas_intercaladas experimento_rojo 10
              ltac:(lia)) as (r & Hr & Hmitad & _ & Hcentro & _).
  exists r. split; [exact Hr|].
  cbv zeta in Hmitad, Hcentro.
  assert (H10 : (length (ResultadosAnalisis.posiciones_maximos r) / 2)%nat
                = 10%nat) by lia.
  rewrite H10 in Hcentro. exact Hcentro.
Defined.

(** ** The overlay of predicted maxima *)

Lemma in_arange (lo hi n : Z) :
  In n (np.arange lo hi) <-> (lo <= n < hi)%Z.
Proof.
  unfold np.arange. rewrite in_map_iff. split.
  - intros (i & <- & Hi). apply in_seq in Hi. lia.
  - intros Hn. exists (Z.to_nat (n - lo)). split; [lia|].
    apply in_seq. lia.
Qed.

Lemma filter_map_conmuta {A B} (f : B -> bool) (g : A -> B) (l : list A) :
  filter f (map g l) = map g (filter (fun x => f (g x)) l).
Proof.
  induction l as [|x l IH]; simpl; [reflexivity|].
  destruct (f (g x)); simpl; now rewrite IH.
Qed.

Lemma simetrica_filter (f : R -> bool) (l : list R) :
  (forall p, f (- p) = f p) -> simetrica l -> simetrica (filter f l).
Proof.
  unfold simetrica. intros Hpar Hl.
  rewrite <- filter_rev.
  rewrite <- (filter_ext (fun p => f (- p)) f Hpar).
  rewrite <- (filter_map_conmuta f Ropp). now rewrite Hl.
Qed.

Lemma simetrica_escala (c : R) (l : list R) :
  simetrica l -> simetrica (map (fun p => p * c) l).
Proof.
  unfold simetrica. intros Hl. rewrite <- Hl at 2.
  rewrite <- map_rev, !map_map. apply map_ext. intros p. ring.
Qed.

Lemma marcar_maximos_finito (y posiciones : list R) (limite : R) :
  np.max_finito (map Rabs y) = ([], Ok limite) ->
  marcar_maximos y posiciones =
  ([], Ok (map (fun p => p * 1000)
               (filter (fun p => Rleb (Rabs p) limite) posiciones))).
Proof.
  intros Hmax. induction posiciones as [|pos resto IH]; [reflexivity|].
  cbn [marcar_maximos]. rewrite Hmax, IH. cbn [bind ret app filter].
  destruct (Rleb (Rabs pos) limite); reflexivity.
Qed.

(** X10. The overlay of [graficar_patron] draws nothing when it is not
    asked for or no experiment is given, and raises on an empty position
    array.  Otherwise it draws, in millimetres, exactly the maxima of
    orders -5 to 5 whose distance from the axis does not exceed the
    largest [|y|]: the central maximum is always among them and the lines
    are symmetric about zero. *)
Theorem graficar_patron_marcas (e : ExperimentoDobleRendija) (y : list R) :
  (forall experimento,
      graficar_patron_predicciones y false experimento = ([], Ok [])) /\
  graficar_patron_predicciones y true None = ([], Ok []) /\
  (y = [] ->
   graficar_patron_predicciones y true (Some e) = ([], Raise ArregloVacio)) /\
  (y <> [] ->
   exists lineas limite,
     graficar_patron_predicciones y true (Some e) = ([], Ok lineas) /\
     np.max_finito (map Rabs y) = ([], Ok limite) /\
     In 0 lineas /\ simetrica lineas /\
     (forall x, In x lineas <->
        exists n : Z, (-5 <= n <= 5)%Z /\
                      x = IZR n * separacion_franjas e * 1000 /\
                      Rabs (IZR n * separacion_franjas e) <= limite)).
Proof.
  split; [reflexivity|]. split; [reflexivity|]. split.
  { intros ->. reflexivity. }
  intros Hy. destruct y as [|y0 y]; [contradiction|].
  set (limite := np.maximo (Rabs y0) (map Rabs y)).
  assert (Hmax : np.max_finito (map Rabs (y0 :: y)) = ([], Ok limite))
    by reflexivity.
  assert (Hlim : 0 <= limite).
  { apply Rle_trans with (Rabs y0);
      [apply Rabs_pos | apply maximo_cota_inicial]. }
  set (maximos := map (fun n => IZR n * separacion_franjas e)
                      (np.arange (- 5) (5 + 1))).
  assert (Hgraf : graficar_patron_predicciones (y0 :: y) true (Some e) =
                  marcar_maximos (y0 :: y) maximos).
  { unfold graficar_patron_predicciones, calcular_posiciones_franjas.
    cbn [por_defecto]. unfold bind at 1, ret at 1.
    cbn [ResultadosAnalisis.posiciones_maximos app].
    destruct (marcar_maximos _ _). reflexivity. }
  rewrite Hgraf, (marcar_maximos_finito _ _ _ Hmax).
  assert (Hcar : forall x,
             In x (map (fun p => p * 1000)
                       (filter (fun p => Rleb (Rabs p) limite) maximos)) <->
             exists n : Z, (-5 <= n <= 5)%Z /\
                           x = IZR n * separacion_franjas e * 1000 /\
                           Rabs (IZR n * separacion_franjas e) <= limite).
  { intros x. rewrite in_map_iff. split.
    - intros (p & <- & Hp). apply filter_In in Hp. destruct Hp as [Hin Hle].
      unfold maximos in Hin. apply in_map_iff in Hin.
      destruct Hin as (n & <- & Hn). apply in_arange in Hn.
      exists n. split; [lia|]. split; [reflexivity|].
      now apply Rleb_true.
    - intros (n & Hn & -> & Hle). exists (IZR n * separacion_franjas e).
      split; [reflexivity|]. apply filter_In. split.
      + unfold maximos. apply in_map_iff. exists n.
        split; [reflexivity | apply in_arange; lia].
      + now apply Rleb_true. }
  do 2 eexists. split; [reflexivity|]. split; [reflexivity|].
  split; [|split; [|exact Hcar]].
  - apply Hcar. exists 0%Z. split; [lia|]. split; [ring|].
    rewrite Rmult_0_l, Rabs_R0. exact Hlim.
  - apply simetrica_escala, simetrica_filter.
    + intros p. now rewrite Rabs_Ropp.
    + unfold maximos. apply simetrica_map_arange. intros m.
      replace (- 5 + (5 + 1) - 1 - m)%Z with (- m)%Z by lia.
      rewrite opp_IZR. ring.
Qed.

Lemma graficar_patron_marcas_testigo :
  exists lineas,
    graficar_patron_predicciones [-0.005; 0.005] true
      (Some experimento_rojo) = ([], Ok lineas) /\
    In 0 lineas /\ simetrica lineas.
Proof.
  destruct (graficar_patron_marcas experimento_rojo [-0.005; 0.005])
    as (_ & _ & _ & Hmarcas).
  destruct (Hmarcas ltac:(discriminate))
    as (lineas & limite & Hg & _ & Hcero & Hsim & _).
  exists lineas. repeat split; assumption.
Defined.

(** ** More on the comparison with a measurement *)

Lemma simular_ancho_no_positivo (e : ExperimentoDobleRendija)
      (ancho : R) (puntos : Z) (doble : bool) :
  ancho <= 0 ->
  simular e (Some ancho) (Some puntos) (Some doble) =
  ([], Raise AnchoPantallaNoPositivo).
Proof.
  intros Ha. rewrite simular_cuerpo. unfold raise_if, Rleb.
  destruct (Rle_dec ancho 0); [reflexivity | lra].
Qed.

Lemma simular_pocos_puntos_general (e : ExperimentoDobleRendija)
      (ancho : R) (puntos : Z) (doble : bool) :
  0 < ancho -> (puntos < 100)%Z ->
  simular e (Some ancho) (Some puntos) (Some doble) =
  ([], Raise PocosPuntos).
Proof.
  intros Ha Hp. rewrite simular_cuerpo. unfold raise_if, Rleb.
  destruct (Rle_dec ancho 0); [lra|].
  destruct (Z.ltb_spec puntos 100); [reflexivity | lia].
Qed.

Lemma simular_Ok_general (e : ExperimentoDobleRendija)
      (ancho : R) (puntos : Z) (doble : bool) :
  0 < ancho -> (100 <= puntos)%Z ->
  exists m,
    simular e (Some ancho) (Some puntos) (Some doble) =
    ([], Ok (np.linspace (- ancho / 2) (ancho / 2) (Z.to_nat puntos),
             map (fun v => np.odiv v m)
                 (intensidad_cruda e doble
                    (np.linspace (- ancho / 2) (ancho / 2)
                                 (Z.to_nat puntos))))).
Proof.
  intros Ha Hp. rewrite simular_cuerpo. unfold raise_if, Rleb.
  destruct (Rle_dec ancho 0); [lra|].
  destruct (Z.ltb_spec puntos 100); [lia|].
  destruct (max_no_vacio
              (intensidad_cruda e doble
                 (np.linspace (- ancho / 2) (ancho / 2) (Z.to_nat puntos))))
    as [m Hm].
  { intros Hnil. apply (f_equal (@length _)) in Hnil.
    rewrite length_campos, length_linspace in Hnil. simpl in Hnil. lia. }
  exists m. rewrite Hm. reflexivity.
Qed.

Lemma extremos_ordenados (x : R) (l : list R) :
  np.minimo x l <= np.maximo x l.
Proof.
  apply Rle_trans with x;
    [apply minimo_cota_inicial | apply maximo_cota_inicial].
Qed.

Lemma length_zip_with (f : option R -> option R -> option R)
      (a b : np.ndarray) :
  length a = length b -> length (np.zip_with f a b) = length a.
Proof.
  revert b. induction a as [|x a IH]; intros [|z b] H; simpl in *;
    try reflexivity; try discriminate. f_equal. apply IH. lia.
Qed.

(** The outcome of [np.broadcast] on a finite first operand, when the
    second operand has at least two elements. *)
Lemma broadcast_casos (f : option R -> option R -> option R)
      (a b : np.ndarray) :
  (2 <= length b)%nat ->
  (length a = length b \/ length a = 1%nat ->
   exists r, np.broadcast f a b = ([], Ok r) /\ length r = length b) /\
  (length a <> length b -> length a <> 1%nat ->
   np.broadcast f a b = ([], Raise FormasIncompatibles)).
Proof.
  intros Hb. unfold np.broadcast.
  destruct (Nat.eqb_spec (length a) (length b)) as [Heq|Hne].
  - split; [|contradiction]. intros _. eexists. split; [reflexivity|].
    rewrite length_zip_with; assumption.
  - split.
    + intros [H|H]; [contradiction|].
      destruct a as [|x [|x' a]]; try discriminate H.
      eexists. split; [reflexivity | apply length_map].
    + intros _ H1. destruct a as [|x [|x' a]].
      * destruct b as [|z [|z' b]]; simpl in *; try lia. reflexivity.
      * now elim H1.
      * destruct b as [|z [|z' b]]; simpl in *; try lia. reflexivity.
Qed.

(** X11. The outcome of [comparar_experimento_teoria] is decided by the
    measured arrays alone, on any experiment: an empty position array is a
    NumPy error; positions that are all equal make [simular] reject the
    width; fewer than 100 positions make it reject the count; an intensity
    array whose length is neither that of the positions nor 1 cannot be
    subtracted; a single intensity is subtracted from every sample, but
    [np.corrcoef] then refuses to stack it on the theoretical intensities;
    none of these failures is preceded by a warning.  With as many
    intensities as positions the call returns, with one residual for each
    measured position, and the only warnings it can emit are the "invalid
    value" ones of [np.corrcoef]. *)
Theorem comparar_errores (x : R) (l intensidad : list R)
    (e : ExperimentoDobleRendija) :
  comparar_experimento_teoria [] intensidad e = ([], Raise ArregloVacio) /\
  (np.maximo x l <= np.minimo x l ->
   comparar_experimento_teoria (x :: l) intensidad e =
   ([], Raise AnchoPantallaNoPositivo)) /\
  (np.minimo x l < np.maximo x l -> (length (x :: l) < 100)%nat ->
   comparar_experimento_teoria (x :: l) intensidad e =
   ([], Raise PocosPuntos)) /\
  (np.minimo x l < np.maximo x l -> (100 <= length (x :: l))%nat ->
   length intensidad <> length (x :: l) -> length intensidad <> 1%nat ->
   comparar_experimento_teoria (x :: l) intensidad e =
   ([], Raise FormasIncompatibles)) /\
  (np.minimo x l < np.maximo x l -> (100 <= length (x :: l))%nat ->
   length intensidad = 1%nat ->
   comparar_experimento_teoria (x :: l) intensidad e =
   ([], Raise DimensionesDistintas)) /\
  (np.minimo x l < np.maximo x l -> (100 <= length (x :: l))%nat ->
   length intensidad = length (x :: l) ->
   exists ws c,
     comparar_experimento_teoria (x :: l) intensidad e = (ws, Ok c) /\
     Forall (fun w => w = ValorInvalido) ws /\
     length (residuos c) = length (x :: l)).
Proof.
  split; [reflexivity|].
  remember (x :: l) as y eqn:Ey.
  assert (Hmax : np.max_finito y = ([], Ok (np.maximo x l)))
    by (subst y; reflexivity).
  assert (Hmin : np.min_finito y = ([], Ok (np.minimo x l)))
    by (subst y; reflexivity).
  assert (Hok : np.minimo x l < np.maximo x l -> (100 <= length y)%nat ->
            exists it,
              simular e (Some (np.maximo x l - np.minimo x l))
                      (Some (Z.of_nat (length y))) (Some true) =
              ([], Ok (np.linspace (- (np.maximo x l - np.minimo x l) / 2)
                                   ((np.maximo x l - np.minimo x l) / 2)
                                   (length y), it)) /\
              length it = length y).
  { intros Hw Hlen.
    destruct (simular_Ok_general e (np.maximo x l - np.minimo x l)
                (Z.of_nat (length y)) true) as [m Hm]; [lra | lia |].
    rewrite Nat2Z.id in Hm. eexists. split; [exact Hm|].
    now rewrite length_map, length_campos, length_linspace. }
  assert (Hlista : length (np.array intensidad) = length intensidad)
    by (unfold np.array; apply length_map).
  unfold comparar_experimento_teoria. rewrite Hmax, Hmin, !bind_Ok.
  split.
  { intros Hw. now rewrite simular_ancho_no_positivo by lra. }
  split.
  { intros Hw Hlen.
    now rewrite simular_pocos_puntos_general by (lra || lia). }
  split.
  { intros Hw Hlen Hne H1. destruct (Hok Hw Hlen) as (it & -> & Hit).
    rewrite bind_Ok.
    destruct (broadcast_casos (np.lift2 Rminus) (np.array intensidad) it)
      as [_ Hmal]; [lia|].
    rewrite Hlista in Hmal. rewrite Hmal by congruence. reflexivity. }
  split.
  { intros Hw Hlen H1. destruct (Hok Hw Hlen) as (it & -> & Hit).
    rewrite bind_Ok.
    destruct (broadcast_casos (np.lift2 Rminus) (np.array intensidad) it)
      as [Hbien _]; [lia|].
    rewrite Hlista in Hbien.
    destruct Hbien as (r & Hr & Hlr); [now right|].
    rewrite Hr, bind_Ok, corrcoef_distintas by (rewrite Hlista; lia).
    reflexivity. }
  intros Hw Hlen Hforma. destruct (Hok Hw Hlen) as (it & -> & Hit).
  rewrite bind_Ok.
  destruct (broadcast_casos (np.lift2 Rminus) (np.array intensidad) it)
    as [Hbien _]; [lia|].
  rewrite Hlista in Hbien.
  destruct Hbien as (r & Hr & Hlr); [left; congruence|].
  destruct (corrcoef_Ok (np.array intensidad) it) as (ws & c & Hc & Hws);
    [rewrite Hlista; congruence | rewrite Hlista; lia |].
  rewrite Hr, bind_Ok, Hc. unfold bind, ret. cbn [app].
  eexists _, _. split; [reflexivity|]. rewrite app_nil_r.
  split; [exact Hws|]. simpl. congruence.
Qed.

Lemma comparar_errores_testigo :
  comparar_experimento_teoria [0; 0.001; 0.002] [1; 0.5; 0.1]
    experimento_rojo = ([], Raise PocosPuntos).
Proof.
  apply (proj1 (proj2 (proj2
           (comparar_errores 0 [0.001; 0.002] [1; 0.5; 0.1]
              experimento_rojo)))).
  - pose proof (minimo_cota_inicial [0.001; 0.002] 0).
    pose proof (maximo_cota [0.001; 0.002] 0 0.002
                  ltac:(right; right; now left)).
    lra.
  - simpl. lia.
Defined.

Lemma comparar_inv (y intensidad : list R) (e : ExperimentoDobleRendija)
      ws c :
  comparar_experimento_teoria y intensidad e = (ws, Ok c) ->
  exists y_max y_min dif,
    np.max_finito y = ([], Ok y_max) /\
    np.min_finito y = ([], Ok y_min) /\
    simular e (Some (y_max - y_min)) (Some (Z.of_nat (length y)))
            (Some true) = ([], Ok (y_teoria c, intensidad_teoria c)) /\
    np.broadcast (np.lift2 Rminus) (np.array intensidad)
                 (intensidad_teoria c) = ([], Ok dif) /\
    residuos c = dif /\ mse c = np.mean (np.sqr dif) /\
    np.corrcoef (np.array intensidad) (intensidad_teoria c) =
      (ws, Ok (correlacion c)).
Proof.
  intros H. destruct y as [|x l]; [discriminate H|].
  remember (x :: l) as y eqn:Ey.
  assert (Hmax : np.max_finito y = ([], Ok (np.maximo x l)))
    by (subst y; reflexivity).
  assert (Hmin : np.min_finito y = ([], Ok (np.minimo x l)))
    by (subst y; reflexivity).
  exists (np.maximo x l), (np.minimo x l).
  unfold comparar_experimento_teoria in H.
  rewrite Hmax, Hmin, !bind_Ok in H.
  destruct (simular _ _ _ _) as [ws1 [[yt it]|ex]] eqn:Hsim;
    [|discriminate H].
  pose proof (simular_inv _ _ _ _ _ _ _ Hsim) as (-> & _).
  rewrite bind_Ok in H.
  destruct (np.broadcast (np.lift2 Rminus) (np.array intensidad) it)
    as [ws2 [dif|ex]] eqn:Hdif; [|discriminate H].
  assert (Hws2 : ws2 = []).
  { unfold np.broadcast in Hdif.
    destruct (Nat.eqb _ _); [now injection Hdif|].
    destruct (np.array intensidad) as [|? [|? ?]];
      destruct it as [|? [|? ?]]; simpl in Hdif;
      now injection Hdif. }
  subst ws2. rewrite bind_Ok in H.
  destruct (np.corrcoef (np.array intensidad) it) as [ws3 [r|ex]] eqn:Hr;
    [|discriminate H].
  unfold bind, ret in H. cbn [app] in H. rewrite app_nil_r in H.
  injection H as <- <-. simpl.
  exists dif. repeat split; try assumption.
Qed.

Lemma zip_with_diagonal (l : list R) :
  np.zip_with (np.lift2 Rminus) (np.array l) (np.array l) =
  map (fun v => Some (v - v)) l.
Proof. unfold np.array. now rewrite zip_with_map. Qed.

Lemma suma_de_ceros (l : list R) (acc : R) :
  fold_left (np.lift2 Rplus)
            (np.sqr (map (fun v => Some (v - v)) l)) (Some acc) = Some acc.
Proof.
  revert acc. induction l as [|v l IH]; intros acc; [reflexivity|].
  cbn. replace (acc + (v - v) * ((v - v) * 1)) with acc by ring.
  apply IH.
Qed.

Lemma comparar_simulacion_propia (e : ExperimentoDobleRendija)
      (ancho : R) (puntos : Z) ws (y intensidad : list R) :
  simular e (Some ancho) (Some puntos) (Some true) =
    (ws, Ok (y, np.array intensidad)) ->
  exists ws' c,
    comparar_experimento_teoria y intensidad e = (ws', Ok c) /\
    (ws' = [] /\ correlacion c = Some 1 \/
     ws' = [ValorInvalido] /\ correlacion c = None) /\
    y_teoria c = y /\
    intensidad_teoria c = np.array intensidad /\
    length (residuos c) = length y /\
    Forall (fun r => r = Some 0) (residuos c) /\
    mse c = Some 0.
Proof.
  intros H.
  pose proof (simular_inv _ _ _ _ _ _ _ H) as (-> & Ha & Hp & Hy & m & HI).
  assert (Hlen : length y = Z.to_nat puntos)
    by (rewrite Hy; apply length_linspace).
  assert (HlenI : length intensidad = length y).
  { apply (f_equal (@length _)) in HI. unfold np.array in HI at 1.
    now rewrite !length_map, length_campos in HI. }
  destruct (extremos_linspace (- ancho / 2) (ancho / 2) (Z.to_nat puntos))
    as [Hmax Hmin]; [lra | lia |].
  rewrite <- Hy in Hmax, Hmin.
  unfold comparar_experimento_teoria. rewrite Hmax, Hmin, !bind_Ok.
  replace (ancho / 2 - - ancho / 2) with ancho by lra.
  replace (Z.of_nat (length y)) with puntos by lia.
  rewrite H, bind_Ok. cbv beta iota. unfold np.broadcast.
  rewrite Nat.eqb_refl. cbv beta iota zeta. unfold ret.
  rewrite !bind_Ok.
  destruct (corrcoef_propia intensidad ltac:(lia)) as [Hr|Hr]; rewrite Hr;
    [rewrite bind_Ok | unfold bind; cbn [app]];
    (eexists _, _; split; [reflexivity|]);
    cbn [y_teoria intensidad_teoria residuos mse correlacion];
    rewrite zip_with_diagonal;
    (split; [auto|]);
    (split; [reflexivity|]); (split; [reflexivity|]);
    (split; [now rewrite length_map|]); split.
  1, 3: apply Forall_forall; intros v Hv; apply in_map_iff in Hv;
    destruct Hv as (u & <- & _); f_equal; ring.
  all: unfold np.mean; rewrite suma_de_ceros; unfold np.sqr, np.ufunc;
    rewrite !length_map; cbn [np.odiv];
    (rewrite div_finita; [f_equal; unfold Rdiv; ring | apply not_0_INR; lia]).
Qed.

Lemma simulacion_roja_finita :
  exists intensidad,
    simular experimento_rojo (Some 0.01) (Some 2000%Z) (Some true) =
    ([], Ok (np.linspace (- (0.01) / 2) (0.01 / 2) (Z.to_nat 2000),
             np.array intensidad)).
Proof.
  destruct (simular_Ok experimento_rojo construido_experimento_rojo
              0.01 2000 true ltac:(lra) ltac:(lia)) as (x & l & Hy & Hsim).
  assert (Hm : np.maximo x l <> 0).
  { pose proof (maximo_crudo_positivo experimento_rojo 0.01 2000 true x l
                  construido_experimento_rojo ltac:(lra) ltac:(lia)) as Hpos.
    assert (0 < np.maximo x l); [|lra].
    apply Hpos; [|exact Hy]. right. simpl. split; [lra | intros _; lra]. }
  rewrite (normalizar_finito _ _ Hm) in Hsim.
  eexists. exact Hsim.
Qed.



(** X13. Whenever [comparar_experimento_teoria] gets through, there are at
    least 100 measured positions and the theory has been evaluated on as
    many positions, in ascending order and symmetric about zero; these are
    the measured positions exactly when the measured positions form a
    uniform grid centred on zero. *)
Theorem comparar_rejilla_centrada (y intensidad : list R)
    (e : ExperimentoDobleRendija) ws c :
  comparar_experimento_teoria y intensidad e = (ws, Ok c) ->
  (100 <= length y)%nat /\
  length (y_teoria c) = length y /\
  ascendente (y_teoria c) /\ simetrica (y_teoria c) /\
  (y_teoria c = y <->
   exists ancho, 0 < ancho /\
                 y = np.linspace (- ancho / 2) (ancho / 2) (length y)).
Proof.
  intros H.
  destruct (comparar_inv _ _ _ _ _ H)
    as (mx & mn & dif & Hmax & Hmin & Hsim & _).
  apply simular_inv in Hsim.
  destruct Hsim as (_ & Hw & Hlen & Hyt & _).
  rewrite Nat2Z.id in Hyt.
  assert (Hn : (100 <= length y)%nat) by lia.
  split; [exact Hn|]. split; [rewrite Hyt; apply length_linspace|].
  split; [rewrite Hyt; apply ascendente_linspace; [lra | lia]|].
  split; [rewrite Hyt; apply simetrica_linspace; [lra | lia]|].
  split.
  - intros Heq. exists (mx - mn). split; [exact Hw|]. congruence.
  - intros (ancho & Ha & Hy).
    destruct (extremos_linspace (- ancho / 2) (ancho / 2) (length y))
      as [Hmax' Hmin']; [lra | lia |].
    rewrite <- Hy in Hmax', Hmin'.
    rewrite Hmax in Hmax'. rewrite Hmin in Hmin'.
    injection Hmax' as ->. injection Hmin' as ->.
    rewrite Hyt. etransitivity; [|symmetry; exact Hy].
    replace (ancho / 2 - - ancho / 2) with ancho by lra. reflexivity.
Qed.

Lemma comparar_rejilla_centrada_testigo :
  exists ws c,
    comparar_experimento_teoria y_medido intensidad_medida experimento_rojo =
      (ws, Ok c) /\
    simetrica (y_teoria c) /\ length (y_teoria c) = length y_medido.
Proof.
  destruct (extremos_linspace 0 0.01 100 ltac:(lra) ltac:(lia))
    as [Hmax Hmin]. fold y_medido in Hmax, Hmin.
  assert (Hlen : length y_medido = 100%nat) by apply length_linspace.
  assert (HI : length intensidad_medida = length y_medido).
  { rewrite Hlen. apply repeat_length. }
  destruct (comparar_Ok y_medido intensidad_medida experimento_rojo
              0.01 0 construido_experimento_rojo ltac:(lia) HI Hmax Hmin
              ltac:(lra)) as (ws & c & Hc & _).
  exists ws, c. split; [exact Hc|].
  destruct (comparar_rejilla_centrada _ _ _ _ _ Hc)
    as (_ & Hl & _ & Hs & _).
  split; assumption.
Defined.

Lemma suma_de_cuadrados (a : np.ndarray) (acc s : R) :
  fold_left (np.lift2 Rplus) (np.sqr a) (Some acc) = Some s ->
  acc <= s /\
  (s = acc <-> Forall (fun r => r = Some 0) a).
Proof.
  revert acc. induction a as [|o a IH]; intros acc H.
  - simpl in H. injection H as <-. split; [lra|]. split; auto.
  - destruct o as [v|]; cbn in H; [|now rewrite suma_desde_no_finito in H].
    apply IH in H. destruct H as [Hle Hiff].
    assert (Hsq : 0 <= v * (v * 1)) by nra.
    split; [lra|]. split.
    + intros Hs. assert (Hv : v * (v * 1) = 0) by lra.
      assert (v = 0) by nra. subst v. constructor; [reflexivity|].
      apply Hiff. lra.
    + intros Hall. inversion Hall as [|? ? Hv Hresto]; subst.
      injection Hv as ->. apply Hiff in Hresto. lra.
Qed.

(** X14. The mean squared error that [comparar_experimento_teoria]
    computes, when it is finite, is not negative, and it is 0 exactly
    when every residual is 0. *)
Theorem comparar_mse_no_negativo (y intensidad : list R)
    (e : ExperimentoDobleRendija) ws c (v : R) :
  comparar_experimento_teoria y intensidad e = (ws, Ok c) ->
  mse c = Some v ->
  0 <= v /\ (v = 0 <-> Forall (fun r => r = Some 0) (residuos c)).
Proof.
  intros H Hv.
  destruct (comparar_inv _ _ _ _ _ H)
    as (mx & mn & dif & _ & _ & _ & _ & Hres & Hmse & _).
  rewrite Hres. rewrite Hmse in Hv. unfold np.mean in Hv.
  destruct (fold_left _ _ _) as [s|] eqn:Hs; [|discriminate Hv].
  apply suma_de_cuadrados in Hs. destruct Hs as [Hpos Hiff].
  cbn [np.odiv] in Hv. unfold np.div in Hv.
  destruct (Req_dec_T _ 0) as [|Hn]; [discriminate Hv|].
  injection Hv as <-.
  assert (Hlen : 0 < INR (length (np.sqr dif))).
  { pose proof (pos_INR (length (np.sqr dif))). lra. }
  assert (Hinv : 0 < / INR (length (np.sqr dif)))
    by now apply Rinv_0_lt_compat.
  split; [unfold Rdiv; nra|].
  rewrite <- Hiff. unfold Rdiv. split; intros H0; nra.
Qed.

Lemma comparar_mse_no_negativo_testigo :
  exists y intensidad ws c,
    comparar_experimento_teoria y intensidad experimento_rojo =
      (ws, Ok c) /\
    mse c = Some 0 /\ Forall (fun r => r = Some 0) (residuos c).
Proof.
  destruct simulacion_roja_finita as [intensidad Hsim].
  destruct (comparar_simulacion_propia _ _ _ _ _ _ Hsim)
    as (ws & c & Hc & _ & _ & _ & _ & _ & Hmse).
  exists (np.linspace (- (0.01) / 2) (0.01 / 2) (Z.to_nat 2000)),
    intensidad, ws, c.
  split; [exact Hc|]. split; [exact Hmse|].
  apply (proj2 (comparar_mse_no_negativo _ _ _ _ _ _ Hc Hmse)).
  reflexivity.
Defined.

(** * The complex-number library *)

(** ** Arithmetic *)

Lemma complejo_eq (a b : Complejos.complejo) :
  fst a = fst b -> snd a = snd b -> a = b.
Proof. destruct a, b. simpl. now intros -> ->. Qed.

Lemma denominador_nulo (c : Complejos.complejo) :
  fst c ^ 2 + snd c ^ 2 = 0 <-> c = (0, 0).
Proof.
  destruct c as [x y]. simpl. split.
  - intros H. assert (x = 0) by nra. assert (y = 0) by nra. now subst.
  - intros H. injection H as -> ->. ring.
Qed.

(** X15. [division] raises its [ValueError] exactly when the divisor is
    (0, 0); otherwise it undoes [producto]: dividing a product by one
    factor gives the other factor, and multiplying a quotient by the
    divisor gives the dividend back. *)
Theorem division_producto (c1 c2 : Complejos.complejo) :
  (Complejos.division c1 c2 = None <-> c2 = (0, 0)) /\
  (c2 <> (0, 0) ->
   Complejos.division (Complejos.producto c1 c2) c2 = Some c1) /\
  (forall q, Complejos.division c1 c2 = Some q ->
             Complejos.producto q c2 = c1).
Proof.
  pose proof (denominador_nulo c2) as Hden.
  unfold Complejos.division. cbv zeta.
  destruct (Req_dec_T (fst c2 ^ 2 + snd c2 ^ 2) 0) as [H0|Hne].
  - split; [split; [intros _; now apply Hden | reflexivity]|].
    split; [intros Hc; elim Hc; now apply Hden | discriminate].
  - split.
    { split; [discriminate | intros Hc; elim Hne; now apply Hden]. }
    split.
    + intros _. apply (f_equal (@Some Complejos.complejo)).
      apply complejo_eq; simpl; field; intros H0; apply Hne; simpl; lra.
    + intros q Hq. injection Hq as <-.
      apply complejo_eq; simpl; field; intros H0; apply Hne; simpl; lra.
Qed.

Lemma division_producto_testigo :
  Complejos.division (Complejos.producto (1, 2) (3, 4)) (3, 4) =
  Some (1, 2).
Proof.
  apply (proj1 (proj2 (division_producto (1, 2) (3, 4)))).
  intros H. injection H as H3 _. lra.
Defined.

(** X16. [suma] and [producto] are commutative and associative,
    [producto] distributes over [suma], (0, 0) and (1, 0) are their
    neutral elements, and [resta] undoes [suma]. *)
Theorem aritmetica_compleja (a b c : Complejos.complejo) :
  Complejos.suma a b = Complejos.suma b a /\
  Complejos.suma (Complejos.suma a b) c =
    Complejos.suma a (Complejos.suma b c) /\
  Complejos.producto a b = Complejos.producto b a /\
  Complejos.producto (Complejos.producto a b) c =
    Complejos.producto a (Complejos.producto b c) /\
  Complejos.producto a (Complejos.suma b c) =
    Complejos.suma (Complejos.producto a b) (Complejos.producto a c) /\
  Complejos.suma a (0, 0) = a /\
  Complejos.producto a (1, 0) = a /\
  Complejos.resta (Complejos.suma a b) b = a /\
  Complejos.suma (Complejos.resta a b) b = a.
Proof.
  repeat split; apply complejo_eq; simpl; ring.
Qed.

(** ** Modulus and conjugate *)

Lemma suma_cuadrados_no_negativa (x y : R) : 0 <= x ^ 2 + y ^ 2.
Proof. nra. Qed.

(** X17. The modulus is not negative and vanishes only at (0, 0); it is
    unchanged by [conjugado] and multiplicative for [producto]; a number
    times its conjugate is the square of its modulus, with no imaginary
    part; and [conjugado] is an involution that commutes with
    [producto]. *)
Theorem modulo_y_conjugado (a b : Complejos.complejo) :
  0 <= Complejos.modulo a /\
  (Complejos.modulo a = 0 <-> a = (0, 0)) /\
  Complejos.modulo (Complejos.conjugado a) = Complejos.modulo a /\
  Complejos.modulo (Complejos.producto a b) =
    Complejos.modulo a * Complejos.modulo b /\
  Complejos.producto a (Complejos.conjugado a) =
    (Complejos.modulo a ^ 2, 0) /\
  Complejos.conjugado (Complejos.conjugado a) = a /\
  Complejos.conjugado (Complejos.producto a b) =
    Complejos.producto (Complejos.conjugado a) (Complejos.conjugado b).
Proof.
  destruct a as [x y], b as [u v]. unfold Complejos.modulo. simpl.
  pose proof (suma_cuadrados_no_negativa x y) as Hxy.
  pose proof (suma_cuadrados_no_negativa u v) as Huv.
  simpl in Hxy, Huv.
  split; [apply sqrt_pos|]. split.
  { split.
    - intros H. apply sqrt_eq_0 in H; [|exact Hxy].
      apply (denominador_nulo (x, y)). simpl. exact H.
    - intros H. injection H as -> ->.
      replace (0 * (0 * 1) + 0 * (0 * 1)) with 0 by ring. apply sqrt_0. }
  split; [f_equal; ring|]. split.
  { rewrite <- sqrt_mult by assumption. f_equal. ring. }
  split.
  { apply complejo_eq; simpl; [|ring].
    rewrite (Rmult_1_r (sqrt _)), sqrt_sqrt by exact Hxy. ring. }
  split; apply complejo_eq; simpl; ring.
Qed.

(** ** Polar form *)

Lemma raiz_de_escala (x t : R) :
  0 <= x -> sqrt (x ^ 2 + (x * t) ^ 2) = x * sqrt (1 + t²).
Proof.
  intros Hx. apply sqrt_lem_1.
  - nra.
  - apply Rmult_le_pos; [exact Hx | apply sqrt_pos].
  - pose proof (Rle_0_sqr t) as Ht.
    replace (x * sqrt (1 + t²) * (x * sqrt (1 + t²)))
      with (x * x * (sqrt (1 + t²) * sqrt (1 + t²))) by ring.
    rewrite sqrt_sqrt by lra. unfold Rsqr. ring.
Qed.

Lemma raiz_positiva (t : R) : 0 < sqrt (1 + t²).
Proof. apply sqrt_lt_R0. pose proof (Rle_0_sqr t). lra. Qed.

Lemma atan2_rango (y x : R) (sy sx : bool) :
  - PI <= Complejos.atan2 y x sy sx <= PI /\
  (Complejos.atan2 y x sy sx = - PI <->
   y = 0 /\ sy = true /\ (x < 0 \/ x = 0 /\ sx = true)).
Proof.
  unfold Complejos.atan2. pose proof PI_RGT_0 as Hpi.
  destruct (Rlt_dec 0 x) as [Hx|Hx].
  { pose proof (atan_bound (y / x)) as Hb. split; [lra|].
    split; [lra | intros (_ & _ & [H|[H _]]); lra]. }
  destruct (Rlt_dec x 0) as [Hx'|Hx'].
  - pose proof (atan_bound (y / x)) as Hb.
    assert (Hinv : / x < 0) by now apply Rinv_lt_0_compat.
    destruct (Rlt_dec 0 y) as [Hy|Hy].
    { assert (Ht : y / x < 0) by (unfold Rdiv; nra).
      assert (atan (y / x) < 0).
      { rewrite <- atan_0. now apply atan_increasing. }
      split; [lra|]. split; [lra | intros (H0 & _); lra]. }
    destruct (Rlt_dec y 0) as [Hy'|Hy'].
    { assert (Ht : 0 < y / x) by (unfold Rdiv; nra).
      assert (0 < atan (y / x)).
      { rewrite <- atan_0. now apply atan_increasing. }
      split; [lra|]. split; [lra | intros (H0 & _); lra]. }
    assert (y = 0) by lra. subst y.
    destruct sy.
    + split; [lra|]. split; [intros _|reflexivity].
      split; [reflexivity|]. split; [reflexivity | now left].
    + split; [lra|]. split; [lra | intros (_ & H & _); discriminate H].
  - assert (x = 0) by lra. subst x.
    destruct (Rlt_dec 0 y) as [Hy|Hy].
    { split; [lra|]. split; [lra | intros (H0 & _); lra]. }
    destruct (Rlt_dec y 0) as [Hy'|Hy'].
    { split; [lra|]. split; [lra | intros (H0 & _); lra]. }
    assert (y = 0) by lra. subst y.
    destruct sx; [destruct sy|].
    + split; [lra|]. split; [intros _ | reflexivity].
      split; [reflexivity|]. split; [reflexivity | now right].
    + split; [lra|]. split; [lra | intros (_ & H & _); discriminate H].
    + split; [lra|]. split; [lra|].
      intros (_ & _ & [H|[_ H]]); [lra | discriminate H].
Qed.

(** X18. Converting a complex number to polar form and back returns the
    number: with [(r, theta) = cartesiano_a_polar(c)],
    [polar_a_cartesiano(r, theta)] is [c]; the radius is not negative and
    the angle, which is also what [fase] returns, lies in [[-PI, PI]].  The
    angle is [-PI] only for an imaginary part [-0.0] with a real part that
    is negative or [-0.0]. *)
Theorem polar_ida_y_vuelta (c : Complejos.complejo)
    (menos_cero : bool * bool) :
  let (r, theta) := Complejos.cartesiano_a_polar c menos_cero in
  Complejos.polar_a_cartesiano r theta = c /\
  0 <= r /\ - PI <= theta <= PI /\
  (theta = - PI <->
   snd c = 0 /\ snd menos_cero = true /\
   (fst c < 0 \/ fst c = 0 /\ fst menos_cero = true)) /\
  theta = Complejos.fase c menos_cero.
Proof.
  destruct c as [x y], menos_cero as [sx sy].
  unfold Complejos.cartesiano_a_polar, Complejos.fase. cbv zeta.
  cbn [fst snd].
  split; [|split; [apply sqrt_pos |]].
  2: { destruct (atan2_rango y x sy sx) as [Hr Hm].
       split; [exact Hr|]. split; [exact Hm | reflexivity]. }
  unfold Complejos.polar_a_cartesiano, Complejos.modulo, Complejos.atan2.
  cbn [fst snd]. cbv zeta.
  destruct (Rlt_dec 0 x) as [Hx|Hx].
  { set (t := y / x). pose proof (raiz_positiva t) as Hq.
    assert (Hy : y = x * t) by (unfold t; field; lra).
    assert (Hr : sqrt (x ^ 2 + y ^ 2) = x * sqrt (1 + t²)).
    { rewrite Hy. apply raiz_de_escala. lra. }
    rewrite Hr, cos_atan, sin_atan.
    apply complejo_eq; cbn [fst snd]; [field; lra|].
    transitivity (x * t); [field; lra | symmetry; exact Hy]. }
  destruct (Rlt_dec x 0) as [Hx'|Hx'].
  { set (t := y / x). pose proof (raiz_positiva t) as Hq.
    assert (Hy : y = x * t) by (unfold t; field; lra).
    assert (Hr : sqrt (x ^ 2 + y ^ 2) = - x * sqrt (1 + t²)).
    { rewrite Hy. rewrite <- (raiz_de_escala (- x) t) by lra.
      f_equal. ring. }
    destruct (Rlt_dec 0 y) as [Hy0|Hy0].
    { rewrite Hr, neg_cos, neg_sin, cos_atan, sin_atan.
      apply complejo_eq; cbn [fst snd]; [field; lra|].
      transitivity (x * t); [field; lra | symmetry; exact Hy]. }
    destruct (Rlt_dec y 0) as [Hy1|Hy1].
    { rewrite Hr. unfold Rminus.
      rewrite cos_plus, sin_plus, cos_neg, sin_neg.
      rewrite cos_PI, sin_PI, cos_atan, sin_atan.
      apply complejo_eq; cbn [fst snd]; [field; lra|].
      transitivity (x * t); [field; lra | symmetry; exact Hy]. }
    assert (H0 : y = 0) by lra. clear Hy Hr Hq t. subst y.
    replace (x ^ 2 + 0 ^ 2) with ((- x) ^ 2) by ring.
    rewrite sqrt_pow2 by lra.
    destruct sy; rewrite ?cos_neg, ?sin_neg, cos_PI, sin_PI;
      apply complejo_eq; cbn [fst snd]; ring. }
  assert (x = 0) by lra. subst x.
  replace (0 ^ 2 + y ^ 2) with (y ^ 2) by ring.
  destruct (Rlt_dec 0 y) as [Hy|Hy].
  { rewrite sqrt_pow2, cos_PI2, sin_PI2 by lra.
    apply complejo_eq; cbn [fst snd]; ring. }
  destruct (Rlt_dec y 0) as [Hy'|Hy'].
  { replace (y ^ 2) with ((- y) ^ 2) by ring.
    rewrite sqrt_pow2, cos_neg, sin_neg, cos_PI2, sin_PI2 by lra.
    apply complejo_eq; cbn [fst snd]; ring. }
  assert (y = 0) by lra. subst y.
  replace (0 ^ 2) with 0 by ring. rewrite sqrt_0.
  apply complejo_eq; cbn [fst snd]; ring.
Qed.

(** The number [(-1.0, -0.0)], which [conjugado((-1.0, 0.0))] returns, has
    the phase [-PI]; with the imaginary part [0.0] the phase is [PI]. *)
Example fase_del_conjugado :
  Complejos.fase (Complejos.conjugado (-1, 0)) (false, true) = - PI /\
  Complejos.fase (-1, 0) (false, false) = PI.
Proof.
  unfold Complejos.fase, Complejos.conjugado, Complejos.atan2.
  cbn [fst snd]. replace (- 0) with 0 by ring.
  split; repeat (caso_R; try reflexivity).
Qed.

Lemma tangente_desplazada (theta : R) :
  cos theta <> 0 ->
  tan (theta - PI) = tan theta /\ tan (theta + PI) = tan theta.
Proof.
  intros Hc. unfold tan, Rminus.
  rewrite cos_plus, sin_plus, cos_neg, sin_neg, cos_PI, sin_PI.
  rewrite neg_cos, neg_sin. split; field; exact Hc.
Qed.

Lemma coseno_positivo_rango (theta : R) :
  - PI < theta <= PI -> 0 < cos theta -> - (PI / 2) < theta < PI / 2.
Proof.
  intros [Hlo Hhi] Hc. pose proof PI_RGT_0 as Hpi. split.
  - destruct (Rlt_dec (- (PI / 2)) theta) as [H|H]; [exact H|].
    exfalso. pose proof (cos_le_0 (- theta)) as Hle.
    rewrite cos_neg in Hle. lra.
  - destruct (Rlt_dec theta (PI / 2)) as [H|H]; [exact H|].
    exfalso. pose proof (cos_le_0 theta). lra.
Qed.

Lemma coseno_negativo_rango (theta : R) :
  - PI < theta <= PI -> cos theta < 0 ->
  (0 <= sin theta -> PI / 2 < theta) /\
  (sin theta < 0 -> theta < - (PI / 2)).
Proof.
  intros [Hlo Hhi] Hc. pose proof PI_RGT_0 as Hpi. split; intros Hs.
  - destruct (Rlt_dec (PI / 2) theta) as [H|H]; [exact H|]. exfalso.
    destruct (Rlt_dec theta 0) as [Hneg|Hpos].
    + pose proof (sin_lt_0_var theta Hlo Hneg). lra.
    + pose proof (cos_ge_0 theta). lra.
  - destruct (Rlt_dec theta (- (PI / 2))) as [H|H]; [exact H|]. exfalso.
    destruct (Rlt_dec theta 0) as [Hneg|Hpos].
    + pose proof (cos_ge_0 theta). lra.
    + pose proof (sin_ge_0 theta). lra.
Qed.

Lemma coseno_nulo_rango (theta : R) :
  - PI < theta <= PI -> cos theta = 0 ->
  (0 < sin theta -> theta = PI / 2) /\
  (sin theta < 0 -> theta = - (PI / 2)).
Proof.
  intros [Hlo Hhi] Hc. pose proof PI_RGT_0 as Hpi. split; intros Hs.
  - destruct (Rlt_dec theta 0) as [Hneg|Hpos].
    { pose proof (sin_lt_0_var theta Hlo Hneg). lra. }
    destruct (Rlt_dec theta (PI / 2)) as [H|H].
    { pose proof (cos_gt_0 theta). lra. }
    destruct (Rlt_dec (PI / 2) theta) as [H'|H']; [|lra].
    pose proof (cos_lt_0 theta). lra.
  - destruct (Rlt_dec theta 0) as [Hneg|Hpos].
    2: { pose proof (sin_ge_0 theta). lra. }
    destruct (Rlt_dec (- (PI / 2)) theta) as [H|H].
    { pose proof (cos_gt_0 theta). lra. }
    destruct (Rlt_dec theta (- (PI / 2))) as [H'|H']; [|lra].
    pose proof (cos_lt_0 (- theta)) as Hlt. rewrite cos_neg in Hlt. lra.
Qed.

Lemma seno_nulo_rango (theta : R) :
  - PI < theta <= PI -> cos theta < 0 -> sin theta = 0 -> theta = PI.
Proof.
  intros Hth Hc Hs. pose proof PI_RGT_0 as Hpi.
  destruct (coseno_negativo_rango theta Hth Hc) as [Hpos _].
  specialize (Hpos ltac:(lra)).
  destruct (Rlt_dec theta PI) as [H|H]; [|lra].
  pose proof (sin_gt_0 theta ltac:(lra) H). lra.
Qed.

(** X19. Converting a polar pair to cartesian form and back returns the
    pair, for a positive radius and an angle in (-PI, PI], whatever the
    signs of the zero components, except that at the angle [PI] the
    imaginary part must not be [-0.0] (in the source it is then
    [r * sin(pi)], a small positive float). *)
Theorem cartesiano_ida_y_vuelta (r theta : R) (menos_cero : bool * bool) :
  0 < r -> - PI < theta <= PI ->
  (theta = PI -> snd menos_cero = false) ->
  Complejos.cartesiano_a_polar (Complejos.polar_a_cartesiano r theta)
    menos_cero =
  (r, theta).
Proof.
  intros Hr Hth Hcero. pose proof PI_RGT_0 as Hpi.
  unfold Complejos.cartesiano_a_polar, Complejos.polar_a_cartesiano.
  cbv zeta. cbn [fst snd]. f_equal.
  - unfold Complejos.modulo. cbn [fst snd]. apply sqrt_lem_1; [nra | lra |].
    pose proof (sin2_cos2 theta) as H1. unfold Rsqr in H1.
    replace ((r * cos theta) ^ 2 + (r * sin theta) ^ 2)
      with (r * r * (sin theta * sin theta + cos theta * cos theta)) by ring.
    rewrite H1. ring.
  - unfold Complejos.atan2.
    assert (Htan : cos theta <> 0 ->
              r * sin theta / (r * cos theta) = tan theta).
    { intros Hc. unfold tan. field. split; lra. }
    destruct (Rlt_dec 0 (r * cos theta)) as [Hx|Hx].
    { assert (Hc : 0 < cos theta) by nra.
      rewrite Htan by lra. apply atan_tan.
      now apply coseno_positivo_rango. }
    destruct (Rlt_dec (r * cos theta) 0) as [Hx'|Hx'].
    { assert (Hc : cos theta < 0) by nra.
      destruct (coseno_negativo_rango theta Hth Hc) as [Hpos Hneg].
      destruct (tangente_desplazada theta ltac:(lra)) as [Hmenos Hmas].
      destruct (Rlt_dec 0 (r * sin theta)) as [Hy|Hy].
      { assert (Hs : 0 <= sin theta) by nra. specialize (Hpos Hs).
        rewrite Htan by lra.
        rewrite <- Hmenos, atan_tan by lra. ring. }
      destruct (Rlt_dec (r * sin theta) 0) as [Hy'|Hy'].
      { assert (Hs : sin theta < 0) by nra. specialize (Hneg Hs).
        rewrite Htan by lra.
        rewrite <- Hmas, atan_tan by lra. ring. }
      assert (Hs : sin theta = 0) by nra.
      pose proof (seno_nulo_rango theta Hth Hc Hs) as Hpi'.
      rewrite (Hcero Hpi'). symmetry. exact Hpi'. }
    assert (Hc : cos theta = 0) by nra.
    destruct (coseno_nulo_rango theta Hth Hc) as [Hpos Hneg].
    destruct (Rlt_dec 0 (r * sin theta)) as [Hy|Hy].
    { symmetry. apply Hpos. nra. }
    destruct (Rlt_dec (r * sin theta) 0) as [Hy'|Hy'].
    { symmetry. apply Hneg. nra. }
    exfalso. apply (cos_sin_0 theta). split; [exact Hc | nra].
Qed.

Lemma cartesiano_ida_y_vuelta_testigo :
  Complejos.cartesiano_a_polar (Complejos.polar_a_cartesiano 5 PI)
    (false, false) =
  (5, PI).
Proof.
  apply cartesiano_ida_y_vuelta; [lra | | reflexivity].
  pose proof PI_RGT_0. lra.
Defined.

(** * How the pattern depends on the parameters *)

(** X20. The fringe spacing of a constructed experiment grows with the
    screen distance and with the wavelength, shrinks when the slits are
    further apart, and does not depend on the slit width; the width of the
    central maximum shrinks when the slits are wider. *)
Theorem separacion_franjas_monotona
    (lambda a d L lambda' a' d' L' : R) ws e ws' e' :
  Experimento_init lambda a d L = (ws, Ok e) ->
  Experimento_init lambda' a' d' L' = (ws', Ok e') ->
  (lambda = lambda' -> d = d' -> L < L' ->
   separacion_franjas e < separacion_franjas e') /\
  (d = d' -> L = L' -> lambda < lambda' ->
   separacion_franjas e < separacion_franjas e') /\
  (lambda = lambda' -> L = L' -> d < d' ->
   separacion_franjas e' < separacion_franjas e) /\
  (lambda = lambda' -> d = d' -> L = L' ->
   separacion_franjas e' = separacion_franjas e) /\
  (lambda = lambda' -> L = L' -> a < a' ->
   ancho_central_difraccion e' < ancho_central_difraccion e).
Proof.
  intros H H'.
  apply Experimento_init_inv in H. destruct H as [(Hl & Ha & Hd & HL) ->].
  apply Experimento_init_inv in H'.
  destruct H' as [(Hl' & Ha' & Hd' & HL') ->].
  simpl. unfold Rdiv.
  assert (Hid : 0 < / d) by now apply Rinv_0_lt_compat.
  assert (Hid' : 0 < / d') by now apply Rinv_0_lt_compat.
  assert (Hia : 0 < / a) by now apply Rinv_0_lt_compat.
  repeat split.
  - intros <- <- HLL. apply Rmult_lt_compat_r; [exact Hid | nra].
  - intros <- <- Hll. apply Rmult_lt_compat_r; [exact Hid | nra].
  - intros <- <- Hdd. apply Rmult_lt_compat_l; [nra|].
    apply Rinv_lt_contravar; [nra | exact Hdd].
  - intros <- <- <-. reflexivity.
  - intros <- <- Haa. apply Rmult_lt_compat_l; [nra|].
    apply Rinv_lt_contravar; [nra | exact Haa].
Qed.

Lemma separacion_franjas_monotona_testigo :
  exists ws e ws' e',
    Experimento_init 632e-9 50e-6 200e-6 1.0 = (ws, Ok e) /\
    Experimento_init 632e-9 50e-6 200e-6 2.0 = (ws', Ok e') /\
    separacion_franjas e < separacion_franjas e'.
Proof.
  do 4 eexists.
  split; [apply Experimento_init_Ok; lra|].
  split; [apply Experimento_init_Ok; lra|].
  apply (proj1 (separacion_franjas_monotona
                  632e-9 50e-6 200e-6 1.0 632e-9 50e-6 200e-6 2.0 _ _ _ _
                  (Experimento_init_Ok 632e-9 50e-6 200e-6 1.0
                     ltac:(lra) ltac:(lra) ltac:(lra) ltac:(lra))
                  (Experimento_init_Ok 632e-9 50e-6 200e-6 2.0
                     ltac:(lra) ltac:(lra) ltac:(lra) ltac:(lra))));
    (reflexivity || lra).
Defined.

(** X21. The intensity fields depend on the ratios only: scaling the
    wavelength, the slit width and the separation by the same positive
    factor leaves both fields unchanged, and scaling the screen distance
    leaves them unchanged at the positions scaled by the same factor. *)
Theorem campos_invariantes_de_escala (lambda a d L factor : R) ws e :
  0 < factor ->
  Experimento_init lambda a d L = (ws, Ok e) ->
  exists ws1 e1 ws2 e2,
    Experimento_init (factor * lambda) (factor * a) (factor * d) L =
      (ws1, Ok e1) /\
    Experimento_init lambda a d (factor * L) = (ws2, Ok e2) /\
    forall y,
      rendija_simple e1 y = rendija_simple e y /\
      doble_rendija e1 y = doble_rendija e y /\
      rendija_simple e2 (map (Rmult factor) y) = rendija_simple e y /\
      doble_rendija e2 (map (Rmult factor) y) = doble_rendija e y.
Proof.
  intros Hk H.
  assert (He : construido e) by (now exists lambda, a, d, L, ws).
  apply Experimento_init_inv in H. destruct H as [(Hl & Ha & Hd & HL) ->].
  assert (Hkl : 0 < factor * lambda) by now apply Rmult_lt_0_compat.
  assert (Hka : 0 < factor * a) by now apply Rmult_lt_0_compat.
  assert (Hkd : 0 < factor * d) by now apply Rmult_lt_0_compat.
  assert (HkL : 0 < factor * L) by now apply Rmult_lt_0_compat.
  pose proof (Experimento_init_Ok _ _ _ _ Hkl Hka Hkd HL) as H1.
  pose proof (Experimento_init_Ok _ _ _ _ Hl Ha Hd HkL) as H2.
  do 4 eexists. split; [exact H1|]. split; [exact H2|].
  assert (He1 : construido
                  (_calcular_parametros_teoricos
                     (onda_de (factor * lambda) 1.0)
                     (factor * a) (factor * d) L)) by (repeat eexists; exact H1).
  assert (He2 : construido
                  (_calcular_parametros_teoricos
                     (onda_de lambda 1.0) a d (factor * L)))
    by (repeat eexists; exact H2).
  intros y.
  rewrite !rendija_simple_por_punto, !doble_rendija_por_punto
    by assumption.
  rewrite !map_map.
  repeat split; apply map_ext; intros yi;
    unfold envolvente_en, interferencia_en, beta_en, delta_en; simpl.
  - replace (PI * (factor * a) * sin (atan (yi / L)) / (factor * lambda))
      with (PI * a * sin (atan (yi / L)) / lambda) by (field; lra).
    reflexivity.
  - replace (PI * (factor * a) * sin (atan (yi / L)) / (factor * lambda))
      with (PI * a * sin (atan (yi / L)) / lambda) by (field; lra).
    replace (PI * (factor * d) * sin (atan (yi / L)) / (factor * lambda))
      with (PI * d * sin (atan (yi / L)) / lambda) by (field; lra).
    reflexivity.
  - replace (factor * yi / (factor * L)) with (yi / L) by (field; lra).
    reflexivity.
  - replace (factor * yi / (factor * L)) with (yi / L) by (field; lra).
    reflexivity.
Qed.

Lemma campos_invariantes_de_escala_testigo :
  exists ws1 e1,
    Experimento_init (2 * 632e-9) (2 * 50e-6) (2 * 200e-6) 1.0 =
      (ws1, Ok e1) /\
    doble_rendija e1 [0.001] = doble_rendija experimento_rojo [0.001].
Proof.
  destruct (campos_invariantes_de_escala 632e-9 50e-6 200e-6 1.0 2 _ _
              ltac:(lra) Experimento_por_defecto_Ok)
    as (ws1 & e1 & ws2 & e2 & H1 & _ & Hy).
  exists ws1, e1. split; [exact H1|]. apply (Hy [0.001]).
Defined.
